(** * audisp-filter: allow/block filtering of audit events

    A shallow embedding of [audisp/plugins/filter/audisp-filter.c].  The
    plugin loads a list of search expressions from a root-owned file,
    registers them with the auparse matching engine, and for every event
    the dispatcher feeds it either writes the event's records to a pipe
    read by a child program, or drops the event.

    The C globals ([stop], [hup], [errors], [list], [cpid], the pipe) and
    the pieces of the outside world the program talks to (syslog, the
    config file, the pipe, signals sent with kill) are gathered in one
    [state] record that every function threads.  Calls whose outcome the
    program cannot predict (allocation, write) are answered by an
    environment, one answer per call. *)

From Stdlib Require Import ZArith List Lia Bool Sorted.
From Stdlib Require String.
From Stdlib.Strings Require Import Byte.
Import ListNotations.
Local Open Scope Z_scope.

(** ** Characters, integers and constants of the C environment *)

Definition NUL : byte := x00.
Definition NL : byte := x0a.
Definition SP : byte := x20.
Definition HASH : byte := x23.

(** [int] is 32 bits wide; incrementing past [INT_MAX] is written out as
    the two's complement wrap-around the compiled program performs. *)
Definition INT_MAX : Z := 2147483647.
Definition int_wrap (z : Z) : Z := (z + 2147483648) mod 4294967296 - 2147483648.
Definition int_incr (z : Z) : Z := int_wrap (z + 1).

(** <syslog.h> priorities. *)
Definition LOG_ERR : Z := 3.
Definition LOG_WARNING : Z := 4.
Definition LOG_INFO : Z := 6.

(** <errno.h>, <sys/stat.h> and <signal.h> on Linux. *)
Definition ENOENT : Z := 2.
Definition S_IWOTH : Z := 2.
Definition S_IFMT : Z := 61440.
Definition S_IFREG : Z := 32768.
Definition S_ISREG (m : Z) : bool := Z.land m S_IFMT =? S_IFREG.
Definition SIGHUP : Z := 1.
Definition SIGTERM : Z := 15.

(** The anonymous enum of the two filter modes. *)
Definition ALLOWLIST : Z := 0.
Definition BLOCKLIST : Z := 1.

(** ** Data model *)

(** [struct filter_rule]; the [next] pointer is the spine of the list. *)
Record filter_rule := mk_rule { expr : list byte; lineno : Z }.

(** [struct filter_list]: a singly linked list with a tail pointer. *)
Definition filter_list := list filter_rule.

(** [struct filter_conf]. *)
Record filter_conf := mk_conf {
  mode : Z;
  binary : list byte;
  binary_args : list (list byte);
  config_file : list byte;
  only_check : Z
}.

(** An event as the plugin sees it through auparse: its records, each
    rendered by [auparse_get_record_text] as one C string. *)
Record audit_event := mk_event { ev_records : list (list byte) }.

(** What [struct stat] holds that [load_rules] looks at. *)
Record stat := mk_stat { st_uid : Z; st_mode : Z }.

(** What [open] on the config file finds: an error with its [errno], or
    a descriptor whose [fstat] fails ([None]) or succeeds, and the bytes
    a reader of the descriptor gets. *)
Inductive open_result :=
| Open_failed (errno : Z)
| Opened (st : option stat) (contents : list byte).

(** One constructor per [syslog] call site, with the arguments of its
    format string. *)
Inductive log_msg :=
| Msg_add_failed (e : list byte)
| Msg_cur_event (rc : Z)
| Msg_write_failed
| Msg_too_long (line : Z)
| Msg_auparse_init_failed
| Msg_invalid_expression (e : list byte)
| Msg_open_error (errno : Z)
| Msg_no_config
| Msg_fstat_error
| Msg_not_root
| Msg_world_writable
| Msg_not_regular
| Msg_fdopen_failed
| Msg_not_reloaded
| Msg_reloaded.

(** What the process does that the outside can observe, in order:
    syslog lines, writes to [pipefd[1]] (with whether they succeeded),
    signals sent, stores to the two [volatile] flags, the call to
    [auplugin_stop], the reaping of children, and the questions put to
    the matching engine. *)
Inductive event :=
| Syslog (prio : Z) (m : log_msg)
| Write (data : list byte) (ok : bool)
| Kill (pid sig : Z)
| Store_stop (v : Z)
| Store_hup (v : Z)
| Auplugin_stop
| Reap
| Ausearch_add (e : list byte) (rc : Z)
| Ausearch_clear.

Record state := mk_state {
  stop : Z;
  hup : Z;
  errors : Z;
  rule_list : filter_list;        (* the global [list] *)
  cpid : Z;
  ppid : Z;                       (* what [getppid] returns *)
  rules_loaded : Z;               (* static local of [handle_event] *)
  au_exprs : list (list byte);    (* expressions registered in [au] *)
  pipe : list byte;               (* bytes delivered to the consumer *)
  conf_file : open_result;        (* the file at [config.config_file] *)
  tick : nat;                     (* calls answered by the environment *)
  trace : list event
}.

Definition set_stop (v : Z) (s : state) : state :=
  mk_state v (hup s) (errors s) (rule_list s) (cpid s) (ppid s)
    (rules_loaded s) (au_exprs s) (pipe s) (conf_file s) (tick s) (trace s).
Definition set_hup (v : Z) (s : state) : state :=
  mk_state (stop s) v (errors s) (rule_list s) (cpid s) (ppid s)
    (rules_loaded s) (au_exprs s) (pipe s) (conf_file s) (tick s) (trace s).
Definition set_errors (v : Z) (s : state) : state :=
  mk_state (stop s) (hup s) v (rule_list s) (cpid s) (ppid s)
    (rules_loaded s) (au_exprs s) (pipe s) (conf_file s) (tick s) (trace s).
Definition set_rule_list (v : filter_list) (s : state) : state :=
  mk_state (stop s) (hup s) (errors s) v (cpid s) (ppid s)
    (rules_loaded s) (au_exprs s) (pipe s) (conf_file s) (tick s) (trace s).
Definition set_rules_loaded (v : Z) (s : state) : state :=
  mk_state (stop s) (hup s) (errors s) (rule_list s) (cpid s) (ppid s)
    v (au_exprs s) (pipe s) (conf_file s) (tick s) (trace s).
Definition set_au_exprs (v : list (list byte)) (s : state) : state :=
  mk_state (stop s) (hup s) (errors s) (rule_list s) (cpid s) (ppid s)
    (rules_loaded s) v (pipe s) (conf_file s) (tick s) (trace s).
Definition set_pipe (v : list byte) (s : state) : state :=
  mk_state (stop s) (hup s) (errors s) (rule_list s) (cpid s) (ppid s)
    (rules_loaded s) (au_exprs s) v (conf_file s) (tick s) (trace s).
Definition set_tick (v : nat) (s : state) : state :=
  mk_state (stop s) (hup s) (errors s) (rule_list s) (cpid s) (ppid s)
    (rules_loaded s) (au_exprs s) (pipe s) (conf_file s) v (trace s).
Definition set_trace (v : list event) (s : state) : state :=
  mk_state (stop s) (hup s) (errors s) (rule_list s) (cpid s) (ppid s)
    (rules_loaded s) (au_exprs s) (pipe s) (conf_file s) (tick s) v.

Definition set_conf_file (v : open_result) (s : state) : state :=
  mk_state (stop s) (hup s) (errors s) (rule_list s) (cpid s) (ppid s)
    (rules_loaded s) (au_exprs s) (pipe s) v (tick s) (trace s).

(** Appending one observable event. *)
Definition emit (e : event) (s : state) : state := set_trace (trace s ++ [e]) s.
Definition syslog (prio : Z) (m : log_msg) (s : state) : state := emit (Syslog prio m) s.

(** Stores to the [volatile] flags are observable, so they are traced. *)
Definition store_stop (v : Z) (s : state) : state := emit (Store_stop v) (set_stop v s).
Definition store_hup (v : Z) (s : state) : state := emit (Store_hup v) (set_hup v s).
Definition kill (pid sig : Z) (s : state) : state := emit (Kill pid sig) s.
Definition auplugin_stop (s : state) : state := emit Auplugin_stop s.

(** ** The environment

    The matching engine is a black box: [ausearch_add_expression] says
    whether it accepts an expression (0) or not, [ausearch_cur_event]
    evaluates the current event against the registered expressions
    (positive: match, 0: no match, negative: error).  [alloc_ok] and
    [write_ok] answer the n-th call that may fail for lack of memory
    ([auparse_init], [malloc], [strdup], [fdopen]) or on the pipe. *)
Class Env := {
  ausearch_add_expression : list byte -> Z;
  ausearch_cur_event : list (list byte) -> audit_event -> Z;
  alloc_ok : nat -> bool;
  write_ok : nat -> bool
}.

(** ** stdio and string functions the loader uses *)

(** A [FILE*] open for reading: the bytes not read yet. *)
Definition FILE := list byte.

(** The characters one [fgets] call stores: at most [n], stopping after
    a newline or at end of file. *)
Fixpoint fgets_read (n : nat) (f : FILE) : list byte * FILE :=
  match n, f with
  | O, _ => ([], f)
  | _, [] => ([], [])
  | S n', b :: f' =>
      if Byte.eqb b NL then ([b], f')
      else let (c, r) := fgets_read n' f' in (b :: c, r)
  end.

(** [fgets_unlocked(buf, size, f)]: [None] is the NULL return; otherwise
    the characters stored in [buf] (a NUL follows them) and the rest of
    the stream.  With [size] 1 nothing is read and the empty string is
    returned. *)
Definition fgets_unlocked (size : nat) (f : FILE) : option (list byte * FILE) :=
  match size with
  | O => None
  | S O => Some ([], f)
  | S n =>
      match f with
      | [] => None
      | _ => Some (fgets_read n f)
      end
  end.

(** [strchr(s, c)] on a buffer: the offset of the first [c] of the C
    string that starts the buffer, so nothing behind a NUL is found. *)
Fixpoint strchr (s : list byte) (c : byte) : option nat :=
  match s with
  | [] => None
  | b :: s' =>
      if Byte.eqb b c then Some O
      else if Byte.eqb b NUL then None
      else option_map S (strchr s' c)
  end.

(** Storing [v] at offset [i] of the buffer. *)
Fixpoint poke (buf : list byte) (i : nat) (v : byte) : list byte :=
  match buf, i with
  | [], _ => []
  | _ :: r, O => v :: r
  | b :: r, S i' => b :: poke r i' v
  end.

(** The C string a buffer holds: its bytes before the first NUL. *)
Fixpoint c_str (buf : list byte) : list byte :=
  match buf with
  | [] => []
  | b :: r => if Byte.eqb b NUL then [] else b :: c_str r
  end.

(** [sizeof(buf)] in [load_rules]. *)
Definition BUF_SIZE : nat := 1024.

(** ** The program *)

Section Program.
Context {E : Env}.

(** A call that needs memory: the environment says whether it succeeds. *)
Definition alloc (s : state) : bool * state :=
  (alloc_ok (tick s), set_tick (S (tick s)) s).

(** The four such calls of the program; [true] is the non-NULL return. *)
Definition auparse_init : state -> bool * state := alloc.
Definition malloc : state -> bool * state := alloc.
Definition strdup : state -> bool * state := alloc.
Definition fdopen : state -> bool * state := alloc.

(** [write(pipefd[1], data, strlen(data)) != -1].  The pipe is in
    blocking mode: the call fails, or the whole buffer reaches the pipe. *)
Definition write (data : list byte) (s : state) : bool * state :=
  let ok := write_ok (tick s) in
  let s := set_tick (S (tick s)) s in
  if ok then (true, emit (Write data true) (set_pipe (pipe s ++ data) s))
  else (false, emit (Write data false) s).

(** The loop of [get_line].  [fuel] bounds the number of [fgets] calls;
    each call takes at least one byte of the stream when [size] is at
    least 2, so [get_line] below gives it enough.  The result is the line
    returned ([None] for NULL), the stream, and the line counter. *)
Fixpoint get_line_loop (fuel : nat) (f : FILE) (size : nat) (ln : Z)
    (too_long : bool) (s : state) : option (list byte) * FILE * Z * state :=
  match fuel with
  | O => (None, f, ln, s)
  | S fuel' =>
      match fgets_unlocked size f with
      | None => (None, f, ln, s)
      | Some (chunk, f') =>
          let buf := chunk ++ [NUL] in
          match strchr buf NL with
          | Some ptr =>
              if too_long
              then get_line_loop fuel' f' size (int_incr ln) false s
              else (Some (c_str (poke buf ptr NUL)), f', ln, s)
          | None =>
              let s' := if too_long then s
                        else syslog LOG_WARNING (Msg_too_long ln) s in
              get_line_loop fuel' f' size ln true s'
          end
      end
  end.

Definition get_line (f : FILE) (size : nat) (ln : Z) (s : state)
    : option (list byte) * FILE * Z * state :=
  get_line_loop (S (length f)) f size ln false s.

Definition reset_rules : filter_list := [].

Definition append_rule (l : filter_list) (rule : filter_rule) : filter_list :=
  l ++ [rule].

(** The loop that skips leading blanks: it advances [line] over every
    0x20 character, and over nothing else. *)
Fixpoint skip_spaces (line : list byte) : list byte :=
  match line with
  | [] => []
  | b :: r => if Byte.eqb b SP then skip_spaces r else line
  end.

(** [parse_line]: [None] is the NULL return. *)
Definition parse_line (line : list byte) (ln : Z) (s : state)
    : option filter_rule * state :=
  let (au_ok, s) := auparse_init s in
  if negb au_ok then (None, syslog LOG_ERR Msg_auparse_init_failed s) else
  let line := skip_spaces line in
  match line with
  | [] => (None, s)
  | c :: _ =>
      if Byte.eqb c HASH then (None, s) else
      let (rule_ok, s) := malloc s in
      if negb rule_ok then (None, s) else
      let (expr_ok, s) := strdup s in
      if negb expr_ok then (None, s) else
      let rc := ausearch_add_expression line in
      let s := emit (Ausearch_add line rc) s in
      if negb (rc =? 0)
      then (None, set_errors (int_incr (errors s))
                    (syslog LOG_ERR (Msg_invalid_expression line) s))
      else (Some (mk_rule line ln), s)
  end.

(** The [while (get_line(...))] loop of [load_rules]; every turn takes at
    least one byte of the stream, so [read_file] gives it enough fuel. *)
Fixpoint read_rules (fuel : nat) (f : FILE) (ln : Z) (l : filter_list)
    (s : state) : filter_list * state :=
  match fuel with
  | O => (l, s)
  | S fuel' =>
      match get_line f BUF_SIZE ln s with
      | (None, _, _, s) => (l, s)
      | (Some buf, f, ln, s) =>
          let ln := int_incr ln in
          match parse_line buf ln s with
          | (None, s) => read_rules fuel' f ln l s
          | (Some rule, s) => read_rules fuel' f ln (append_rule l rule) s
          end
      end
  end.

Definition read_file (f : FILE) (ln : Z) (l : filter_list) (s : state)
    : filter_list * state :=
  read_rules (S (length f)) f ln l s.

(** [load_rules(list)]: the return value, the list built, and the state. *)
Definition load_rules (s : state) : Z * filter_list * state :=
  let l := reset_rules in
  let s := set_errors 0 s in
  match conf_file s with
  | Open_failed errno =>
      if negb (errno =? ENOENT)
      then (1, l, syslog LOG_ERR (Msg_open_error errno) s)
      else (1, l, syslog LOG_ERR Msg_no_config s)
  | Opened None _ => (1, l, syslog LOG_ERR Msg_fstat_error s)
  | Opened (Some st) contents =>
      if negb (st_uid st =? 0)
      then (1, l, syslog LOG_ERR Msg_not_root s)
      else if Z.land (st_mode st) S_IWOTH =? S_IWOTH
      then (1, l, syslog LOG_ERR Msg_world_writable s)
      else if negb (S_ISREG (st_mode st))
      then (1, l, syslog LOG_ERR Msg_not_regular s)
      else
        let (f_ok, s) := fdopen s in
        if negb f_ok then (1, l, syslog LOG_ERR Msg_fdopen_failed s) else
        let (l, s) := read_file contents 0 l s in
        (errors s, l, s)
  end.

(** SIGCHLD handler. *)
Definition child_handler (sig : Z) (s : state) : state :=
  auplugin_stop (store_stop 1 (emit Reap s)).

(** SIGTERM handler; [info] is [None] for a NULL [siginfo_t] pointer and
    otherwise carries [si_pid]. *)
Definition term_handler (sig : Z) (info : option Z) (s : state) : state :=
  match info with
  | Some si_pid =>
      if negb (si_pid =? ppid s) then s
      else auplugin_stop (store_stop 1 (kill (cpid s) sig s))
  | None => auplugin_stop (store_stop 1 (kill (cpid s) sig s))
  end.

(** SIGHUP handler. *)
Definition hup_handler (sig : Z) (s : state) : state :=
  store_hup 1 (kill (cpid s) sig s).

Definition reload_config (s : state) : state :=
  let s := store_hup 0 s in
  let '(rc, new_list, s) := load_rules s in
  if negb (rc =? 0) then syslog LOG_INFO Msg_not_reloaded s
  else syslog LOG_INFO Msg_reloaded (set_rule_list new_list s).

(** The [for] loop of [handle_event] that registers the rules in [au]. *)
Fixpoint add_rules (l : filter_list) (s : state) : state :=
  match l with
  | [] => s
  | rule :: l' =>
      let rc := ausearch_add_expression (expr rule) in
      let s := emit (Ausearch_add (expr rule) rc) s in
      let s := if negb (rc =? 0)
               then syslog LOG_ERR (Msg_add_failed (expr rule)) s
               else set_au_exprs (au_exprs s ++ [expr rule]) s in
      add_rules l' s
  end.

(** The first block of [handle_event]: reload when asked to, and (again)
    register the rules.  [ausearch_set_stop] only says where the search
    cursor is to rest after a match; it changes nothing that is kept
    here. *)
Definition register_rules (s : state) : state :=
  if (rules_loaded s =? 0) || negb (hup s =? 0) then
    let s := if negb (hup s =? 0)
             then emit Ausearch_clear
                    (set_au_exprs [] (store_hup 0 (reload_config s)))
             else s in
    set_rules_loaded 1 (add_rules (rule_list s) s)
  else s.

(** The value [forward_event] gets from the engine's answer; [None]
    where the function returns instead. *)
Definition forward_event (md rc : Z) : option Z :=
  if rc >? 0 then Some (if md =? ALLOWLIST then 0 else 1)
  else if rc =? 0 then Some (if md =? ALLOWLIST then 1 else 0)
  else None.

(** The loop over the records of a forwarded event. *)
Fixpoint write_records (recs : list (list byte)) (s : state) : state :=
  match recs with
  | [] => s
  | txt :: rest =>
      let (ok, s) := write txt s in
      if negb ok then syslog LOG_ERR Msg_write_failed s else
      let (ok, s) := write [NL] s in
      if negb ok then syslog LOG_ERR Msg_write_failed s else
      write_records rest s
  end.

Definition handle_event (config : filter_conf) (ev : audit_event) (s : state)
    : state :=
  let s := register_rules s in
  let rc := ausearch_cur_event (au_exprs s) ev in
  match forward_event (mode config) rc with
  | None => syslog LOG_ERR (Msg_cur_event rc) s
  | Some fwd =>
      if negb (fwd =? 0) then write_records (ev_records ev) s else s
  end.

End Program.

(** ** A small concrete environment, to run the program on

    The engine of this environment accepts an expression when it
    contains the character '='; an event matches when one of its records
    is, byte for byte, a registered expression; an event without records
    cannot be evaluated.  Memory and the pipe fail at the calls listed. *)

Fixpoint bytes_eqb (a b : list byte) : bool :=
  match a, b with
  | [], [] => true
  | x :: a', y :: b' => Byte.eqb x y && bytes_eqb a' b'
  | _, _ => false
  end.

Definition toy_add_expression (e : list byte) : Z :=
  if existsb (Byte.eqb x3d) e then 0 else -1.

Definition toy_cur_event (exprs : list (list byte)) (ev : audit_event) : Z :=
  match ev_records ev with
  | [] => -1
  | recs =>
      if existsb (fun e => existsb (bytes_eqb e) recs) exprs then 1 else 0
  end.

Definition toy_env (no_mem no_write : list nat) : Env := {|
  ausearch_add_expression := toy_add_expression;
  ausearch_cur_event := toy_cur_event;
  alloc_ok := fun n => negb (existsb (Nat.eqb n) no_mem);
  write_ok := fun n => negb (existsb (Nat.eqb n) no_write)
|}.

Definition bytes (s : String.string) : list byte := String.list_byte_of_string s.

Definition root_file (contents : list byte) : open_result :=
  Opened (Some (mk_stat 0 33184)) contents.

(** The state [main] leaves when it enters the event feed with the rules
    [l] loaded: consumer 4242, dispatcher 1. *)
Definition start (l : filter_list) (file : open_result) : state :=
  mk_state 0 0 0 l 4242 1 0 [] [] file 0 [].

(** ** Vocabulary of the statements *)

(** A line of text: no newline and no NUL inside. *)
Definition text_line (l : list byte) : bool :=
  forallb (fun b => negb (Byte.eqb b NL) && negb (Byte.eqb b NUL)) l.

(** Complete lines, each closed by its newline, one after the other. *)
Definition unlines (ls : list (list byte)) : list byte :=
  concat (map (fun l => l ++ [NL]) ls).

(** The events a run from [s] to [s'] added to the trace. *)
Definition events_since (s s' : state) : list event :=
  skipn (length (trace s)) (trace s').

Definition is_write (e : event) : bool :=
  match e with Write _ _ => true | _ => false end.

(** The engine was asked about an expression and refused it. *)
Definition is_rejection (e : event) : bool :=
  match e with Ausearch_add _ rc => negb (rc =? 0) | _ => false end.

Definition syslog_priority (e : event) : option Z :=
  match e with Syslog p _ => Some p | _ => None end.

(** A candidate expression: what is left of a line after the leading
    blanks is not empty and does not start with '#'. *)
Definition candidate (line : list byte) : bool :=
  match skip_spaces line with
  | [] => false
  | c :: _ => negb (Byte.eqb c HASH)
  end.

(** The checks of [load_rules] that come before any read: [open],
    [fstat], owner, mode and file type. *)
Definition gate_failed (f : open_result) : bool :=
  match f with
  | Open_failed _ => true
  | Opened None _ => true
  | Opened (Some st) _ =>
      negb (st_uid st =? 0)
      || (Z.land (st_mode st) S_IWOTH =? S_IWOTH)
      || negb (S_ISREG (st_mode st))
  end.

Definition file_size (f : open_result) : nat :=
  match f with
  | Open_failed _ => O
  | Opened _ contents => length contents
  end.

(** The bytes a consumer reads for the records of one event. *)
Definition record_lines (recs : list (list byte)) : list byte :=
  concat (map (fun r => r ++ [NL]) recs).

(** The trace of the successful writes of these records. *)
Definition record_writes (recs : list (list byte)) : list event :=
  concat (map (fun r => [Write r true; Write [NL] true]) recs).

(** [frame s s']: the two states differ at most in the counter of the
    environment, the error count and the trace. *)
Definition frame (s s' : state) : Prop :=
  set_trace (trace s) (set_tick (tick s) (set_errors (errors s) s')) = s.

(** The number of expressions the engine refused in a piece of trace. *)
Definition rejections (tr : list event) : nat := length (filter is_rejection tr).

(** [silent s s']: nothing reached the pipe and no write was tried. *)
Definition silent (s s' : state) : Prop :=
  pipe s' = pipe s /\ stop s' = stop s /\
  exists new, trace s' = trace s ++ new /\ existsb is_write new = false.

(** The state after the records [recs] went through. *)
Definition wrote (recs : list (list byte)) (s : state) : state :=
  set_trace (trace s ++ record_writes recs)
    (set_pipe (pipe s ++ record_lines recs)
       (set_tick (tick s + 2 * length recs) s)).

(** The call tried to write to the pipe. *)
Definition forwarded (s s' : state) : bool :=
  existsb is_write (events_since s s').

Section Vocabulary.
Context {E : Env}.

(** The pipe takes the writes numbered [from], ..., [from + n - 1]. *)
Definition writes_ok (from n : nat) : bool := forallb write_ok (seq from n).

(** [auparse_init] succeeds and then there is no memory for the rule or
    for its text. *)
Definition out_of_memory (s : state) : bool :=
  alloc_ok (tick s)
  && negb (alloc_ok (S (tick s)) && alloc_ok (S (S (tick s)))).

End Vocabulary.

(** Sample inputs. *)
Section Samples.
Import String.StringSyntax.
Local Open Scope string_scope.

Definition toy : Env := toy_env [] [].

Definition conf_allow : filter_conf :=
  mk_conf ALLOWLIST (bytes "/usr/bin/logger") [bytes "logger"]
    (bytes "/etc/audit/audisp-filter.conf") 0.

Definition conf_block : filter_conf :=
  mk_conf BLOCKLIST (bytes "/usr/bin/logger") [bytes "logger"]
    (bytes "/etc/audit/audisp-filter.conf") 0.

Definition rule_b64 : filter_rule := mk_rule (bytes "arch=b64") 1.

(** An event of two records, the first of which the rule above matches. *)
Definition ev_b64 : audit_event :=
  mk_event [bytes "arch=b64"; bytes "type=PATH"].

(** Two valid lines. *)
Definition file_ok : list byte :=
  bytes "arch=b64" ++ [NL] ++ bytes "uid=0" ++ [NL].

(** One invalid line between two valid ones. *)
Definition file_bad : list byte :=
  bytes "arch=b64" ++ [NL] ++ bytes "bogus" ++ [NL] ++ bytes "uid=0" ++ [NL].

(** One valid line. *)
Definition file_one : list byte := bytes "arch=b64" ++ [NL].

(** A line of 1500 bytes between two valid ones. *)
Definition file_long : list byte :=
  bytes "arch=b64" ++ [NL] ++ repeat x61 1500 ++ [NL] ++ bytes "uid=0" ++ [NL].

Definition line_b64 : list byte := bytes "arch=b64".
Definition line_bogus : list byte := bytes "bogus".
Definition line_uid : list byte := bytes "uid=0".
Definition line_path : list byte := bytes "type=PATH".

End Samples.

(** [EACCES] of <errno.h>. *)
Definition EACCES : Z := 13.

(** The priorities of the syslog lines a load writes when [open] fails
    with [errno]. *)
Definition open_failure_priorities (errno : Z) : list Z :=
  let '(_, _, s') := @load_rules toy (start [] (Open_failed errno)) in
  flat_map (fun e => match syslog_priority e with
                     | Some p => [p]
                     | None => []
                     end) (trace s').

(** ** Start-up: the C library calls, the command line and [main] *)

(** <ctype.h> and <string.h>: [tolower], [strcmp] and [strcasecmp] of the
    C locale.  A string ends at its first NUL byte, or where the list
    ends; characters compare as [unsigned char]. *)
Definition byte_val (b : byte) : Z := Z.of_N (Byte.to_N b).

Definition tolower (b : byte) : byte :=
  let n := Byte.to_N b in
  if (N.leb 65 n && N.leb n 90)%bool
  then match Byte.of_N (n + 32) with Some c => c | None => b end
  else b.

Fixpoint strcmp (a b : list byte) : Z :=
  match a, b with
  | [], [] => 0
  | x :: _, [] => byte_val x
  | [], y :: _ => - byte_val y
  | x :: a', y :: b' =>
      if Byte.eqb x y then (if Byte.eqb x NUL then 0 else strcmp a' b')
      else byte_val x - byte_val y
  end.

Fixpoint strcasecmp (a b : list byte) : Z :=
  match a, b with
  | [], [] => 0
  | x :: _, [] => byte_val (tolower x)
  | [], y :: _ => - byte_val (tolower y)
  | x :: a', y :: b' =>
      if Byte.eqb (tolower x) (tolower y)
      then (if Byte.eqb (tolower x) NUL then 0 else strcasecmp a' b')
      else byte_val (tolower x) - byte_val (tolower y)
  end.

(** What [main] and [parse_args] do besides the events of [event]: the
    lines they write to syslog, the handlers they install, and the calls
    that start the consumer and the event feed.  They are gathered in a
    log of their own, in the order of the calls. *)
Inductive startup_msg :=
| Msg_not_enough_arguments
| Msg_invalid_mode (m : list byte)
| Msg_capng_failed
| Msg_pipe_failed
| Msg_fork_failed
| Msg_execve_failed
| Msg_auplugin_init_failed.

Inductive handler := Hup_handler | Child_handler | Term_handler.

Inductive startup_event :=
| Startup_syslog (prio : Z) (m : startup_msg)
| Sigaction (signum : Z) (h : handler)
| Capng_clear
| Pipe (rc : Z)
| Fork (rc : Z)
| Execve (binary : list byte) (args : list (list byte))
| Auplugin_init (rc : Z)
| Auplugin_event_feed.

(** [SIGCHLD] of <signal.h>. *)
Definition SIGCHLD : Z := 17.

Definition set_cpid (v : Z) (s : state) : state :=
  mk_state (stop s) (hup s) (errors s) (rule_list s) v (ppid s)
    (rules_loaded s) (au_exprs s) (pipe s) (conf_file s) (tick s) (trace s).

(** The initial value of the global [config]; a NULL pointer is the
    empty list. *)
Definition config_init : filter_conf := mk_conf (-1) [] [] [] 0.

(** The string literals ["--check"], ["allowlist"] and ["blocklist"]. *)
Definition flag_check : list byte :=
  [x2d; x2d; x63; x68; x65; x63; x6b].

Definition name_allowlist : list byte :=
  [x61; x6c; x6c; x6f; x77; x6c; x69; x73; x74].

Definition name_blocklist : list byte :=
  [x62; x6c; x6f; x63; x6b; x6c; x69; x73; x74].

(** What the system and the auplugin library answer to [main]: the file
    found at a path, the results of [capng_apply] ([None] when built
    without libcap-ng), [pipe], [fork] and [auplugin_init], whether
    [execve] fails, and what the event feed does with the callback it is
    given. *)
Record os := mk_os {
  fs : list byte -> open_result;
  capng_apply : option Z;
  pipe_rc : Z;
  fork_rc : Z;
  execve_fails : bool;
  auplugin_init_rc : Z;
  auplugin_event_feed : (audit_event -> state -> state) -> state -> state
}.

(** How [main] ends: it returns (the exit status of the process), or the
    child has become the consumer program. *)
Inductive outcome :=
| Exit (code : Z)
| Exec (binary : list byte) (args : list (list byte)).

Section Startup.
Context {E : Env}.

(** The loop of [parse_args] that copies the arguments with [strdup];
    [None] when a copy fails. *)
Fixpoint dup_args (args : list (list byte)) (s : state)
    : option (list (list byte)) * state :=
  match args with
  | [] => (Some [], s)
  | a :: rest =>
      let (ok, s) := strdup s in
      if negb ok then (None, s) else
      let (r, s) := dup_args rest s in
      (option_map (cons a) r, s)
  end.

(** [parse_args(argc, argv)]: the return value, the global [config] it
    leaves, and what it logged.  [argc] is the length of [argv]; reading
    past the end of [argv] gives the empty string.  Where the function
    frees the array of arguments after a failed [strdup], the pointer it
    leaves in [config.binary_args] is written as the empty list. *)
Definition parse_args (argv : list (list byte)) (config : filter_conf)
    (s : state) : Z * filter_conf * list startup_event * state :=
  let argc := length argv in
  if (argc =? 3)%nat && (strcmp flag_check (nth 1 argv []) =? 0) then
    (0, mk_conf (mode config) (binary config) (binary_args config)
          (nth 2 argv []) 1, [], s)
  else if (argc <=? 3)%nat then
    (1, config, [Startup_syslog LOG_ERR Msg_not_enough_arguments], s)
  else
    let md :=
      if strcasecmp (nth 1 argv []) name_allowlist =? 0 then Some ALLOWLIST
      else if strcasecmp (nth 1 argv []) name_blocklist =? 0 then Some BLOCKLIST
      else None in
    match md with
    | None =>
        (1, config,
         [Startup_syslog LOG_ERR (Msg_invalid_mode (nth 1 argv []))], s)
    | Some m =>
        let config :=
          mk_conf m (nth 3 argv []) (binary_args config) (nth 2 argv [])
            (only_check config) in
        let (ok, s) := malloc s in
        let config :=
          mk_conf (mode config) (binary config) [] (config_file config)
            (only_check config) in
        if negb ok then (1, config, [], s) else
        match dup_args (skipn 3 argv) s with
        | (None, s) => (1, config, [], s)
        | (Some args, s) =>
            (0, mk_conf (mode config) (binary config) args
                  (config_file config) (only_check config), [], s)
        end
    end.

(** [main].  The rules are loaded into the global [list], so the list the
    load built is stored whatever it returned.  The memory freed before
    returning is not part of [state]; the rule list in memory is the
    subject of [Heap] below. *)
Definition main (o : os) (argv : list (list byte)) (s : state)
    : outcome * filter_conf * list startup_event * state :=
  let '(rc, config, log, s) := parse_args argv config_init s in
  if negb (rc =? 0) then (Exit 1, config, log, s) else
  let s := set_conf_file (fs o (config_file config)) s in
  let '(rc, l, s) := load_rules s in
  let s := set_rule_list l s in
  if negb (rc =? 0) then (Exit 1, config, log, s) else
  if negb (only_check config =? 0) then (Exit 0, config, log, s) else
  let log := log ++ [Sigaction SIGHUP Hup_handler;
                     Sigaction SIGCHLD Child_handler;
                     Sigaction SIGTERM Term_handler] in
  let log := match capng_apply o with
             | None => log
             | Some rc =>
                 log ++ Capng_clear ::
                   (if negb (rc =? 0)
                    then [Startup_syslog LOG_WARNING Msg_capng_failed]
                    else [])
             end in
  let log := log ++ [Pipe (pipe_rc o)] in
  if pipe_rc o =? -1
  then (Exit (-1), config, log ++ [Startup_syslog LOG_ERR Msg_pipe_failed], s)
  else
  let log := log ++ [Fork (fork_rc o)] in
  let s := set_cpid (fork_rc o) s in
  if fork_rc o =? -1
  then (Exit (-1), config, log ++ [Startup_syslog LOG_ERR Msg_fork_failed], s)
  else if fork_rc o =? 0 then
    let log := log ++ [Execve (binary config) (binary_args config)] in
    if execve_fails o
    then (Exit 1, config, log ++ [Startup_syslog LOG_ERR Msg_execve_failed], s)
    else (Exec (binary config) (binary_args config), config, log, s)
  else
    let log := log ++ [Auplugin_init (auplugin_init_rc o)] in
    if negb (auplugin_init_rc o =? 0)
    then (Exit (-1), config,
          log ++ [Startup_syslog LOG_ERR Msg_auplugin_init_failed],
          kill (cpid s) SIGTERM s)
    else
      let s := auplugin_event_feed o (handle_event config) s in
      (Exit 0, config, log ++ [Auplugin_event_feed], s).

(** The environment grants the calls for memory numbered [from], ...,
    [from + n - 1]. *)
Definition allocs_ok (from n : nat) : bool := forallb alloc_ok (seq from n).

End Startup.

(** The mode a word names, whatever the case of its letters. *)
Definition mode_named (w : list byte) : option Z :=
  if bytes_eqb (map tolower (c_str w)) name_allowlist then Some ALLOWLIST
  else if bytes_eqb (map tolower (c_str w)) name_blocklist then Some BLOCKLIST
  else None.

(** Entries of the start-up log. *)
Definition is_fork (e : startup_event) : bool :=
  match e with Fork _ => true | _ => false end.

Definition is_startup_syslog (e : startup_event) : bool :=
  match e with Startup_syslog _ _ => true | _ => false end.

Definition is_feed (e : startup_event) : bool :=
  match e with Auplugin_event_feed => true | _ => false end.

Definition is_failed_init (e : startup_event) : bool :=
  match e with Auplugin_init rc => negb (rc =? 0) | _ => false end.

(** A system for the samples: every path names a root-owned regular file
    with the given contents, the program is built without libcap-ng,
    [execve] succeeds, and the event feed hands over the one event
    [ev_b64]. *)
Definition toy_os (file : list byte) (pipe_rc fork_rc init_rc : Z) : os :=
  mk_os (fun _ => root_file file) None pipe_rc fork_rc false init_rc
    (fun callback s => callback ev_b64 s).

(** The command line [f BLOCKlist c /bin/cat -u]. *)
Definition argv_block : list (list byte) :=
  [[x66]; [x42; x4c; x4f; x43; x4b; x6c; x69; x73; x74]; [x63];
   [x2f; x62; x69; x6e; x2f; x63; x61; x74]; [x2d; x75]].

(** The state [main] starts in: the globals at their initial values. *)
Definition start0 : state :=
  mk_state 0 0 0 [] (-1) 1 0 [] [] (Open_failed ENOENT) 0 [].

(** ** Vocabulary of the further properties *)

(** The order of two rules by the lines they come from. *)
Definition lineno_lt (a b : filter_rule) : Prop := lineno a < lineno b.

(** A line that fits [buf] with its newline and the closing NUL. *)
Definition fits (l : list byte) : bool := (length l + 2 <=? BUF_SIZE)%nat.

(** [io_frame s s']: from [s] to [s'] only the pipe, the trace and the
    count of environment calls changed. *)
Definition io_frame (s s' : state) : Prop :=
  set_trace (trace s) (set_tick (tick s) (set_pipe (pipe s) s')) = s.

Section RuleVocabulary.
Context {E : Env}.

(** What a rule of a loaded list looks like: the engine accepts its
    expression, which is a piece of one line of text that fitted the
    buffer, is not empty and starts with neither a space nor a '#'. *)
Definition well_formed_rule (r : filter_rule) : bool :=
  (ausearch_add_expression (expr r) =? 0)
  && text_line (expr r)
  && (length (expr r) + 2 <=? BUF_SIZE)%nat
  && match expr r with
     | [] => false
     | c :: _ => negb (Byte.eqb c SP) && negb (Byte.eqb c HASH)
     end.

(** The lines of a file that give a rule, and those that are counted as
    errors. *)
Definition valid_line (l : list byte) : bool :=
  fits l && candidate l && (ausearch_add_expression (skip_spaces l) =? 0).

Definition invalid_line (l : list byte) : bool :=
  fits l && candidate l && negb (ausearch_add_expression (skip_spaces l) =? 0).

(** The rules of the lines [ls], the first of which is line [ln + 1]. *)
Fixpoint rules_of_lines (ln : Z) (ls : list (list byte)) : filter_list :=
  match ls with
  | [] => []
  | l :: ls' =>
      (if valid_line l then [mk_rule (skip_spaces l) (ln + 1)] else [])
      ++ rules_of_lines (ln + 1) ls'
  end.

Definition count_invalid (ls : list (list byte)) : nat :=
  length (filter invalid_line ls).

(** The engine accepts the expression of the rule. *)
Definition accepted (r : filter_rule) : bool :=
  ausearch_add_expression (expr r) =? 0.

(** The engine and the rule list agree: every rule of the list is one the
    engine accepts, and the expressions registered are none before the
    first registration and those of the list afterwards. *)
Definition engine_in_sync (s : state) : Prop :=
  forallb accepted (rule_list s) = true /\
  au_exprs s = if rules_loaded s =? 0 then [] else map expr (rule_list s).

End RuleVocabulary.

(** ** The rule list in memory

    [struct filter_list] as the linked list it is: blocks of a heap
    chained by their [next] pointers.  Reading or freeing an address that
    holds no block is undefined in C; the functions return [None]
    there. *)

Module Heap.

(** A pointer: [None] is NULL. *)
Definition ptr := option nat.

(** A block [malloc] or [strdup] returned: a [struct filter_rule], or the
    characters of an expression. *)
Inductive block :=
| Rule (expr : ptr) (lineno : Z) (next : ptr)
| Chars (s : list byte).

(** The heap: the block at each allocated address. *)
Definition heap := nat -> option block.

(** Writing a block at an address, or ([None]) releasing it. *)
Definition store (h : heap) (a : nat) (b : option block) : heap :=
  fun x => if Nat.eqb x a then b else h x.

(** [struct filter_list]. *)
Record filter_list := mk_list { head : ptr; tail : ptr }.

(** [reset_rules(list)]. *)
Definition reset_rules (list : filter_list) : filter_list := mk_list None None.

(** [free(p)]: nothing for NULL; undefined ([None]) for an address that
    is not allocated. *)
Definition free (h : heap) (p : ptr) : option heap :=
  match p with
  | None => Some h
  | Some a =>
      match h a with
      | Some _ => Some (store h a None)
      | None => None
      end
  end.

(** [free_rule(rule)] for a [rule] that is not NULL. *)
Definition free_rule (h : heap) (rule : nat) : option heap :=
  match h rule with
  | Some (Rule e _ _) => free h e
  | _ => None
  end.

(** The loop of [free_rules]; [fuel] bounds its turns, and [None] is also
    the answer when it runs out. *)
Fixpoint free_rules_from (fuel : nat) (h : heap) (current : ptr) : option heap :=
  match current with
  | None => Some h
  | Some to_delete =>
      match fuel with
      | O => None
      | S fuel' =>
          match h to_delete with
          | Some (Rule _ _ next) =>
              match free_rule h to_delete with
              | Some h1 =>
                  match free h1 (Some to_delete) with
                  | Some h2 => free_rules_from fuel' h2 next
                  | None => None
                  end
              | None => None
              end
          | _ => None
          end
      end
  end.

(** [free_rules(list)]. *)
Definition free_rules (fuel : nat) (h : heap) (list : filter_list) : option heap :=
  free_rules_from fuel h (head list).

(** [append_rule(list, rule)] for a [rule] that is not NULL. *)
Definition append_rule (h : heap) (list : filter_list) (rule : nat)
    : option (heap * filter_list) :=
  match head list with
  | None => Some (h, mk_list (Some rule) (Some rule))
  | Some _ =>
      match tail list with
      | None => None
      | Some t =>
          match h t with
          | Some (Rule e ln _) =>
              Some (store h t (Some (Rule e ln (Some rule))),
                    mk_list (head list) (Some rule))
          | _ => None
          end
      end
  end.

(** The expressions the loop [for (rule = list.head; rule; rule =
    rule->next)] of [handle_event] passes to the engine. *)
Fixpoint exprs_from (fuel : nat) (h : heap) (rule : ptr) : option (list (list byte)) :=
  match rule with
  | None => Some []
  | Some a =>
      match fuel with
      | O => None
      | S fuel' =>
          match h a with
          | Some (Rule (Some ea) _ next) =>
              match h ea with
              | Some (Chars e) => option_map (cons e) (exprs_from fuel' h next)
              | _ => None
              end
          | _ => None
          end
      end
  end.

(** The list in the heap: the cells, each with the address of its rule
    and of its expression, that the [next] pointers chain from [p]. *)
Fixpoint chain (h : heap) (p : ptr) (cells : list (nat * nat * filter_rule)%type) : Prop :=
  match cells with
  | [] => p = None
  | (a, ea, r) :: rest =>
      p = Some a /\
      exists nx, h a = Some (Rule (Some ea) (lineno r) nx) /\
                 h ea = Some (Chars (expr r)) /\ chain h nx rest
  end.

(** The addresses of the blocks of the cells. *)
Definition footprint (cells : list (nat * nat * filter_rule)%type) : list nat :=
  flat_map (fun c => [fst (fst c); snd (fst c)]) cells.

(** The address of the rule of the last cell. *)
Fixpoint last_rule (cells : list (nat * nat * filter_rule)%type) : ptr :=
  match cells with
  | [] => None
  | c :: rest =>
      match rest with
      | [] => Some (fst (fst c))
      | _ => last_rule rest
      end
  end.

(** The rules of the cells. *)
Definition rules (cells : list (nat * nat * filter_rule)%type) : list filter_rule :=
  map snd cells.

(** The list [l] holds the rules of [cells], in order: they are chained
    from [head], no two of their blocks share an address, and [tail]
    points to the last rule. *)
Definition holds (h : heap) (l : filter_list)
    (cells : list (nat * nat * filter_rule)%type) : Prop :=
  chain h (head l) cells /\ NoDup (footprint cells) /\
  (cells <> [] -> tail l = last_rule cells).

End Heap.

(** A heap that holds a list of one rule (blocks 0 and 1) and a rule that
    is in no list yet (blocks 2 and 3). *)
Definition rule_uid : filter_rule := mk_rule line_uid 2.

Definition heap_sample : Heap.heap :=
  fun a =>
    match a with
    | 0%nat => Some (Heap.Rule (Some 1%nat) 1 None)
    | 1%nat => Some (Heap.Chars line_b64)
    | 2%nat => Some (Heap.Rule (Some 3%nat) 2 None)
    | 3%nat => Some (Heap.Chars line_uid)
    | _ => None
    end.

Definition list_sample : Heap.filter_list := Heap.mk_list (Some 0%nat) (Some 0%nat).

Definition cells_sample : list (nat * nat * filter_rule) := [(0%nat, 1%nat, rule_b64)].

(** The command line [f --check /etc/rules]. *)
Definition argv_check : list (list byte) :=
  [[x66]; flag_check; [x2f; x65; x74; x63; x2f; x72; x75; x6c; x65; x73]].

(** ** Characters and integers *)

Lemma byte_eqb_eq (a b : byte) : Byte.eqb a b = true <-> a = b.
Proof.
  split; [apply byte_dec_bl | apply byte_dec_lb].
Qed.

Lemma byte_eqb_neq (a b : byte) : Byte.eqb a b = false <-> a <> b.
Proof.
  rewrite <- byte_eqb_eq. destruct (Byte.eqb a b); split; congruence.
Qed.

Lemma int_wrap_small (z : Z) :
  - 2147483648 <= z <= INT_MAX -> int_wrap z = z.
Proof.
  unfold int_wrap, INT_MAX. intros H.
  rewrite Z.mod_small by lia. lia.
Qed.

Lemma int_incr_small (z : Z) : 0 <= z < INT_MAX -> int_incr z = z + 1.
Proof.
  unfold int_incr, INT_MAX. intros H. apply int_wrap_small. unfold INT_MAX. lia.
Qed.

Lemma text_line_cons (b : byte) (l : list byte) :
  text_line (b :: l) = true <-> b <> NL /\ b <> NUL /\ text_line l = true.
Proof.
  unfold text_line. simpl. rewrite !andb_true_iff, !negb_true_iff, !byte_eqb_neq.
  tauto.
Qed.

Lemma text_line_firstn (n : nat) (l : list byte) :
  text_line l = true -> text_line (firstn n l) = true.
Proof.
  revert n. induction l as [|b l IH]; intros [|n] H; simpl; auto.
  apply text_line_cons in H. apply text_line_cons. firstorder.
Qed.

Lemma text_line_skipn (n : nat) (l : list byte) :
  text_line l = true -> text_line (skipn n l) = true.
Proof.
  revert n. induction l as [|b l IH]; intros [|n] H; simpl; auto.
  apply text_line_cons in H. apply IH. tauto.
Qed.

(** ** fgets, strchr and the buffer *)

Lemma fgets_read_line (n : nat) (l rest : list byte) :
  text_line l = true -> (length l < n)%nat ->
  fgets_read n (l ++ NL :: rest) = (l ++ [NL], rest).
Proof.
  revert n. induction l as [|b l IH]; intros n Hl Hn.
  - destruct n as [|n]; [simpl in Hn; lia|]. simpl. reflexivity.
  - destruct n as [|n]; [simpl in Hn; lia|].
    apply text_line_cons in Hl. destruct Hl as (Hnl & _ & Hl).
    simpl. apply byte_eqb_neq in Hnl. rewrite Hnl.
    rewrite IH by (simpl in Hn; auto; lia). reflexivity.
Qed.

Lemma fgets_read_fragment (n : nat) (l rest : list byte) :
  text_line l = true -> (n <= length l)%nat ->
  fgets_read n (l ++ rest) = (firstn n l, skipn n l ++ rest).
Proof.
  revert n. induction l as [|b l IH]; intros n Hl Hn.
  - destruct n as [|n]; [|simpl in Hn; lia]. simpl. reflexivity.
  - destruct n as [|n]; [reflexivity|].
    apply text_line_cons in Hl. destruct Hl as (Hnl & _ & Hl).
    simpl. apply byte_eqb_neq in Hnl. rewrite Hnl.
    rewrite IH by (simpl in Hn; auto; lia). reflexivity.
Qed.

Lemma fgets_read_eof (n : nat) (l : list byte) :
  text_line l = true -> (length l <= n)%nat ->
  fgets_read n l = (l, []).
Proof.
  revert n. induction l as [|b l IH]; intros n Hl Hn.
  - destruct n; reflexivity.
  - destruct n as [|n]; [simpl in Hn; lia|].
    apply text_line_cons in Hl. destruct Hl as (Hnl & _ & Hl).
    simpl. apply byte_eqb_neq in Hnl. rewrite Hnl.
    rewrite IH by (simpl in Hn; auto; lia). reflexivity.
Qed.

(** One call splits the stream: what it stores and what it leaves. *)
Lemma fgets_read_split (n : nat) (f : FILE) :
  fst (fgets_read n f) ++ snd (fgets_read n f) = f.
Proof.
  revert f. induction n as [|n IH]; intros [|b f]; simpl; auto.
  destruct (Byte.eqb b NL); simpl; auto.
  specialize (IH f). destruct (fgets_read n f). simpl in *. congruence.
Qed.

Lemma fgets_read_progress (n : nat) (b : byte) (f : FILE) :
  (length (snd (fgets_read (S n) (b :: f))) <= length f)%nat.
Proof.
  simpl. destruct (Byte.eqb b NL); simpl; [lia|].
  pose proof (fgets_read_split n f) as H.
  destruct (fgets_read n f) as [c r]. simpl in *.
  rewrite <- H, length_app. lia.
Qed.

Lemma fgets_unlocked_progress (size : nat) (f f' : FILE) (chunk : list byte) :
  (2 <= size)%nat -> fgets_unlocked size f = Some (chunk, f') ->
  (length f' < length f)%nat.
Proof.
  intros Hs H. destruct size as [|[|n]]; try lia.
  destruct f as [|b f]; [discriminate|].
  change (Some (fgets_read (S n) (b :: f)) = Some (chunk, f')) in H.
  pose proof (fgets_read_progress n b f) as P.
  injection H as H. simpl in P, H. rewrite H in P. simpl in *. lia.
Qed.

Lemma strchr_line (l r : list byte) :
  text_line l = true -> strchr (l ++ NL :: r) NL = Some (length l).
Proof.
  induction l as [|b l IH]; intros Hl; simpl.
  - reflexivity.
  - apply text_line_cons in Hl. destruct Hl as (Hnl & Hnul & Hl).
    apply byte_eqb_neq in Hnl, Hnul. rewrite Hnl, Hnul, IH by auto. reflexivity.
Qed.

(** A fragment without newline has none for [strchr] to find, whatever
    else it holds. *)
Lemma strchr_fragment (l : list byte) :
  forallb (fun b => negb (Byte.eqb b NL)) l = true ->
  strchr (l ++ [NUL]) NL = None.
Proof.
  induction l as [|b l IH]; intros Hl; simpl in *.
  - reflexivity.
  - apply andb_true_iff in Hl. destruct Hl as [Hb Hl].
    apply negb_true_iff in Hb. rewrite Hb, IH by auto.
    destruct (Byte.eqb b NUL); reflexivity.
Qed.

Lemma text_line_no_newline (l : list byte) :
  text_line l = true -> forallb (fun b => negb (Byte.eqb b NL)) l = true.
Proof.
  induction l as [|b l IH]; intros H; simpl; auto.
  apply text_line_cons in H. destruct H as (Hnl & _ & H).
  apply byte_eqb_neq in Hnl. rewrite Hnl. simpl. auto.
Qed.

(** Cutting the buffer at the newline leaves the line as a C string. *)
Lemma c_str_poke_line (l r : list byte) :
  text_line l = true -> c_str (poke (l ++ NL :: r) (length l) NUL) = l.
Proof.
  induction l as [|b l IH]; intros Hl; simpl.
  - reflexivity.
  - apply text_line_cons in Hl. destruct Hl as (_ & Hnul & Hl).
    apply byte_eqb_neq in Hnul. rewrite Hnul, IH by auto. reflexivity.
Qed.

(** ** get_line *)

Lemma fgets_unlocked_some (size : nat) (b : byte) (f : FILE) :
  (2 <= size)%nat ->
  fgets_unlocked size (b :: f) = Some (fgets_read (size - 1) (b :: f)).
Proof.
  intros H. destruct size as [|[|n]]; try lia.
  replace (S (S n) - 1)%nat with (S n) by lia. reflexivity.
Qed.

Lemma get_line_loop_S (fuel : nat) (f : FILE) (size : nat) (ln : Z)
    (tl : bool) (s : state) :
  get_line_loop (S fuel) f size ln tl s =
    match fgets_unlocked size f with
    | None => (None, f, ln, s)
    | Some (chunk, f') =>
        match strchr (chunk ++ [NUL]) NL with
        | Some ptr =>
            if tl then get_line_loop fuel f' size (int_incr ln) false s
            else (Some (c_str (poke (chunk ++ [NUL]) ptr NUL)), f', ln, s)
        | None =>
            get_line_loop fuel f' size ln true
              (if tl then s else syslog LOG_WARNING (Msg_too_long ln) s)
        end
    end.
Proof. reflexivity. Qed.

Lemma get_line_loop_eof (fuel size : nat) (ln : Z) (tl : bool) (s : state) :
  (2 <= size)%nat -> get_line_loop fuel [] size ln tl s = (None, [], ln, s).
Proof.
  intros H. destruct fuel; [reflexivity|].
  destruct size as [|[|n]]; try lia. reflexivity.
Qed.

(** Fuel beyond the length of the stream changes nothing: the loop never
    runs out of the fuel [get_line] gives it. *)
Lemma get_line_loop_fuel (size : nat) (Hsize : (2 <= size)%nat) :
  forall fuel1 fuel2 f ln tl s,
    (length f < fuel1)%nat -> (length f < fuel2)%nat ->
    get_line_loop fuel1 f size ln tl s = get_line_loop fuel2 f size ln tl s.
Proof.
  induction fuel1 as [|fuel1 IH]; intros fuel2 f ln tl s H1 H2; [lia|].
  destruct fuel2 as [|fuel2]; [lia|]. simpl.
  destruct (fgets_unlocked size f) as [[chunk f']|] eqn:F; [|reflexivity].
  apply fgets_unlocked_progress in F; [|assumption].
  destruct (strchr (chunk ++ [NUL]) NL); [destruct tl|]; auto; apply IH; lia.
Qed.

(** A returned line took at least one byte off the stream. *)
Lemma get_line_loop_progress (size : nat) (Hsize : (2 <= size)%nat) :
  forall fuel f ln tl s line f' ln' s',
    get_line_loop fuel f size ln tl s = (Some line, f', ln', s') ->
    (length f' < length f)%nat.
Proof.
  induction fuel as [|fuel IH]; intros f ln tl s line f' ln' s' H; [discriminate|].
  simpl in H.
  destruct (fgets_unlocked size f) as [[chunk f1]|] eqn:F; [|discriminate].
  apply fgets_unlocked_progress in F; [|assumption].
  destruct (strchr (chunk ++ [NUL]) NL); [destruct tl|].
  - apply IH in H. lia.
  - injection H as _ H _ _. subst. assumption.
  - apply IH in H. lia.
Qed.

(** NULL is returned at the end of the file only: the loop of
    [load_rules] stops when the whole file has been read. *)
Lemma get_line_loop_null_at_eof (size : nat) (Hsize : (2 <= size)%nat) :
  forall fuel f ln tl s f' ln' s',
    (length f < fuel)%nat ->
    get_line_loop fuel f size ln tl s = (None, f', ln', s') -> f' = [].
Proof.
  induction fuel as [|fuel IH]; intros f ln tl s f' ln' s' Hf H; [lia|].
  rewrite get_line_loop_S in H.
  destruct (fgets_unlocked size f) as [[chunk f1]|] eqn:F.
  - apply fgets_unlocked_progress in F; [|assumption].
    destruct (strchr (chunk ++ [NUL]) NL); [destruct tl|].
    + apply IH in H; [assumption|lia].
    + discriminate.
    + apply IH in H; [assumption|lia].
  - injection H as <- _ _. destruct f as [|b f]; [reflexivity|].
    rewrite fgets_unlocked_some in F by assumption. discriminate.
Qed.

(** A line that fits the buffer is returned as it is, without its
    newline; the counter and the state are left alone. *)
Lemma get_line_loop_short (size fuel : nat) (l rest : list byte) (ln : Z) (s : state) :
  text_line l = true -> (length l + 2 <= size)%nat ->
  get_line_loop (S fuel) (l ++ NL :: rest) size ln false s = (Some l, rest, ln, s).
Proof.
  intros Hl Hs. simpl get_line_loop.
  assert (Hf : fgets_unlocked size (l ++ NL :: rest)
               = Some (l ++ [NL], rest)).
  { destruct (l ++ NL :: rest) as [|b f] eqn:Hf.
    - destruct l; discriminate.
    - rewrite fgets_unlocked_some by lia. rewrite <- Hf.
      rewrite fgets_read_line by (auto; lia). reflexivity. }
  rewrite Hf. rewrite <- app_assoc. simpl app.
  rewrite strchr_line by assumption.
  rewrite c_str_poke_line by assumption. reflexivity.
Qed.

(** With [too_long] set, everything up to and including the next newline
    is dropped without a further warning. *)
Lemma get_line_loop_skip (size : nat) (Hsize : (2 <= size)%nat) :
  forall n l rest ln s fuel fuel',
    length l = n -> text_line l = true ->
    (length (l ++ NL :: rest) < fuel)%nat -> (length rest < fuel')%nat ->
    get_line_loop fuel (l ++ NL :: rest) size ln true s
    = get_line_loop fuel' rest size (int_incr ln) false s.
Proof.
  induction n as [n IH] using lt_wf_ind.
  intros l rest ln s fuel fuel' Hn Hl Hf Hf'.
  destruct fuel as [|fuel]; [lia|].
  destruct (Nat.lt_ge_cases (length l) (size - 1)) as [Hshort|Hlong].
  - simpl get_line_loop.
    assert (F : fgets_unlocked size (l ++ NL :: rest) = Some (l ++ [NL], rest)).
    { destruct (l ++ NL :: rest) as [|b f] eqn:E0.
      - destruct l; discriminate.
      - rewrite fgets_unlocked_some by lia. rewrite <- E0.
        rewrite fgets_read_line by (auto; lia). reflexivity. }
    rewrite F. rewrite <- app_assoc. simpl app.
    rewrite strchr_line by assumption.
    apply get_line_loop_fuel; auto.
    rewrite length_app in Hf. simpl in Hf. lia.
  - simpl get_line_loop.
    assert (F : fgets_unlocked size (l ++ NL :: rest)
                = Some (firstn (size - 1) l, skipn (size - 1) l ++ NL :: rest)).
    { destruct (l ++ NL :: rest) as [|b f] eqn:E0.
      - destruct l; discriminate.
      - rewrite fgets_unlocked_some by lia. rewrite <- E0.
        rewrite fgets_read_fragment by (auto; lia). reflexivity. }
    rewrite F.
    rewrite strchr_fragment
      by (apply text_line_no_newline, text_line_firstn; assumption).
    apply (IH (length (skipn (size - 1) l))).
    + rewrite length_skipn. lia.
    + reflexivity.
    + apply text_line_skipn; assumption.
    + rewrite length_app in *. simpl in *. rewrite length_skipn. lia.
    + assumption.
Qed.

(** A line too long for the buffer: one warning, the counter moves on by
    one, and reading resumes behind the line's newline. *)
Lemma get_line_loop_long (size : nat) (Hsize : (2 <= size)%nat) :
  forall l rest ln s fuel fuel',
    text_line l = true -> (size - 1 <= length l)%nat ->
    (length (l ++ NL :: rest) < fuel)%nat -> (length rest < fuel')%nat ->
    get_line_loop fuel (l ++ NL :: rest) size ln false s
    = get_line_loop fuel' rest size (int_incr ln) false
        (syslog LOG_WARNING (Msg_too_long ln) s).
Proof.
  intros l rest ln s fuel fuel' Hl Hlong Hf Hf'.
  destruct fuel as [|fuel]; [lia|]. simpl get_line_loop.
  assert (F : fgets_unlocked size (l ++ NL :: rest)
              = Some (firstn (size - 1) l, skipn (size - 1) l ++ NL :: rest)).
  { destruct (l ++ NL :: rest) as [|b f] eqn:E0.
    - destruct l; discriminate.
    - rewrite fgets_unlocked_some by lia. rewrite <- E0.
      rewrite fgets_read_fragment by (auto; lia). reflexivity. }
  rewrite F.
  rewrite strchr_fragment
    by (apply text_line_no_newline, text_line_firstn; assumption).
  apply (get_line_loop_skip size Hsize (length (skipn (size - 1) l))); auto.
  - apply text_line_skipn; assumption.
  - rewrite length_app in *. simpl in *. rewrite length_skipn. lia.
Qed.

Lemma get_line_short (l rest : list byte) (ln : Z) (s : state) :
  text_line l = true -> (length l + 2 <= BUF_SIZE)%nat ->
  get_line (l ++ NL :: rest) BUF_SIZE ln s = (Some l, rest, ln, s).
Proof. intros. apply get_line_loop_short; assumption. Qed.

Lemma BUF_SIZE_ge_2 : (2 <= BUF_SIZE)%nat.
Proof. unfold BUF_SIZE. lia. Qed.

Lemma get_line_long (l rest : list byte) (ln : Z) (s : state) :
  text_line l = true -> (BUF_SIZE - 1 <= length l)%nat ->
  get_line (l ++ NL :: rest) BUF_SIZE ln s
  = get_line rest BUF_SIZE (int_incr ln) (syslog LOG_WARNING (Msg_too_long ln) s).
Proof.
  intros. apply get_line_loop_long; auto using BUF_SIZE_ge_2.
Qed.

(** Text at the end of the file that no newline closes is dropped too,
    with a warning unless one was given already. *)
Lemma get_line_loop_unterminated (size : nat) (Hsize : (2 <= size)%nat) :
  forall n l ln s fuel,
    length l = n -> text_line l = true -> (length l < fuel)%nat ->
    get_line_loop fuel l size ln true s = (None, [], ln, s).
Proof.
  induction n as [n IH] using lt_wf_ind.
  intros l ln s fuel Hn Hl Hf.
  destruct l as [|b l']; [apply get_line_loop_eof; assumption|].
  destruct fuel as [|fuel]; [lia|]. simpl get_line_loop.
  rewrite fgets_unlocked_some by assumption.
  destruct (Nat.le_gt_cases (length (b :: l')) (size - 1)) as [Hshort|Hlong].
  - rewrite fgets_read_eof by assumption.
    rewrite strchr_fragment by (apply text_line_no_newline; assumption).
    apply get_line_loop_eof; assumption.
  - rewrite <- (app_nil_r (b :: l')) at 1.
    rewrite fgets_read_fragment by (auto; lia). rewrite app_nil_r.
    rewrite strchr_fragment
      by (apply text_line_no_newline, text_line_firstn; assumption).
    apply (IH (length (skipn (size - 1) (b :: l')))).
    + rewrite length_skipn. simpl length in *. lia.
    + reflexivity.
    + apply text_line_skipn; assumption.
    + rewrite length_skipn. simpl length in *. lia.
Qed.

Lemma get_line_unterminated (l : list byte) (ln : Z) (s : state) :
  text_line l = true -> l <> [] ->
  get_line l BUF_SIZE ln s
  = (None, [], ln, syslog LOG_WARNING (Msg_too_long ln) s).
Proof.
  intros Hl Hne. destruct l as [|b l']; [congruence|].
  unfold get_line. rewrite get_line_loop_S.
  rewrite fgets_unlocked_some by apply BUF_SIZE_ge_2.
  destruct (Nat.le_gt_cases (length (b :: l')) (BUF_SIZE - 1)) as [Hshort|Hlong].
  - rewrite fgets_read_eof by assumption.
    rewrite strchr_fragment by (apply text_line_no_newline; assumption).
    apply get_line_loop_eof, BUF_SIZE_ge_2.
  - rewrite <- (app_nil_r (b :: l')) at 1.
    rewrite fgets_read_fragment by (auto; lia). rewrite app_nil_r.
    rewrite strchr_fragment
      by (apply text_line_no_newline, text_line_firstn; assumption).
    apply (get_line_loop_unterminated BUF_SIZE BUF_SIZE_ge_2
             (length (skipn (BUF_SIZE - 1) (b :: l')))).
    + reflexivity.
    + apply text_line_skipn; assumption.
    + rewrite length_skipn. simpl length. pose proof BUF_SIZE_ge_2. lia.
Qed.

(** ** What the functions leave alone *)

Lemma frame_refl (s : state) : frame s s.
Proof. destruct s; reflexivity. Qed.

Lemma frame_trans (s1 s2 s3 : state) : frame s1 s2 -> frame s2 s3 -> frame s1 s3.
Proof.
  destruct s1, s2, s3. unfold frame, set_trace, set_tick, set_errors. simpl.
  intros H1 H2. injection H1 as <- <- <- <- <- <- <- <- <-.
  injection H2 as <- <- <- <- <- <- <- <- <-. reflexivity.
Qed.

Lemma frame_fields (s s' : state) :
  frame s s' ->
  stop s' = stop s /\ hup s' = hup s /\ rule_list s' = rule_list s /\
  cpid s' = cpid s /\ ppid s' = ppid s /\ rules_loaded s' = rules_loaded s /\
  au_exprs s' = au_exprs s /\ pipe s' = pipe s /\ conf_file s' = conf_file s.
Proof.
  destruct s, s'. unfold frame, set_trace, set_tick, set_errors. simpl.
  intros H. injection H as <- <- <- <- <- <- <- <- <-. repeat split.
Qed.

Lemma rejections_app (a b : list event) :
  rejections (a ++ b) = (rejections a + rejections b)%nat.
Proof. unfold rejections. rewrite filter_app, length_app. reflexivity. Qed.

Lemma rejections_none (tr : list event) :
  rejections tr = O <-> existsb is_rejection tr = false.
Proof.
  unfold rejections. induction tr as [|e tr IH]; simpl; [tauto|].
  destruct (is_rejection e); simpl; [split; discriminate | exact IH].
Qed.

Lemma events_since_app (s s' : state) (new : list event) :
  trace s' = trace s ++ new -> events_since s s' = new.
Proof.
  unfold events_since. intros ->. rewrite skipn_app, skipn_all, Nat.sub_diag.
  reflexivity.
Qed.

(** [get_line] only adds its warnings to the trace. *)
Lemma get_line_loop_state (fuel : nat) :
  forall f size ln tl s line f' ln' s',
    get_line_loop fuel f size ln tl s = (line, f', ln', s') ->
    exists new, s' = set_trace (trace s ++ new) s /\
      forallb (fun e => match e with
                        | Syslog _ (Msg_too_long _) => true
                        | _ => false
                        end) new = true.
Proof.
  induction fuel as [|fuel IH]; intros f size ln tl s line f' ln' s' H; simpl in H.
  - injection H as _ _ _ <-. exists []. rewrite app_nil_r. destruct s; auto.
  - destruct (fgets_unlocked size f) as [[chunk f1]|].
    2:{ injection H as _ _ _ <-. exists []. rewrite app_nil_r. destruct s; auto. }
    destruct (strchr (chunk ++ [NUL]) NL); [destruct tl|destruct tl].
    + eapply IH; eassumption.
    + injection H as _ _ _ <-. exists []. rewrite app_nil_r. destruct s; auto.
    + eapply IH; eassumption.
    + apply IH in H. destruct H as (new & -> & Hnew).
      exists (Syslog LOG_WARNING (Msg_too_long ln) :: new). split.
      * destruct s. unfold syslog, emit, set_trace. simpl.
        rewrite <- app_assoc. reflexivity.
      * simpl. assumption.
Qed.

Lemma get_line_loop_frame (fuel : nat) (f : FILE) (size : nat) (ln : Z)
    (tl : bool) (s : state) line f' ln' s' :
  get_line_loop fuel f size ln tl s = (line, f', ln', s') ->
  frame s s' /\ errors s' = errors s /\ tick s' = tick s /\
  exists new, trace s' = trace s ++ new /\ existsb is_write new = false /\
    rejections new = O.
Proof.
  intros H. apply get_line_loop_state in H. destruct H as (new & -> & Hnew).
  repeat split; try (destruct s; reflexivity).
  exists new. split; [destruct s; reflexivity|].
  clear - Hnew. induction new as [|e new IH]; simpl in *; [auto|].
  apply andb_true_iff in Hnew. destruct Hnew as [He Hnew].
  destruct (IH Hnew) as [IH1 IH2].
  destruct e; try discriminate. simpl. unfold rejections in *. simpl. auto.
Qed.

(** ** parse_line and the loop of load_rules *)

Section Loader.
Context {E : Env}.

(** What [parse_line] does to the state: it consults the environment,
    and at most one expression is refused, which is then counted. *)
Lemma parse_line_inv (line : list byte) (ln : Z) (s : state) r s' :
  parse_line line ln s = (r, s') ->
  frame s s' /\
  exists new, trace s' = trace s ++ new /\ existsb is_write new = false /\
    ((rejections new = O /\ errors s' = errors s) \/
     (rejections new = 1%nat /\ errors s' = int_incr (errors s) /\ r = None)).
Proof.
  unfold parse_line, auparse_init, malloc, strdup, alloc. intros H.
  destruct (alloc_ok (tick s)); simpl in H.
  2:{ injection H as <- <-. split; [destruct s; reflexivity|].
      exists [Syslog LOG_ERR Msg_auparse_init_failed]. destruct s; simpl; auto. }
  destruct (skip_spaces line) as [|c line'] eqn:Hsk.
  { injection H as <- <-. split; [destruct s; reflexivity|].
    exists []. rewrite app_nil_r. destruct s; simpl; auto. }
  destruct (Byte.eqb c HASH).
  { injection H as <- <-. split; [destruct s; reflexivity|].
    exists []. rewrite app_nil_r. destruct s; simpl; auto. }
  simpl in H. destruct (alloc_ok (S (tick s))); simpl in H.
  2:{ injection H as <- <-. split; [destruct s; reflexivity|].
      exists []. rewrite app_nil_r. destruct s; simpl; auto. }
  destruct (alloc_ok (S (S (tick s)))); simpl in H.
  2:{ injection H as <- <-. split; [destruct s; reflexivity|].
      exists []. rewrite app_nil_r. destruct s; simpl; auto. }
  destruct (ausearch_add_expression (c :: line') =? 0) eqn:Hrc; simpl in H.
  - injection H as <- <-. split; [destruct s; reflexivity|].
    exists [Ausearch_add (c :: line') (ausearch_add_expression (c :: line'))].
    unfold rejections. destruct s; simpl. rewrite Hrc. simpl. auto.
  - injection H as <- <-. split; [destruct s; reflexivity|].
    exists [Ausearch_add (c :: line') (ausearch_add_expression (c :: line'));
            Syslog LOG_ERR (Msg_invalid_expression (c :: line'))].
    unfold rejections. destruct s; simpl. rewrite Hrc. simpl.
    rewrite <- app_assoc. repeat split. right. repeat split.
Qed.

(** The line the engine refuses: no rule, one more error, a syslog line. *)
Lemma parse_line_rejected (line : list byte) (ln : Z) (s : state) :
  alloc_ok (tick s) = true -> alloc_ok (S (tick s)) = true ->
  alloc_ok (S (S (tick s))) = true ->
  candidate line = true ->
  ausearch_add_expression (skip_spaces line) <> 0 ->
  parse_line line ln s =
    (None,
     set_errors (int_incr (errors s))
       (syslog LOG_ERR (Msg_invalid_expression (skip_spaces line))
          (emit (Ausearch_add (skip_spaces line)
                   (ausearch_add_expression (skip_spaces line)))
             (set_tick (3 + tick s) s)))).
Proof.
  unfold parse_line, auparse_init, malloc, strdup, alloc, candidate. intros A1 A2 A3 Hc Hrc.
  rewrite A1. simpl. destruct (skip_spaces line) as [|c line']; [discriminate|].
  apply negb_true_iff in Hc. rewrite Hc. simpl. rewrite A2. simpl.
  rewrite A3. simpl.
  apply Z.eqb_neq in Hrc. rewrite Hrc. simpl. destruct s; reflexivity.
Qed.

(** The line the engine accepts becomes a rule. *)
Lemma parse_line_accepted (line : list byte) (ln : Z) (s : state) :
  alloc_ok (tick s) = true -> alloc_ok (S (tick s)) = true ->
  alloc_ok (S (S (tick s))) = true ->
  candidate line = true ->
  ausearch_add_expression (skip_spaces line) = 0 ->
  parse_line line ln s =
    (Some (mk_rule (skip_spaces line) ln),
     emit (Ausearch_add (skip_spaces line) 0) (set_tick (3 + tick s) s)).
Proof.
  unfold parse_line, auparse_init, malloc, strdup, alloc, candidate. intros A1 A2 A3 Hc Hrc.
  rewrite A1. simpl. destruct (skip_spaces line) as [|c line']; [discriminate|].
  apply negb_true_iff in Hc. rewrite Hc. simpl. rewrite A2. simpl.
  rewrite A3. simpl. rewrite Hrc. simpl. destruct s; reflexivity.
Qed.

(** No memory for the rule or for its text: NULL, and nothing else. *)
Lemma parse_line_no_memory (line : list byte) (ln : Z) (s : state) :
  alloc_ok (tick s) = true -> candidate line = true ->
  alloc_ok (S (tick s)) = false \/ alloc_ok (S (S (tick s))) = false ->
  parse_line line ln s =
    (None, set_tick ((if alloc_ok (S (tick s)) then 3 else 2) + tick s) s).
Proof.
  unfold parse_line, auparse_init, malloc, strdup, alloc, candidate. intros A1 Hc A.
  rewrite A1. simpl. destruct (skip_spaces line) as [|c line']; [discriminate|].
  apply negb_true_iff in Hc. rewrite Hc. simpl.
  destruct (alloc_ok (S (tick s))); simpl.
  - destruct A as [A|A]; [discriminate|]. rewrite A. simpl.
    destruct s; reflexivity.
  - destruct s; reflexivity.
Qed.

(** One turn of the loop of [load_rules]. *)
Lemma read_rules_S (fuel : nat) (f : FILE) (ln : Z) (l : filter_list) (s : state) :
  read_rules (S fuel) f ln l s =
    match get_line f BUF_SIZE ln s with
    | (None, _, _, s) => (l, s)
    | (Some buf, f, ln, s) =>
        let ln := int_incr ln in
        match parse_line buf ln s with
        | (None, s) => read_rules fuel f ln l s
        | (Some rule, s) => read_rules fuel f ln (append_rule l rule) s
        end
    end.
Proof. reflexivity. Qed.

(** The loop never runs out of the fuel [read_file] gives it. *)
Lemma read_rules_fuel :
  forall fuel1 fuel2 f ln l s,
    (length f < fuel1)%nat -> (length f < fuel2)%nat ->
    read_rules fuel1 f ln l s = read_rules fuel2 f ln l s.
Proof.
  induction fuel1 as [|fuel1 IH]; intros fuel2 f ln l s H1 H2; [lia|].
  destruct fuel2 as [|fuel2]; [lia|]. rewrite !read_rules_S.
  destruct (get_line f BUF_SIZE ln s) as [[[line f'] ln'] s'] eqn:G.
  destruct line as [line|]; [|reflexivity].
  apply get_line_loop_progress in G; [|apply BUF_SIZE_ge_2].
  cbv zeta. destruct (parse_line line (int_incr ln') s') as [[r|] s''];
    apply IH; lia.
Qed.

(** After a line that fits the buffer the loop goes on with the rest of
    the file, whatever [parse_line] made of the line. *)
Lemma read_file_short (l rest : list byte) (ln : Z) (L : filter_list) (s : state) :
  text_line l = true -> (length l + 2 <= BUF_SIZE)%nat ->
  read_file (l ++ NL :: rest) ln L s =
    match parse_line l (int_incr ln) s with
    | (None, s') => read_file rest (int_incr ln) L s'
    | (Some rule, s') => read_file rest (int_incr ln) (append_rule L rule) s'
    end.
Proof.
  intros Hl Hs. unfold read_file. rewrite read_rules_S.
  rewrite get_line_short by assumption. cbv zeta.
  destruct (parse_line l (int_incr ln) s) as [[r|] s'];
    apply read_rules_fuel; rewrite ?length_app; simpl; lia.
Qed.

(** After a line too long for the buffer the loop goes on with the rest
    of the file, one warning later. *)
Lemma read_file_long (l rest : list byte) (ln : Z) (L : filter_list) (s : state) :
  text_line l = true -> (BUF_SIZE - 1 <= length l)%nat ->
  read_file (l ++ NL :: rest) ln L s =
    read_file rest (int_incr ln) L (syslog LOG_WARNING (Msg_too_long ln) s).
Proof.
  intros Hl Hs. unfold read_file. rewrite !read_rules_S.
  rewrite get_line_long by assumption.
  destruct (get_line rest BUF_SIZE (int_incr ln)
              (syslog LOG_WARNING (Msg_too_long ln) s))
    as [[[line f'] ln'] s'] eqn:G.
  destruct line as [line|]; [|reflexivity].
  apply get_line_loop_progress in G; [|apply BUF_SIZE_ge_2].
  cbv zeta. destruct (parse_line line (int_incr ln') s') as [[r|] s''];
    apply read_rules_fuel; rewrite ?length_app; simpl; lia.
Qed.

(** The state the loop is in after complete lines of text does not
    depend on what follows them in the file. *)
Lemma read_file_lines (ls : list (list byte)) :
  forallb text_line ls = true ->
  forall ln L s, exists ln1 L1 s1,
    forall rest, read_file (unlines ls ++ rest) ln L s = read_file rest ln1 L1 s1.
Proof.
  induction ls as [|l ls IH]; intros Hls ln L s.
  - exists ln, L, s. reflexivity.
  - simpl in Hls. apply andb_true_iff in Hls. destruct Hls as [Hl Hls].
    specialize (IH Hls).
    assert (Hcat : forall rest,
               unlines (l :: ls) ++ rest = l ++ NL :: (unlines ls ++ rest)).
    { intros rest. unfold unlines. simpl. rewrite <- !app_assoc. reflexivity. }
    destruct (Nat.lt_ge_cases (length l) (BUF_SIZE - 1)) as [Hshort|Hlong].
    + destruct (parse_line l (int_incr ln) s) as [[r|] s'] eqn:P.
      * destruct (IH (int_incr ln) (append_rule L r) s') as (ln1 & L1 & s1 & H).
        exists ln1, L1, s1. intros rest.
        rewrite Hcat, read_file_short, P by (auto; lia). apply H.
      * destruct (IH (int_incr ln) L s') as (ln1 & L1 & s1 & H).
        exists ln1, L1, s1. intros rest.
        rewrite Hcat, read_file_short, P by (auto; lia). apply H.
    + destruct (IH (int_incr ln) L (syslog LOG_WARNING (Msg_too_long ln) s))
        as (ln1 & L1 & s1 & H).
      exists ln1, L1, s1. intros rest.
      rewrite Hcat, read_file_long by auto. apply H.
Qed.

(** Text that no newline closes, at the end of the file: the loop ends
    there, one warning later. *)
Lemma read_file_unterminated (l : list byte) (ln : Z) (L : filter_list) (s : state) :
  text_line l = true -> l <> [] ->
  read_file l ln L s = (L, syslog LOG_WARNING (Msg_too_long ln) s).
Proof.
  intros Hl Hne. unfold read_file. rewrite read_rules_S.
  rewrite get_line_unterminated by assumption. reflexivity.
Qed.

(** The loop adds no write to the trace, and as long as the counter
    cannot overflow, [errors] grows by the number of refused expressions,
    of which there are no more than bytes in the stream. *)
Lemma read_rules_inv :
  forall fuel f ln l s l' s',
    read_rules fuel f ln l s = (l', s') ->
    frame s s' /\
    exists new, trace s' = trace s ++ new /\ existsb is_write new = false /\
      (0 <= errors s -> errors s + Z.of_nat (length f) <= INT_MAX ->
       errors s' = errors s + Z.of_nat (rejections new) /\
       (rejections new <= length f)%nat).
Proof.
  induction fuel as [|fuel IH]; intros f ln l s l' s' H.
  - injection H as <- <-. split; [apply frame_refl|].
    exists []. rewrite app_nil_r. unfold rejections. simpl.
    repeat split; auto; lia.
  - rewrite read_rules_S in H.
    destruct (get_line f BUF_SIZE ln s) as [[[line f1] ln1] s1] eqn:G.
    pose proof (get_line_loop_frame _ _ _ _ _ _ _ _ _ _ G)
      as (F1 & E1 & _ & new1 & T1 & W1 & R1).
    destruct line as [line|].
    2:{ injection H as <- <-. split; [assumption|].
        exists new1. repeat split; auto; lia. }
    apply get_line_loop_progress in G; [|apply BUF_SIZE_ge_2].
    cbv zeta in H.
    destruct (parse_line line (int_incr ln1) s1) as [r s2] eqn:P.
    pose proof (parse_line_inv _ _ _ _ _ P) as (F2 & new2 & T2 & W2 & R2).
    assert (H' : exists l2, read_rules fuel f1 (int_incr ln1) l2 s2 = (l', s')).
    { destruct r; eauto. }
    destruct H' as (l2 & H').
    apply IH in H'. destruct H' as (F3 & new3 & T3 & W3 & R3).
    split; [eauto using frame_trans|].
    exists (new1 ++ new2 ++ new3). split; [|split].
    + rewrite T3, T2, T1, <- !app_assoc. reflexivity.
    + rewrite !existsb_app, W1, W2, W3. reflexivity.
    + intros H0 Hmax. rewrite !rejections_app, R1.
      destruct R2 as [[R2 E2]|(R2 & E2 & _)].
      * destruct R3 as [R3 R3']; [lia|lia|]. rewrite R2. split; lia.
      * rewrite int_incr_small in E2 by lia.
        destruct R3 as [R3 R3']; [lia|lia|]. rewrite R2. split; lia.
Qed.

(** What a load does to the state, and what its return value says. *)
Lemma load_rules_inv (s : state) rc l s' :
  load_rules s = (rc, l, s') ->
  frame s s' /\
  exists new, trace s' = trace s ++ new /\ existsb is_write new = false /\
    (Z.of_nat (file_size (conf_file s)) <= INT_MAX ->
     rc = 0 -> rejections new = O) /\
    (rc <> 0 <->
     errors s' <> 0 \/ gate_failed (conf_file s) = true \/
     alloc_ok (tick s) = false).
Proof.
  unfold load_rules, gate_failed, file_size, fdopen, alloc. intros H.
  assert (Hconf : conf_file (set_errors 0 s) = conf_file s) by (destruct s; reflexivity).
  assert (Htick : tick (set_errors 0 s) = tick s) by (destruct s; reflexivity).
  rewrite Hconf, Htick in H.
  assert (Quick : forall m,
    (rc, l, s') = (1, reset_rules, syslog LOG_ERR m (set_errors 0 s)) ->
    frame s s' /\
    exists new, trace s' = trace s ++ new /\ existsb is_write new = false /\
      rejections new = O /\ rc = 1 /\ errors s' = 0).
  { intros m Hm. injection Hm as -> -> ->. split; [destruct s; reflexivity|].
    exists [Syslog LOG_ERR m]. destruct s; simpl. auto. }
  destruct (conf_file s) as [errno|[st|] contents].
  - assert (Hm : exists m, (rc, l, s') = (1, reset_rules, syslog LOG_ERR m (set_errors 0 s))).
    { destruct (negb (errno =? ENOENT)); eauto. }
    destruct Hm as (m & Hm). apply Quick in Hm.
    destruct Hm as (F & new & T & W & R & -> & Er).
    split; [assumption|]. exists new. repeat split; auto; try lia.
  - destruct (negb (st_uid st =? 0)) eqn:Huid.
    { symmetry in H. apply Quick in H.
      destruct H as (F & new & T & W & R & -> & Er).
      split; [assumption|]. exists new. repeat split; auto; try lia. }
    destruct (Z.land (st_mode st) S_IWOTH =? S_IWOTH) eqn:Hww.
    { symmetry in H. apply Quick in H.
      destruct H as (F & new & T & W & R & -> & Er).
      split; [assumption|]. exists new. repeat split; auto; try lia. }
    destruct (negb (S_ISREG (st_mode st))) eqn:Hreg.
    { symmetry in H. apply Quick in H.
      destruct H as (F & new & T & W & R & -> & Er).
      split; [assumption|]. exists new. repeat split; auto; try lia. }
    simpl orb. destruct (alloc_ok (tick s)) eqn:A; simpl negb in H; cbv iota in H.
    2:{ injection H as <- <- <-. split; [destruct s; reflexivity|].
        exists [Syslog LOG_ERR Msg_fdopen_failed]. destruct s; simpl.
        repeat split; auto; try lia. }
    destruct (read_file contents 0 reset_rules
                (set_tick (S (tick s)) (set_errors 0 s)))
      as [l1 s1] eqn:R.
    injection H as <- <- <-.
    unfold read_file in R. apply read_rules_inv in R.
    destruct R as (F & new & T & W & R).
    split.
    { eapply frame_trans; [|exact F]. destruct s; reflexivity. }
    exists new. split; [rewrite T; destruct s; reflexivity|].
    split; [assumption|]. split.
    + intros Hsz Hrc.
      destruct R as [R R'];
        [destruct s; simpl; lia | destruct s; simpl in *; lia|].
      assert (errors (set_tick (S (tick s)) (set_errors 0 s)) = 0)
        as E0 by (destruct s; reflexivity).
      rewrite E0 in R. lia.
    + split; [intros; left; assumption|].
      intros [Hn|[Hn|Hn]]; [assumption|discriminate|discriminate].
  - symmetry in H. apply Quick in H.
    destruct H as (F & new & T & W & R & -> & Er).
    split; [assumption|]. exists new. repeat split; auto; try lia.
Qed.

End Loader.

(** ** Reloading and registering the rules *)

Section Classifier.
Context {E : Env}.

Lemma silent_refl (s : state) : silent s s.
Proof.
  repeat split. exists []. rewrite app_nil_r. auto.
Qed.

Lemma silent_trans (s1 s2 s3 : state) : silent s1 s2 -> silent s2 s3 -> silent s1 s3.
Proof.
  intros (P1 & S1 & n1 & T1 & W1) (P2 & S2 & n2 & T2 & W2).
  repeat split; try congruence.
  exists (n1 ++ n2). rewrite T2, T1, <- app_assoc, existsb_app, W1, W2. auto.
Qed.

Lemma silent_emit (e : event) (s : state) : is_write e = false -> silent s (emit e s).
Proof.
  intros He. repeat split; try (destruct s; reflexivity).
  exists [e]. simpl. rewrite He. destruct s; auto.
Qed.

Lemma silent_frame (s s' : state) (new : list event) :
  frame s s' -> trace s' = trace s ++ new -> existsb is_write new = false ->
  silent s s'.
Proof.
  intros F T W. apply frame_fields in F.
  repeat split; try tauto. exists new. auto.
Qed.

Lemma reload_config_silent (s : state) : silent s (reload_config s).
Proof.
  unfold reload_config.
  destruct (load_rules (store_hup 0 s)) as [[rc l] s1] eqn:L.
  apply load_rules_inv in L. destruct L as (F & new & T & W & _).
  assert (S1 : silent s s1).
  { apply silent_trans with (store_hup 0 s).
    - repeat split; try (destruct s; reflexivity).
      exists [Store_hup 0]. destruct s; auto.
    - eapply silent_frame; eassumption. }
  destruct (negb (rc =? 0)).
  - eapply silent_trans; [exact S1|]. apply silent_emit. reflexivity.
  - eapply silent_trans; [exact S1|].
    repeat split; try (destruct s1; reflexivity).
    exists [Syslog LOG_INFO Msg_reloaded]. destruct s1; auto.
Qed.

Lemma add_rules_silent (l : filter_list) : forall s, silent s (add_rules l s).
Proof.
  induction l as [|r l IH]; intros s; simpl.
  - apply silent_refl.
  - eapply silent_trans; [|apply IH].
    set (s1 := emit (Ausearch_add (expr r) (ausearch_add_expression (expr r))) s).
    apply silent_trans with s1; [apply silent_emit; reflexivity|].
    destruct (negb (ausearch_add_expression (expr r) =? 0)).
    + apply silent_emit. reflexivity.
    + repeat split. exists []. rewrite app_nil_r. auto.
Qed.

Lemma register_rules_silent (s : state) : silent s (register_rules s).
Proof.
  unfold register_rules.
  destruct ((rules_loaded s =? 0) || negb (hup s =? 0)); [|apply silent_refl].
  assert (S1 : silent s (if negb (hup s =? 0)
                         then emit Ausearch_clear
                                (set_au_exprs [] (store_hup 0 (reload_config s)))
                         else s)).
  { destruct (negb (hup s =? 0)); [|apply silent_refl].
    eapply silent_trans; [apply reload_config_silent|].
    set (s1 := reload_config s).
    repeat split; try (destruct s1; reflexivity).
    exists [Store_hup 0; Ausearch_clear]. destruct s1; simpl.
    rewrite <- app_assoc. auto. }
  eapply silent_trans; [exact S1|].
  eapply silent_trans; [apply add_rules_silent|].
  repeat split. exists []. rewrite app_nil_r. auto.
Qed.

(** ** Writing the records of an event *)

Lemma writes_ok_S (from n : nat) :
  writes_ok from (S n) = write_ok from && writes_ok (S from) n.
Proof. reflexivity. Qed.

Lemma wrote_nil (s : state) : wrote [] s = s.
Proof.
  unfold wrote, record_writes, record_lines. simpl.
  rewrite !app_nil_r, Nat.add_0_r. destruct s; reflexivity.
Qed.

Lemma wrote_fields (recs : list (list byte)) (s : state) :
  tick (wrote recs s) = (tick s + 2 * length recs)%nat /\
  pipe (wrote recs s) = pipe s ++ record_lines recs /\
  trace (wrote recs s) = trace s ++ record_writes recs /\
  stop (wrote recs s) = stop s.
Proof. destruct s; repeat split. Qed.

(** While the pipe takes them, the records go out one after the other,
    each followed by its newline. *)
Lemma write_records_app (done : list (list byte)) :
  forall more s,
    writes_ok (tick s) (2 * length done) = true ->
    write_records (done ++ more) s = write_records more (wrote done s).
Proof.
  induction done as [|r done IH]; intros more s Hok.
  - rewrite wrote_nil. reflexivity.
  - replace (2 * length (r :: done))%nat with (S (S (2 * length done))) in Hok
      by (simpl; lia).
    rewrite !writes_ok_S in Hok.
    apply andb_true_iff in Hok. destruct Hok as [H1 Hok].
    apply andb_true_iff in Hok. destruct Hok as [H2 Hok].
    simpl app. simpl write_records. unfold write.
    rewrite H1. simpl negb. cbv iota.
    replace (tick (emit (Write r true)
               (set_pipe (pipe (set_tick (S (tick s)) s) ++ r)
                  (set_tick (S (tick s)) s)))) with (S (tick s))
      by (destruct s; reflexivity).
    rewrite H2. simpl negb. cbv iota.
    rewrite IH.
    + f_equal. unfold wrote, record_writes, record_lines. destruct s. simpl.
      rewrite <- !app_assoc. simpl.
      replace (S (S (tick0 + (length done + (length done + 0)))))
        with (tick0 + S (length done + S (length done + 0)))%nat by lia.
      reflexivity.
    + destruct s; simpl in *. assumption.
Qed.

Lemma write_records_ok (recs : list (list byte)) (s : state) :
  writes_ok (tick s) (2 * length recs) = true ->
  write_records recs s = wrote recs s.
Proof.
  intros H. rewrite <- (app_nil_r recs) at 1.
  rewrite write_records_app by assumption. reflexivity.
Qed.

(** Whatever the pipe does, the loop only adds to the trace, and with a
    record to send its first step is a write. *)
Lemma write_records_trace (recs : list (list byte)) :
  forall s, exists new, trace (write_records recs s) = trace s ++ new /\
    (recs <> [] -> existsb is_write new = true).
Proof.
  induction recs as [|r recs IH]; intros s.
  - exists []. rewrite app_nil_r. split; [reflexivity|congruence].
  - simpl write_records. unfold write.
    destruct (write_ok (tick s)); simpl negb; cbv iota.
    2:{ exists [Write r false; Syslog LOG_ERR Msg_write_failed].
        destruct s; simpl. rewrite <- app_assoc. auto. }
    match goal with |- context [write_ok ?t] => destruct (write_ok t) end;
      simpl negb; cbv iota.
    2:{ exists [Write r true; Write [NL] false; Syslog LOG_ERR Msg_write_failed].
        destruct s; simpl. rewrite <- !app_assoc. auto. }
    match goal with |- context [write_records recs ?t] =>
      destruct (IH t) as (new & T & _); rewrite T end.
    exists ([Write r true; Write [NL] true] ++ new).
    destruct s; simpl. rewrite <- !app_assoc. auto.
Qed.

Lemma write_records_sent (recs : list (list byte)) (s : state) :
  writes_ok (tick s) (2 * length recs) = true ->
  pipe (write_records recs s) = pipe s ++ record_lines recs /\
  trace (write_records recs s) = trace s ++ record_writes recs /\
  stop (write_records recs s) = stop s.
Proof.
  intros H. rewrite write_records_ok by assumption. destruct s; repeat split.
Qed.

(** The write of a record's text fails: the record and those behind it
    are not sent. *)
Lemma write_records_text_fails (done : list (list byte)) (r : list byte)
    (rest : list (list byte)) (s : state) :
  writes_ok (tick s) (2 * length done) = true ->
  write_ok (tick s + 2 * length done) = false ->
  pipe (write_records (done ++ r :: rest) s) = pipe s ++ record_lines done /\
  trace (write_records (done ++ r :: rest) s)
    = trace s ++ record_writes done
        ++ [Write r false; Syslog LOG_ERR Msg_write_failed] /\
  stop (write_records (done ++ r :: rest) s) = stop s.
Proof.
  intros Hok Hfail. rewrite write_records_app by assumption.
  destruct (wrote_fields done s) as (Ht & Hp & Htr & Hst).
  simpl write_records. unfold write. rewrite Ht, Hfail. simpl negb. cbv iota.
  generalize dependent (wrote done s). intros w Ht Hp Htr Hst.
  destruct w; simpl in *. subst. rewrite <- !app_assoc.
  repeat split.
Qed.

(** The write of the newline fails: the text of that record is in the
    pipe, the records behind it are not sent. *)
Lemma write_records_newline_fails (done : list (list byte)) (r : list byte)
    (rest : list (list byte)) (s : state) :
  writes_ok (tick s) (2 * length done) = true ->
  write_ok (tick s + 2 * length done) = true ->
  write_ok (S (tick s + 2 * length done)) = false ->
  pipe (write_records (done ++ r :: rest) s) = pipe s ++ record_lines done ++ r /\
  trace (write_records (done ++ r :: rest) s)
    = trace s ++ record_writes done
        ++ [Write r true; Write [NL] false; Syslog LOG_ERR Msg_write_failed] /\
  stop (write_records (done ++ r :: rest) s) = stop s.
Proof.
  intros Hok Hr Hfail. rewrite write_records_app by assumption.
  destruct (wrote_fields done s) as (Ht & Hp & Htr & Hst).
  simpl write_records. unfold write. rewrite Ht, Hr. simpl negb. cbv iota.
  match goal with |- context [write_ok (tick ?t)] =>
    replace (tick t) with (S (tick s + 2 * length done))
      by (rewrite <- Ht; destruct (wrote done s); reflexivity)
  end.
  rewrite Hfail. simpl negb. cbv iota.
  generalize dependent (wrote done s). intros w Ht Hp Htr Hst.
  destruct w; simpl in *. subst. rewrite <- !app_assoc.
  repeat split.
Qed.

(** ** handle_event *)

(** The three ways through [handle_event], by the value [forward_event]
    gets. *)
Lemma handle_event_cases (config : filter_conf) (ev : audit_event) (s : state) :
  let s1 := register_rules s in
  let rc := ausearch_cur_event (au_exprs s1) ev in
  let s' := handle_event config ev s in
  match forward_event (mode config) rc with
  | None =>
      s' = syslog LOG_ERR (Msg_cur_event rc) s1 /\
      forwarded s s' = false /\ pipe s' = pipe s
  | Some fwd =>
      if fwd =? 0
      then s' = s1 /\ forwarded s s' = false /\ pipe s' = pipe s
      else s' = write_records (ev_records ev) s1 /\
           (ev_records ev <> [] -> forwarded s s' = true)
  end.
Proof.
  intros s1 rc s'. unfold s', handle_event. fold s1. fold rc.
  destruct (register_rules_silent s) as (P1 & _ & new1 & T1 & W1).
  fold s1 in P1, T1.
  destruct (forward_event (mode config) rc) as [fwd|].
  - destruct (fwd =? 0); simpl negb; cbv iota.
    + repeat split; auto. unfold forwarded.
      rewrite (events_since_app _ _ _ T1). assumption.
    + split; [reflexivity|]. intros Hne.
      destruct (write_records_trace (ev_records ev) s1) as (new2 & T2 & W2).
      unfold forwarded. rewrite T1, <- app_assoc in T2.
      rewrite (events_since_app _ _ _ T2), existsb_app, W2 by assumption.
      apply orb_true_r.
  - repeat split.
    + unfold forwarded.
      assert (T : trace (syslog LOG_ERR (Msg_cur_event rc) s1)
                  = trace s ++ new1 ++ [Syslog LOG_ERR (Msg_cur_event rc)]).
      { rewrite app_assoc, <- T1. destruct s1; reflexivity. }
      rewrite (events_since_app _ _ _ T), existsb_app, W1. reflexivity.
    + rewrite <- P1. destruct s1; reflexivity.
Qed.

End Classifier.

(** * The properties *)

Section Properties.
Context {E : Env}.

(** C4. When an event is forwarded and the pipe takes every write, the
    pipe receives the records in order, each followed by one newline, and
    nothing else.  When a write fails, the records behind it are not
    written (if it is the newline that fails, the text of that record is
    already in the pipe), the failure is logged once, and the call returns
    with the [stop] flag as it was. *)
Theorem forwarded_records_reach_pipe_in_order (config : filter_conf)
    (ev : audit_event) (s : state) :
  let s1 := register_rules s in
  let rc := ausearch_cur_event (au_exprs s1) ev in
  let s' := handle_event config ev s in
  forward_event (mode config) rc = Some 1 ->
  (writes_ok (tick s1) (2 * length (ev_records ev)) = true ->
   pipe s' = pipe s ++ record_lines (ev_records ev) /\
   events_since s1 s' = record_writes (ev_records ev) /\
   stop s' = stop s) /\
  (forall done r rest,
     ev_records ev = done ++ r :: rest ->
     writes_ok (tick s1) (2 * length done) = true ->
     write_ok (tick s1 + 2 * length done) = false ->
     pipe s' = pipe s ++ record_lines done /\
     events_since s1 s'
       = record_writes done ++ [Write r false; Syslog LOG_ERR Msg_write_failed] /\
     stop s' = stop s) /\
  (forall done r rest,
     ev_records ev = done ++ r :: rest ->
     writes_ok (tick s1) (2 * length done) = true ->
     write_ok (tick s1 + 2 * length done) = true ->
     write_ok (S (tick s1 + 2 * length done)) = false ->
     pipe s' = pipe s ++ record_lines done ++ r /\
     events_since s1 s'
       = record_writes done
           ++ [Write r true; Write [NL] false; Syslog LOG_ERR Msg_write_failed] /\
     stop s' = stop s).
Proof.
  intros s1 rc s' Hfwd.
  pose proof (handle_event_cases config ev s) as H. cbv zeta in H.
  change (register_rules s) with s1 in H.
  change (ausearch_cur_event (au_exprs s1) ev) with rc in H.
  change (handle_event config ev s) with s' in H.
  rewrite Hfwd in H. simpl in H. destruct H as [Hs' _].
  destruct (register_rules_silent s) as (P1 & S1 & _). fold s1 in P1, S1.
  rewrite Hs'. split; [|split].
  - intros Hok.
    destruct (write_records_sent (ev_records ev) s1 Hok) as (Hp & Ht & Hst).
    rewrite Hp, Hst, P1, S1. repeat split. apply events_since_app. assumption.
  - intros done r rest Hrec Hok Hfail. rewrite Hrec.
    destruct (write_records_text_fails done r rest s1 Hok Hfail) as (Hp & Ht & Hst).
    rewrite Hp, Hst, P1, S1. repeat split. apply events_since_app. assumption.
  - intros done r rest Hrec Hok Hr Hfail. rewrite Hrec.
    destruct (write_records_newline_fails done r rest s1 Hok Hr Hfail)
      as (Hp & Ht & Hst).
    rewrite Hp, Hst, P1, S1. repeat split. apply events_since_app. assumption.
Qed.

(** C8. A termination signal whose sender is not the parent changes
    nothing: the handler returns the state it was given, so [stop] is not
    set and no signal is sent.  A termination signal from the parent is
    first relayed to the consumer with [kill], then [stop] is set, then
    [auplugin_stop] is called. *)
Theorem term_handler_honours_parent_only (sig si_pid : Z) (s : state) :
  si_pid <> ppid s ->
  term_handler sig (Some si_pid) s = s /\
  term_handler sig (Some (ppid s)) s
  = set_trace (trace s ++ [Kill (cpid s) sig; Store_stop 1; Auplugin_stop])
      (set_stop 1 s).
Proof.
  intros Hpid. unfold term_handler. split.
  - apply Z.eqb_neq in Hpid. rewrite Hpid. reflexivity.
  - rewrite Z.eqb_refl. destruct s. simpl.
    unfold auplugin_stop, store_stop, kill, emit, set_trace, set_stop. simpl.
    rewrite <- !app_assoc. reflexivity.
Qed.

(** The test [load_rules] makes on the mode looks at bit 1. *)
Lemma land_S_IWOTH (m : Z) : (Z.land m S_IWOTH =? S_IWOTH) = Z.testbit m 1.
Proof.
  unfold S_IWOTH. destruct (Z.testbit m 1) eqn:B.
  - apply Z.eqb_eq. apply Z.bits_inj'. intros n Hn.
    rewrite Z.land_spec. change 2 with (2 ^ 1).
    rewrite Z.pow2_bits_eqb by lia.
    destruct (Z.eqb_spec 1 n) as [<-|]; [rewrite B; reflexivity|].
    apply andb_false_r.
  - apply Z.eqb_neq. intros H.
    assert (B' : Z.testbit (Z.land m 2) 1 = true) by (rewrite H; reflexivity).
    rewrite Z.land_spec, B in B'. discriminate.
Qed.

(** C3. When [fstat] on the opened descriptor shows an owner other than
    root, or the world-writable bit, or a file that is not regular,
    [load_rules] returns 1 with an empty list after one syslog line.  The
    message is fixed by the stat alone: whatever the file holds, the
    outcome is the same, the environment is not consulted (no [fdopen]),
    and no line is parsed. *)
Theorem unsafe_file_is_never_read (st : stat) (s : state) :
  st_uid st <> 0 \/ Z.testbit (st_mode st) 1 = true \/
  S_ISREG (st_mode st) = false ->
  exists m, In m [Msg_not_root; Msg_world_writable; Msg_not_regular] /\
    forall contents,
      let s0 := set_conf_file (Opened (Some st) contents) s in
      load_rules s0 = (1, [], syslog LOG_ERR m (set_errors 0 s0)).
Proof.
  intros H.
  assert (Hc : forall contents,
             conf_file (set_errors 0 (set_conf_file (Opened (Some st) contents) s))
             = Opened (Some st) contents) by (destruct s; reflexivity).
  destruct (Z.eqb_spec (st_uid st) 0) as [Huid|Huid].
  - destruct (Z.testbit (st_mode st) 1) eqn:Hww.
    + exists Msg_world_writable. split; [simpl; auto|].
      intros contents s0. unfold load_rules. subst s0. rewrite Hc.
      rewrite Huid, land_S_IWOTH, Hww. reflexivity.
    + destruct (S_ISREG (st_mode st)) eqn:Hreg.
      { exfalso. destruct H as [H|[H|H]]; congruence. }
      exists Msg_not_regular. split; [simpl; auto|].
      intros contents s0. unfold load_rules. subst s0. rewrite Hc.
      rewrite Huid, land_S_IWOTH, Hww, Hreg. reflexivity.
  - exists Msg_not_root. split; [simpl; auto|].
    intros contents s0. unfold load_rules. subst s0. rewrite Hc.
    apply Z.eqb_neq in Huid. rewrite Huid. reflexivity.
Qed.

(** C6, as the code has it.  When [open] fails, [load_rules] returns 1
    with an empty list after one syslog line, and that line has priority
    LOG_ERR in both cases: only the message tells a missing file (ENOENT)
    from any other failure. *)
Theorem open_failure_is_logged_as_error (errno : Z) (s : state) :
  let s0 := set_conf_file (Open_failed errno) s in
  load_rules s0 =
    (1, [],
     syslog LOG_ERR
       (if errno =? ENOENT then Msg_no_config else Msg_open_error errno)
       (set_errors 0 s0)).
Proof.
  intros s0. unfold load_rules.
  replace (conf_file (set_errors 0 s0)) with (Open_failed errno)
    by (destruct s; reflexivity).
  destruct (errno =? ENOENT); reflexivity.
Qed.

(** C2. When the engine refuses an expression during a reload (of a
    file small enough for the [int] error counter not to overflow), the
    global rule list after [reload_config] is the list before it. *)
Theorem failed_reload_keeps_active_rules (s : state) :
  Z.of_nat (file_size (conf_file s)) <= INT_MAX ->
  existsb is_rejection (events_since s (reload_config s)) = true ->
  rule_list (reload_config s) = rule_list s.
Proof.
  intros Hsz Hrej. unfold reload_config in *.
  destruct (load_rules (store_hup 0 s)) as [[rc l] s1] eqn:L.
  apply load_rules_inv in L. destruct L as (F & new & T & W & R & _).
  apply frame_fields in F. destruct F as (_ & _ & Hl & _).
  assert (Hl0 : rule_list (store_hup 0 s) = rule_list s) by (destruct s; reflexivity).
  destruct (Z.eqb_spec rc 0) as [Hrc|Hrc]; simpl negb in *; cbv iota in *.
  - exfalso.
    assert (Hc : conf_file (store_hup 0 s) = conf_file s) by (destruct s; reflexivity).
    rewrite Hc in R. specialize (R Hsz Hrc). apply rejections_none in R.
    assert (T' : trace (syslog LOG_INFO Msg_reloaded (set_rule_list l s1))
                 = trace s ++ [Store_hup 0] ++ new ++ [Syslog LOG_INFO Msg_reloaded]).
    { replace (trace (syslog LOG_INFO Msg_reloaded (set_rule_list l s1)))
        with (trace s1 ++ [Syslog LOG_INFO Msg_reloaded]) by (destruct s1; reflexivity).
      rewrite T. replace (trace (store_hup 0 s)) with (trace s ++ [Store_hup 0])
        by (destruct s; reflexivity).
      rewrite <- !app_assoc. reflexivity. }
    rewrite (events_since_app _ _ _ T'), !existsb_app, R in Hrej.
    discriminate.
  - replace (rule_list (syslog LOG_INFO Msg_not_reloaded s1)) with (rule_list s1)
      by (destruct s1; reflexivity).
    congruence.
Qed.

(** C7. A line of text of at least [BUF_SIZE - 1] bytes before its
    newline (every line longer than the 1024-byte buffer is one) is
    never returned by [get_line]: at the start of such a line [get_line]
    logs one warning, counts the line, and carries on behind the line's
    newline.  In a file of text the loop of [load_rules] therefore
    treats the long line as follows, whatever complete lines [ls] come
    before it and whatever comes behind it: from the state [ln1], [L1],
    [s1] the lines before it lead to, it goes on with the rest of the
    file with the same rules, the line counted, and one warning added;
    and when the file ends in the long line without a newline, the loop
    ends there, with the same rules and one warning added. *)
Theorem overlong_line_skipped_with_one_warning (ls : list (list byte))
    (long post : list byte) (ln : Z) (L : filter_list) (s : state) :
  forallb text_line ls = true -> text_line long = true ->
  (BUF_SIZE - 1 <= length long)%nat ->
  get_line (long ++ NL :: post) BUF_SIZE ln s
  = get_line post BUF_SIZE (int_incr ln) (syslog LOG_WARNING (Msg_too_long ln) s) /\
  exists ln1 L1 s1,
    (forall rest,
       read_file (unlines ls ++ rest) ln L s = read_file rest ln1 L1 s1) /\
    read_file (unlines ls ++ long ++ NL :: post) ln L s
    = read_file post (int_incr ln1) L1
        (syslog LOG_WARNING (Msg_too_long ln1) s1) /\
    read_file (unlines ls ++ long) ln L s
    = (L1, syslog LOG_WARNING (Msg_too_long ln1) s1).
Proof.
  intros Hls Hlong Hlen. split.
  - apply get_line_long; assumption.
  - destruct (read_file_lines ls Hls ln L s) as (ln1 & L1 & s1 & H).
    exists ln1, L1, s1. split; [exact H|]. split.
    + rewrite H. apply read_file_long; assumption.
    + rewrite H. apply read_file_unterminated; [assumption|].
      intros ->. pose proof BUF_SIZE_ge_2. simpl in Hlen. lia.
Qed.

(** C5, as the code has it.  When the engine refuses the expression of a
    line, [parse_line] returns NULL and [errors] is incremented; the loop
    of [load_rules] goes on with the rest of the file and the rule list
    it had.  [load_rules] returns nonzero exactly when the final error
    count is nonzero, or one of the checks before reading ([open],
    [fstat], owner, mode, file type) failed, or [fdopen] failed. *)
Theorem rejected_line_is_counted_and_loading_goes_on (l rest : list byte)
    (ln : Z) (L : filter_list) (s s0 : state) :
  text_line l = true -> (length l + 2 <= BUF_SIZE)%nat ->
  existsb is_rejection
    (events_since s (snd (parse_line l (int_incr ln) s))) = true ->
  let s' := snd (parse_line l (int_incr ln) s) in
  fst (parse_line l (int_incr ln) s) = None /\
  errors s' = int_incr (errors s) /\
  read_file (l ++ NL :: rest) ln L s = read_file rest (int_incr ln) L s' /\
  (fst (fst (load_rules s0)) <> 0 <->
   errors (snd (load_rules s0)) <> 0 \/ gate_failed (conf_file s0) = true \/
   alloc_ok (tick s0) = false).
Proof.
  intros Hl Hshort Hrej s'. subst s'.
  rewrite read_file_short by assumption.
  destruct (parse_line l (int_incr ln) s) as [r s1] eqn:P. simpl in *.
  apply parse_line_inv in P. destruct P as (_ & new & T & _ & R).
  rewrite (events_since_app _ _ _ T) in Hrej.
  destruct R as [[R _]|(_ & Herr & ->)].
  { apply rejections_none in R. congruence. }
  split; [reflexivity|]. split; [assumption|]. split; [reflexivity|].
  destruct (load_rules s0) as [[rc l0] s2] eqn:Ld.
  apply load_rules_inv in Ld. destruct Ld as (_ & new0 & _ & _ & _ & Hrc).
  exact Hrc.
Qed.

(** C9. When [malloc] of the rule or [strdup] of its text fails on a
    line that holds an expression (valid or not: the engine is not
    asked), [parse_line] returns NULL and changes nothing but the number
    of calls the environment answered: [errors] and the trace are as
    before.  The loop of [load_rules] goes on without the line, and a
    file whose only line is that one loads with return value 0 and no
    rule. *)
Theorem allocation_failure_drops_line_silently (l rest : list byte) (ln : Z)
    (L : filter_list) (s : state) :
  candidate l = true -> text_line l = true -> (length l + 2 <= BUF_SIZE)%nat ->
  out_of_memory s = true ->
  let s' := set_tick ((if alloc_ok (S (tick s)) then 3 else 2) + tick s) s in
  parse_line l (int_incr ln) s = (None, s') /\
  errors s' = errors s /\ trace s' = trace s /\
  read_file (l ++ NL :: rest) ln L s = read_file rest (int_incr ln) L s' /\
  (forall st s0,
     conf_file s0 = Opened (Some st) (l ++ [NL]) ->
     gate_failed (conf_file s0) = false -> alloc_ok (tick s0) = true ->
     s = set_tick (S (tick s0)) (set_errors 0 s0) ->
     load_rules s0 = (0, [], s')).
Proof.
  intros Hc Hl Hshort Hmem s'. unfold out_of_memory in Hmem.
  apply andb_true_iff in Hmem. destruct Hmem as [A1 A].
  apply negb_true_iff, andb_false_iff in A.
  assert (P : parse_line l (int_incr ln) s = (None, s'))
    by (apply parse_line_no_memory; assumption).
  assert (R : forall rest', read_file (l ++ NL :: rest') ln L s
                            = read_file rest' (int_incr ln) L s').
  { intros rest'. rewrite read_file_short, P by assumption. reflexivity. }
  repeat split; auto; try (destruct s; reflexivity).
  intros st s0 Hconf Hgate Hfd Hs.
  unfold load_rules.
  replace (conf_file (set_errors 0 s0)) with (conf_file s0) by (destruct s0; reflexivity).
  unfold gate_failed in Hgate. rewrite Hconf in *.
  apply orb_false_iff in Hgate. destruct Hgate as [Hgate Hreg].
  apply orb_false_iff in Hgate. destruct Hgate as [Huid Hww].
  rewrite Huid, Hww, Hreg. unfold fdopen, alloc.
  replace (tick (set_errors 0 s0)) with (tick s0) by (destruct s0; reflexivity).
  rewrite Hfd. simpl negb. cbv iota. rewrite <- Hs.
  assert (P0 : parse_line l (int_incr 0) s = (None, s'))
    by (apply parse_line_no_memory; assumption).
  rewrite read_file_short, P0 by assumption.
  unfold read_file. rewrite read_rules_S.
  unfold get_line. rewrite get_line_loop_eof by apply BUF_SIZE_ge_2.
  subst s s'. destruct s0; reflexivity.
Qed.


End Properties.

(** * The properties on sample inputs *)

(** Loading the two sample files: both valid lines of [file_bad] are
    parsed although the load fails. *)
Example load_file_ok :
  fst (@load_rules toy (start [] (root_file file_ok)))
  = (0, [mk_rule line_b64 1; mk_rule line_uid 2]).
Proof. vm_compute. reflexivity. Qed.

Example load_file_bad :
  fst (@load_rules toy (start [] (root_file file_bad)))
  = (1, [mk_rule line_b64 1; mk_rule line_uid 3]).
Proof. vm_compute. reflexivity. Qed.

(** An event the only rule matches is dropped in ALLOWLIST mode and
    forwarded in BLOCKLIST mode. *)
Example allowlist_drops_matching_event :
  pipe (@handle_event toy conf_allow ev_b64 (start [rule_b64] (root_file file_ok)))
  = [].
Proof. vm_compute. reflexivity. Qed.

Example blocklist_forwards_matching_event :
  pipe (@handle_event toy conf_block ev_b64 (start [rule_b64] (root_file file_ok)))
  = line_b64 ++ [NL] ++ line_path ++ [NL].
Proof. vm_compute. reflexivity. Qed.

(** The statements about lines are about text.  A NUL byte hides the
    rest of its line from [strchr]: the line is taken for one that does
    not fit the buffer, and the skipping runs on to the end of the line
    behind it, under the one warning given for the first of the two. *)
Example nul_byte_hides_newline :
  let file := [x61; x3d; x31; NUL; x7a; NL] ++ line_bogus ++ [NL]
              ++ line_uid ++ [NL] in
  let '(rc, l, s') := @load_rules toy (start [] (root_file file)) in
  rc = 0 /\ l = [mk_rule line_uid 2] /\
  trace s' = [Syslog LOG_WARNING (Msg_too_long 0); Ausearch_add line_uid 0].
Proof. vm_compute. repeat split. Qed.

(** C2 on a reload of a file with one invalid line between two valid
    ones: the rule loaded before stays. *)
Lemma failed_reload_keeps_active_rules_witness :
  let s := start [rule_b64] (root_file file_bad) in
  Z.of_nat (file_size (conf_file s)) <= INT_MAX /\
  existsb is_rejection (events_since s (@reload_config toy s)) = true /\
  rule_list (@reload_config toy s) = [rule_b64].
Proof.
  split; [vm_compute; discriminate|].
  split; [vm_compute; reflexivity|].
  apply (@failed_reload_keeps_active_rules toy
           (start [rule_b64] (root_file file_bad))).
  - vm_compute; discriminate.
  - vm_compute; reflexivity.
Defined.

(** C3 on a regular file owned by uid 1000. *)
Lemma unsafe_file_is_never_read_witness :
  let st := mk_stat 1000 33184 in
  let s := start [] (Open_failed ENOENT) in
  (st_uid st <> 0 \/ Z.testbit (st_mode st) 1 = true \/
   S_ISREG (st_mode st) = false) /\
  exists m, In m [Msg_not_root; Msg_world_writable; Msg_not_regular] /\
    forall contents,
      let s0 := set_conf_file (Opened (Some st) contents) s in
      @load_rules toy s0 = (1, [], syslog LOG_ERR m (set_errors 0 s0)).
Proof.
  split; [left; discriminate|].
  apply (@unsafe_file_is_never_read toy (mk_stat 1000 33184)
           (start [] (Open_failed ENOENT))).
  left; discriminate.
Defined.

(** C4 on a forwarded event of two records: a pipe that takes every
    write, one that refuses the third write (the text of the second
    record), and one that refuses the second (the newline of the
    first). *)
Lemma forwarded_records_reach_pipe_in_order_witness :
  let s := start [rule_b64] (root_file file_ok) in
  let r1 := line_b64 in
  let r2 := line_path in
  (forward_event (mode conf_block)
     (toy_cur_event (au_exprs (@register_rules toy s)) ev_b64) = Some 1 /\
   pipe (@handle_event toy conf_block ev_b64 s) = r1 ++ [NL] ++ r2 ++ [NL]) /\
  (pipe (@handle_event (toy_env [] [2%nat]) conf_block ev_b64 s) = r1 ++ [NL] /\
   stop (@handle_event (toy_env [] [2%nat]) conf_block ev_b64 s) = 0) /\
  (pipe (@handle_event (toy_env [] [1%nat]) conf_block ev_b64 s) = r1 /\
   stop (@handle_event (toy_env [] [1%nat]) conf_block ev_b64 s) = 0).
Proof.
  intros s r1 r2. split; [|split].
  - split; [vm_compute; reflexivity|].
    destruct (@forwarded_records_reach_pipe_in_order toy conf_block ev_b64 s)
      as (Hok & _); [vm_compute; reflexivity|].
    destruct Hok as (Hp & _); [vm_compute; reflexivity|]. exact Hp.
  - destruct (@forwarded_records_reach_pipe_in_order (toy_env [] [2%nat])
                conf_block ev_b64 s) as (_ & Htext & _);
      [vm_compute; reflexivity|].
    destruct (Htext [r1] r2 []) as (Hp & _ & Hs);
      try (vm_compute; reflexivity).
    split; [exact Hp | exact Hs].
  - destruct (@forwarded_records_reach_pipe_in_order (toy_env [] [1%nat])
                conf_block ev_b64 s) as (_ & _ & Hnl);
      [vm_compute; reflexivity|].
    destruct (Hnl [] r1 [r2]) as (Hp & _ & Hs);
      try (vm_compute; reflexivity).
    split; [exact Hp | exact Hs].
Defined.

(** The claim C5 makes fails when [fdopen] fails: the file passes every
    check, no expression is refused, and the load still returns 1. *)
Lemma load_fails_when_fdopen_fails :
  let s0 := start [] (root_file file_ok) in
  let r := @load_rules (toy_env [0%nat] []) s0 in
  ~ (fst (fst r) <> 0 <->
     errors (snd r) <> 0 \/ gate_failed (conf_file s0) = true).
Proof.
  vm_compute. intros [H _].
  destruct H as [H|H]; [discriminate | apply H; reflexivity | discriminate].
Defined.

(** C5 on the invalid line of [file_bad], met after the first line. *)
Lemma rejected_line_is_counted_and_loading_goes_on_witness :
  let s0 := start [] (root_file file_bad) in
  let s := set_tick 4 s0 in
  let rest := line_uid ++ [NL] in
  let s' := snd (@parse_line toy line_bogus (int_incr 1) s) in
  text_line line_bogus = true /\ (length line_bogus + 2 <= BUF_SIZE)%nat /\
  existsb is_rejection (events_since s s') = true /\
  fst (@parse_line toy line_bogus (int_incr 1) s) = None /\
  errors s' = int_incr (errors s) /\
  @read_file toy (line_bogus ++ NL :: rest) 1 [rule_b64] s
  = @read_file toy rest (int_incr 1) [rule_b64] s' /\
  (fst (fst (@load_rules toy s0)) <> 0 <->
   errors (snd (@load_rules toy s0)) <> 0 \/
   gate_failed (conf_file s0) = true \/ @alloc_ok toy (tick s0) = false).
Proof.
  intros s0 s rest s'.
  assert (H1 : text_line line_bogus = true) by (vm_compute; reflexivity).
  assert (H2 : (length line_bogus + 2 <= BUF_SIZE)%nat)
    by (apply Nat.leb_le; vm_compute; reflexivity).
  assert (H3 : existsb is_rejection (events_since s s') = true)
    by (vm_compute; reflexivity).
  split; [exact H1|]. split; [exact H2|]. split; [exact H3|].
  exact (@rejected_line_is_counted_and_loading_goes_on toy line_bogus rest 1
           [rule_b64] s s0 H1 H2 H3).
Defined.

(** The claim C6 makes fails: a missing file and a file that may not be
    opened are both logged with priority LOG_ERR. *)
Lemma missing_file_logged_like_other_open_failures :
  open_failure_priorities ENOENT = [LOG_ERR] /\
  open_failure_priorities EACCES = [LOG_ERR] /\
  ~ (open_failure_priorities ENOENT <> open_failure_priorities EACCES).
Proof.
  repeat split. intros H. apply H. reflexivity.
Defined.

(** C7 on [file_long], and on the same file cut behind the long line. *)
Lemma overlong_line_skipped_with_one_warning_witness :
  let s := start [] (root_file file_long) in
  let long := repeat x61 1500 in
  let post := line_uid ++ [NL] in
  forallb text_line [line_b64] = true /\ text_line long = true /\
  (BUF_SIZE - 1 <= length long)%nat /\
  get_line (long ++ NL :: post) BUF_SIZE 1 s
  = get_line post BUF_SIZE (int_incr 1) (syslog LOG_WARNING (Msg_too_long 1) s) /\
  exists ln1 L1 s1,
    (forall rest,
       @read_file toy (unlines [line_b64] ++ rest) 0 [] s
       = @read_file toy rest ln1 L1 s1) /\
    @read_file toy (unlines [line_b64] ++ long ++ NL :: post) 0 [] s
    = @read_file toy post (int_incr ln1) L1
        (syslog LOG_WARNING (Msg_too_long ln1) s1) /\
    @read_file toy (unlines [line_b64] ++ long) 0 [] s
    = (L1, syslog LOG_WARNING (Msg_too_long ln1) s1).
Proof.
  intros s long post.
  assert (H1 : forallb text_line [line_b64] = true) by (vm_compute; reflexivity).
  assert (H2 : text_line long = true) by (vm_compute; reflexivity).
  assert (H3 : (BUF_SIZE - 1 <= length long)%nat)
    by (apply Nat.leb_le; vm_compute; reflexivity).
  split; [exact H1|]. split; [exact H2|]. split; [exact H3|].
  split.
  - exact (proj1 (@overlong_line_skipped_with_one_warning toy [line_b64] long
                    post 1 [] s H1 H2 H3)).
  - exact (proj2 (@overlong_line_skipped_with_one_warning toy [line_b64] long
                    post 0 [] s H1 H2 H3)).
Defined.

(** C8 on a SIGTERM from process 77 when the dispatcher is process 1. *)
Lemma term_handler_honours_parent_only_witness :
  let s := start [rule_b64] (root_file file_ok) in
  77 <> ppid s /\
  term_handler SIGTERM (Some 77) s = s /\
  term_handler SIGTERM (Some (ppid s)) s
  = set_trace (trace s ++ [Kill (cpid s) SIGTERM; Store_stop 1; Auplugin_stop])
      (set_stop 1 s).
Proof.
  intros s. split; [discriminate|].
  apply (term_handler_honours_parent_only SIGTERM 77 s). discriminate.
Defined.

(** C9 on a file whose only line the engine would accept, when the
    third call for memory ([malloc] of the rule) fails: the load returns
    0 and the rule list is empty. *)
Lemma allocation_failure_drops_line_silently_witness :
  let s0 := start [] (root_file file_one) in
  let s := set_tick 1 (set_errors 0 s0) in
  let s' := set_tick 3 s in
  candidate line_b64 = true /\ text_line line_b64 = true /\
  (length line_b64 + 2 <= BUF_SIZE)%nat /\
  @out_of_memory (toy_env [2%nat] []) s = true /\
  toy_add_expression line_b64 = 0 /\
  @parse_line (toy_env [2%nat] []) line_b64 (int_incr 0) s = (None, s') /\
  @load_rules (toy_env [2%nat] []) s0 = (0, [], s').
Proof.
  intros s0 s s'.
  assert (H1 : candidate line_b64 = true) by (vm_compute; reflexivity).
  assert (H2 : text_line line_b64 = true) by (vm_compute; reflexivity).
  assert (H3 : (length line_b64 + 2 <= BUF_SIZE)%nat)
    by (apply Nat.leb_le; vm_compute; reflexivity).
  assert (H4 : @out_of_memory (toy_env [2%nat] []) s = true)
    by (vm_compute; reflexivity).
  split; [exact H1|]. split; [exact H2|]. split; [exact H3|].
  split; [exact H4|]. split; [vm_compute; reflexivity|].
  destruct (@allocation_failure_drops_line_silently (toy_env [2%nat] [])
              line_b64 [] 0 [] s H1 H2 H3 H4) as (P & _ & _ & _ & Ld).
  split; [exact P|].
  apply (Ld (mk_stat 0 33184) s0); reflexivity.
Defined.


(** * Further properties of the program *)

(** ** Reading lines *)

Lemma fgets_read_length (n : nat) (f : FILE) :
  (length (fst (fgets_read n f)) <= n)%nat.
Proof.
  revert f. induction n as [|n IH]; intros [|b f]; simpl; try lia.
  destruct (Byte.eqb b NL); simpl; [lia|].
  specialize (IH f). destruct (fgets_read n f). simpl in *. lia.
Qed.

Lemma fgets_unlocked_length (size : nat) (f f' : FILE) (chunk : list byte) :
  fgets_unlocked size f = Some (chunk, f') ->
  (length chunk + 1 <= size)%nat /\ f = chunk ++ f'.
Proof.
  intros H. destruct size as [|[|n]]; [discriminate| |].
  - injection H as <- <-. simpl. split; [lia|reflexivity].
  - destruct f as [|b f]; [discriminate|].
    change (Some (fgets_read (S n) (b :: f)) = Some (chunk, f')) in H.
    pose proof (fgets_read_length (S n) (b :: f)) as L.
    pose proof (fgets_read_split (S n) (b :: f)) as Sp.
    destruct (fgets_read (S n) (b :: f)) as [c r].
    injection H as <- <-. simpl in *. split; [lia|congruence].
Qed.

Lemma strchr_found (s : list byte) (c : byte) :
  forall i, strchr s c = Some i ->
    (i < length s)%nat /\ nth_error s i = Some c /\
    forallb (fun b => negb (Byte.eqb b c) && negb (Byte.eqb b NUL)) (firstn i s) = true /\
    c_str (poke s i NUL) = firstn i s.
Proof.
  induction s as [|b s IH]; intros i H; simpl in H; [discriminate|].
  destruct (Byte.eqb b c) eqn:Hc.
  - injection H as <-. apply byte_eqb_eq in Hc. subst. simpl.
    repeat split; auto. lia.
  - destruct (Byte.eqb b NUL) eqn:Hn; [discriminate|].
    destruct (strchr s c) as [j|] eqn:Hj; [|discriminate].
    injection H as <-. destruct (IH j eq_refl) as (H1 & H2 & H3 & H4).
    simpl. rewrite Hc, Hn, H3, H4. repeat split; auto. lia.
Qed.

Lemma get_line_loop_text_fits :
  forall fuel f size ln tl s line f' ln' s',
    get_line_loop fuel f size ln tl s = (Some line, f', ln', s') ->
    text_line line = true /\ (length line + 2 <= size)%nat.
Proof.
  induction fuel as [|fuel IH]; intros f size ln tl s line f' ln' s' H;
    [discriminate|].
  rewrite get_line_loop_S in H.
  destruct (fgets_unlocked size f) as [[chunk f1]|] eqn:F; [|discriminate].
  apply fgets_unlocked_length in F. destruct F as [Flen _].
  destruct (strchr (chunk ++ [NUL]) NL) as [i|] eqn:Hi; [destruct tl|].
  - eapply IH; eassumption.
  - injection H as <- _ _ _.
    apply strchr_found in Hi. destruct Hi as (H1 & H2 & H3 & H4).
    rewrite H4. split; [exact H3|].
    assert (i <> length chunk).
    { intros ->. rewrite nth_error_app2, Nat.sub_diag in H2 by lia.
      simpl in H2. discriminate. }
    rewrite length_app in H1. simpl in H1.
    rewrite length_firstn, length_app. simpl. lia.
  - eapply IH; eassumption.
Qed.

Lemma get_line_loop_suffix :
  forall fuel f size ln tl s r f' ln' s',
    get_line_loop fuel f size ln tl s = (r, f', ln', s') ->
    exists pre, f = pre ++ f'.
Proof.
  induction fuel as [|fuel IH]; intros f size ln tl s r f' ln' s' H.
  - injection H as _ <- _ _. exists []. reflexivity.
  - rewrite get_line_loop_S in H.
    destruct (fgets_unlocked size f) as [[chunk f1]|] eqn:F.
    2:{ injection H as _ <- _ _. exists []. reflexivity. }
    apply fgets_unlocked_length in F. destruct F as [_ ->].
    destruct (strchr (chunk ++ [NUL]) NL); [destruct tl|].
    + apply IH in H. destruct H as (pre & ->). exists (chunk ++ pre).
      rewrite app_assoc. reflexivity.
    + injection H as _ <- _ _. exists chunk. reflexivity.
    + apply IH in H. destruct H as (pre & ->). exists (chunk ++ pre).
      rewrite app_assoc. reflexivity.
Qed.

Lemma fgets_read_newline_last (n : nat) :
  forall f chunk f1 i,
    fgets_read n f = (chunk, f1) ->
    strchr (chunk ++ [NUL]) NL = Some i ->
    chunk = firstn i (chunk ++ [NUL]) ++ [NL].
Proof.
  induction n as [|n IH]; intros [|b f] chunk f1 i F S;
    simpl in F; try (injection F as <- <-; discriminate).
  destruct (Byte.eqb b NL) eqn:Hb.
  - injection F as <- <-. apply byte_eqb_eq in Hb. subst b.
    simpl in S. injection S as <-. reflexivity.
  - destruct (fgets_read n f) as [c r] eqn:R. injection F as <- <-.
    simpl in S. rewrite Hb in S.
    destruct (Byte.eqb b NUL); [discriminate|].
    destruct (strchr (c ++ [NUL]) NL) as [j|] eqn:Hj; [|discriminate].
    injection S as <-. simpl. f_equal. eapply IH; eassumption.
Qed.

Lemma fgets_unlocked_newline_last (size : nat) (f f1 : FILE)
    (chunk : list byte) (i : nat) :
  fgets_unlocked size f = Some (chunk, f1) ->
  strchr (chunk ++ [NUL]) NL = Some i ->
  chunk = firstn i (chunk ++ [NUL]) ++ [NL].
Proof.
  destruct size as [|[|n]]; [discriminate| |].
  { intros H S. injection H as <- <-. discriminate S. }
  unfold fgets_unlocked. destruct f; [discriminate|].
  intros H S.
  assert (H' : fgets_read (Datatypes.S n) (b :: f) = (chunk, f1)) by congruence.
  eapply fgets_read_newline_last; eassumption.
Qed.

Lemma get_line_loop_line_of_file :
  forall fuel f size ln tl s line f' ln' s',
    get_line_loop fuel f size ln tl s = (Some line, f', ln', s') ->
    exists pre, f = pre ++ line ++ NL :: f'.
Proof.
  induction fuel as [|fuel IH]; intros f size ln tl s line f' ln' s' H;
    [discriminate|].
  rewrite get_line_loop_S in H.
  destruct (fgets_unlocked size f) as [[chunk f1]|] eqn:F; [|discriminate].
  pose proof (fgets_unlocked_length _ _ _ _ F) as [_ ->].
  destruct (strchr (chunk ++ [NUL]) NL) as [i|] eqn:Hi; [destruct tl|].
  - apply IH in H. destruct H as (pre & ->). exists (chunk ++ pre).
    rewrite <- app_assoc. reflexivity.
  - injection H as <- <- _ _.
    pose proof (fgets_unlocked_newline_last _ _ _ _ _ F Hi) as Hc.
    apply strchr_found in Hi. destruct Hi as (_ & _ & _ & ->).
    exists []. simpl. rewrite Hc at 1. rewrite <- app_assoc. reflexivity.
  - apply IH in H. destruct H as (pre & ->). exists (chunk ++ pre).
    rewrite <- app_assoc. reflexivity.
Qed.

(** X1. A line [get_line] returns is a line of the file: its bytes stand
    in the file in front of a newline, between what was consumed before
    and what is left to read.  The line holds no newline and no NUL byte,
    and with the newline and the closing NUL it fits the buffer. *)
Theorem get_line_returns_a_line_of_the_file (f : FILE) (size : nat) (ln : Z)
    (s : state) line f' ln' s' :
  get_line f size ln s = (Some line, f', ln', s') ->
  text_line line = true /\ (length line + 2 <= size)%nat /\
  exists pre, f = pre ++ line ++ NL :: f'.
Proof.
  unfold get_line. intros H.
  destruct (get_line_loop_text_fits _ _ _ _ _ _ _ _ _ _ H) as [H1 H2].
  split; [exact H1|]. split; [exact H2|].
  eapply get_line_loop_line_of_file; eassumption.
Qed.

(** X2. [get_line] reads forward: what it leaves of the file is a suffix
    of what it was given; a call that returns a line has consumed at
    least one byte, and NULL is returned only with the file read to its
    end. *)
Theorem get_line_reads_forward (f : FILE) (size : nat) (ln : Z) (s : state)
    r f' ln' s' :
  (2 <= size)%nat ->
  get_line f size ln s = (r, f', ln', s') ->
  exists pre, f = pre ++ f' /\
    match r with
    | None => f' = []
    | Some _ => pre <> []
    end.
Proof.
  intros Hsize H. unfold get_line in H.
  destruct (get_line_loop_suffix _ _ _ _ _ _ _ _ _ _ H) as (pre & Hpre).
  exists pre. split; [assumption|]. destruct r as [line|].
  - apply get_line_loop_progress in H; [|assumption].
    intros ->. simpl in Hpre. subst. lia.
  - eapply get_line_loop_null_at_eof; [eassumption| |eassumption]. lia.
Qed.

(** skip_spaces *)
Lemma skip_spaces_spec (line : list byte) :
  exists n, line = repeat SP n ++ skip_spaces line /\
    match skip_spaces line with
    | [] => True
    | c :: _ => c <> SP
    end.
Proof.
  induction line as [|b line IH]; simpl.
  - exists O. split; reflexivity.
  - destruct (Byte.eqb b SP) eqn:Hb.
    + apply byte_eqb_eq in Hb. subst b. destruct IH as (n & Hn & Hh).
      exists (S n). simpl. split; [congruence|assumption].
    + exists O. simpl. split; [reflexivity|]. apply byte_eqb_neq. assumption.
Qed.

Lemma skip_spaces_text (line : list byte) :
  text_line line = true -> text_line (skip_spaces line) = true.
Proof.
  induction line as [|b line IH]; intros H; simpl; auto.
  destruct (Byte.eqb b SP); [|assumption].
  apply text_line_cons in H. apply IH. tauto.
Qed.

Lemma skip_spaces_length (line : list byte) :
  (length (skip_spaces line) <= length line)%nat.
Proof.
  induction line as [|b line IH]; simpl; auto.
  destruct (Byte.eqb b SP); simpl; lia.
Qed.

(** ** Loading rules *)

Section LoaderMore.
Context {E : Env}.

Lemma parse_line_rule (line : list byte) (ln : Z) (s : state) r s' :
  parse_line line ln s = (Some r, s') ->
  r = mk_rule (skip_spaces line) ln /\ candidate line = true /\
  ausearch_add_expression (skip_spaces line) = 0.
Proof.
  unfold parse_line, auparse_init, malloc, strdup, alloc, candidate. intros H.
  destruct (alloc_ok (tick s)); simpl in H; [|discriminate].
  destruct (skip_spaces line) as [|c line'] eqn:Hsk; [discriminate|].
  destruct (Byte.eqb c HASH); [discriminate|]. simpl in H.
  destruct (alloc_ok (S (tick s))); simpl in H; [|discriminate].
  destruct (alloc_ok (S (S (tick s)))); simpl in H; [|discriminate].
  destruct (Z.eqb_spec (ausearch_add_expression (c :: line')) 0) as [Hrc|Hrc];
    simpl in H; [|discriminate].
  injection H as <- _. repeat split; auto.
Qed.

Lemma parse_line_well_formed (line : list byte) (ln : Z) (s : state) r s' :
  text_line line = true -> (length line + 2 <= BUF_SIZE)%nat ->
  parse_line line ln s = (Some r, s') -> well_formed_rule r = true.
Proof.
  intros Ht Hl H. apply parse_line_rule in H. destruct H as (-> & Hc & Hrc).
  unfold well_formed_rule. simpl. rewrite Hrc, skip_spaces_text by assumption.
  simpl. pose proof (skip_spaces_length line).
  replace (length (skip_spaces line) + 2 <=? BUF_SIZE)%nat with true
    by (symmetry; apply Nat.leb_le; lia).
  simpl. unfold candidate in Hc.
  destruct (skip_spaces_spec line) as (n & _ & Hh).
  destruct (skip_spaces line) as [|c l']; [discriminate|].
  apply byte_eqb_neq in Hh. rewrite Hh, Hc. reflexivity.
Qed.

Lemma read_rules_well_formed :
  forall fuel f ln l s l' s',
    read_rules fuel f ln l s = (l', s') ->
    exists new, l' = l ++ new /\ forallb well_formed_rule new = true.
Proof.
  induction fuel as [|fuel IH]; intros f ln l s l' s' H.
  - injection H as <- _. exists []. rewrite app_nil_r. auto.
  - rewrite read_rules_S in H.
    destruct (get_line f BUF_SIZE ln s) as [[[line f1] ln1] s1] eqn:G.
    destruct line as [line|].
    2:{ injection H as <- _. exists []. rewrite app_nil_r. auto. }
    apply get_line_loop_text_fits in G. destruct G as [Ht Hl].
    cbv zeta in H.
    destruct (parse_line line (int_incr ln1) s1) as [[r|] s2] eqn:P.
    + apply IH in H. destruct H as (new & -> & Hnew).
      exists (r :: new). unfold append_rule. rewrite <- app_assoc. simpl.
      split; [reflexivity|].
      rewrite (parse_line_well_formed _ _ _ _ _ Ht Hl P). assumption.
    + apply IH in H. assumption.
Qed.

Lemma load_rules_well_formed (s : state) :
  forallb well_formed_rule (snd (fst (load_rules s))) = true.
Proof.
  unfold load_rules.
  destruct (conf_file (set_errors 0 s)) as [errno|[st|] contents].
  - destruct (negb (errno =? ENOENT)); reflexivity.
  - destruct (negb (st_uid st =? 0)); [reflexivity|].
    destruct (Z.land (st_mode st) S_IWOTH =? S_IWOTH); [reflexivity|].
    destruct (negb (S_ISREG (st_mode st))); [reflexivity|].
    destruct (fdopen (set_errors 0 s)) as [ok s1].
    destruct (negb ok); [reflexivity|].
    destruct (read_file contents 0 reset_rules s1) as [l s2] eqn:R.
    unfold read_file in R. apply read_rules_well_formed in R.
    destruct R as (new & -> & Hnew). simpl. assumption.
  - reflexivity.
Qed.

(** X4. Whatever the file holds and whatever [load_rules] returns, every
    rule of the list it builds is one the engine accepted, with an
    expression that is not empty, starts with neither a space nor a '#',
    holds no newline and no NUL byte, and fitted the line buffer. *)
Theorem loaded_rules_are_well_formed (s : state) :
  forallb well_formed_rule (snd (fst (load_rules s))) = true.
Proof. apply load_rules_well_formed. Qed.

Lemma get_line_loop_counter (size : nat) (Hsize : (2 <= size)%nat) :
  forall fuel f ln tl s r f' ln' s',
    get_line_loop fuel f size ln tl s = (r, f', ln', s') ->
    0 <= ln -> ln + Z.of_nat (length f) <= INT_MAX ->
    ln <= ln' /\
    ln' + Z.of_nat (length f') + match r with Some _ => 1 | None => 0 end
    <= ln + Z.of_nat (length f).
Proof.
  induction fuel as [|fuel IH]; intros f ln tl s r f' ln' s' H H0 Hmax.
  - injection H as <- <- <- _. lia.
  - rewrite get_line_loop_S in H.
    destruct (fgets_unlocked size f) as [[chunk f1]|] eqn:F.
    2:{ injection H as <- <- <- _. lia. }
    apply fgets_unlocked_progress in F; [|assumption].
    destruct (strchr (chunk ++ [NUL]) NL); [destruct tl|].
    + apply IH in H; rewrite ?int_incr_small; try lia.
      rewrite int_incr_small in H by lia. lia.
    + injection H as <- <- <- _. lia.
    + apply IH in H; lia.
Qed.

Lemma read_rules_linenos :
  forall fuel f ln l s l' s',
    read_rules fuel f ln l s = (l', s') ->
    0 <= ln -> ln + Z.of_nat (length f) <= INT_MAX ->
    exists new, l' = l ++ new /\
      Forall (fun r => ln < lineno r <= ln + Z.of_nat (length f)) new /\
      StronglySorted lineno_lt new.
Proof.
  induction fuel as [|fuel IH]; intros f ln l s l' s' H H0 Hmax.
  - injection H as <- _. exists []. rewrite app_nil_r.
    repeat split; constructor.
  - rewrite read_rules_S in H.
    destruct (get_line f BUF_SIZE ln s) as [[[line f1] ln1] s1] eqn:G.
    destruct line as [line|].
    2:{ injection H as <- _. exists []. rewrite app_nil_r.
        repeat split; constructor. }
    apply (get_line_loop_counter BUF_SIZE BUF_SIZE_ge_2) in G; [|lia|lia].
    destruct G as [G1 G2]. cbv zeta in H.
    assert (Hincr : int_incr ln1 = ln1 + 1) by (apply int_incr_small; lia).
    rewrite Hincr in H.
    destruct (parse_line line (ln1 + 1) s1) as [[r|] s2] eqn:P.
    + apply parse_line_rule in P. destruct P as (-> & _ & _).
      apply IH in H; [|lia|lia]. destruct H as (new & -> & Hb & Hs).
      exists (mk_rule (skip_spaces line) (ln1 + 1) :: new).
      unfold append_rule. rewrite <- app_assoc. simpl.
      split; [reflexivity|]. split.
      * constructor; [simpl; lia|].
        eapply Forall_impl; [|exact Hb]. simpl. intros a Ha. lia.
      * constructor; [assumption|].
        eapply Forall_impl; [|exact Hb]. unfold lineno_lt. simpl. intros a Ha. lia.
    + apply IH in H; [|lia|lia]. destruct H as (new & -> & Hb & Hs).
      exists new. split; [reflexivity|]. split; [|assumption].
      eapply Forall_impl; [|exact Hb]. simpl. intros a Ha. lia.
Qed.

(** X5. The rules [load_rules] builds stand in the order of their lines:
    the line numbers strictly increase along the list, and each lies
    between 1 and the size of the file. *)
Theorem loaded_rules_line_numbers_increase (s : state) :
  Z.of_nat (file_size (conf_file s)) <= INT_MAX ->
  let l := snd (fst (load_rules s)) in
  StronglySorted lineno_lt l /\
  Forall (fun r => 1 <= lineno r <= Z.of_nat (file_size (conf_file s))) l.
Proof.
  intros Hsz. unfold load_rules.
  replace (conf_file (set_errors 0 s)) with (conf_file s) by (destruct s; reflexivity).
  destruct (conf_file s) as [errno|[st|] contents].
  - destruct (negb (errno =? ENOENT)); simpl; split; constructor.
  - destruct (negb (st_uid st =? 0)); [simpl; split; constructor|].
    destruct (Z.land (st_mode st) S_IWOTH =? S_IWOTH); [simpl; split; constructor|].
    destruct (negb (S_ISREG (st_mode st))); [simpl; split; constructor|].
    destruct (fdopen (set_errors 0 s)) as [ok s1].
    destruct (negb ok); [simpl; split; constructor|].
    destruct (read_file contents 0 reset_rules s1) as [l s2] eqn:R.
    unfold read_file in R. simpl in Hsz.
    apply read_rules_linenos in R; [|lia|lia].
    destruct R as (new & -> & Hb & Hs). simpl. split; [assumption|].
    eapply Forall_impl; [|exact Hb]. simpl. intros a Ha. lia.
  - simpl; split; constructor.
Qed.

(** X6. When the file passes the checks on its owner, mode and type and
    the stream is opened, the value [load_rules] returns is the number of
    expressions the engine refused during the load, and it is the value
    left in [errors]. *)
Theorem load_rules_returns_number_of_rejections (s : state) :
  gate_failed (conf_file s) = false -> alloc_ok (tick s) = true ->
  Z.of_nat (file_size (conf_file s)) <= INT_MAX ->
  let '(rc, l, s') := load_rules s in
  rc = Z.of_nat (rejections (events_since s s')) /\ errors s' = rc.
Proof.
  intros Hgate Hfd Hsz. unfold load_rules, fdopen, alloc.
  replace (conf_file (set_errors 0 s)) with (conf_file s) by (destruct s; reflexivity).
  replace (tick (set_errors 0 s)) with (tick s) by (destruct s; reflexivity).
  unfold gate_failed in Hgate.
  destruct (conf_file s) as [errno|[st|] contents]; try discriminate.
  apply orb_false_iff in Hgate. destruct Hgate as [Hgate Hreg].
  apply orb_false_iff in Hgate. destruct Hgate as [Huid Hww].
  rewrite Huid, Hww, Hreg, Hfd. simpl negb. cbv iota.
  destruct (read_file contents 0 reset_rules
              (set_tick (S (tick s)) (set_errors 0 s))) as [l s1] eqn:R.
  unfold read_file in R. apply read_rules_inv in R.
  destruct R as (_ & new & T & _ & R).
  assert (T' : trace s1 = trace s ++ new) by (rewrite T; destruct s; reflexivity).
  rewrite (events_since_app _ _ _ T').
  destruct R as [R _].
  - destruct s; simpl; lia.
  - destruct s; simpl in *; lia.
  - replace (errors (set_tick (S (tick s)) (set_errors 0 s))) with 0 in R
      by (destruct s; reflexivity).
    split; [lia|reflexivity].
Qed.

Lemma parse_line_skipped (line : list byte) (ln : Z) (s : state) :
  alloc_ok (tick s) = true -> candidate line = false ->
  parse_line line ln s = (None, set_tick (1 + tick s) s).
Proof.
  unfold parse_line, auparse_init, alloc, candidate. intros A Hc.
  rewrite A. simpl. destruct (skip_spaces line) as [|c line'].
  - destruct s; reflexivity.
  - apply negb_false_iff in Hc. rewrite Hc. destruct s; reflexivity.
Qed.

Lemma read_file_eof (ln : Z) (L : filter_list) (s : state) :
  read_file [] ln L s = (L, s).
Proof.
  unfold read_file. rewrite read_rules_S. unfold get_line.
  rewrite get_line_loop_eof by apply BUF_SIZE_ge_2. reflexivity.
Qed.

Lemma count_invalid_cons (l : list byte) (ls : list (list byte)) :
  count_invalid (l :: ls)
  = ((if invalid_line l then 1 else 0) + count_invalid ls)%nat.
Proof.
  unfold count_invalid. simpl. destruct (invalid_line l); reflexivity.
Qed.

Lemma errors_set_tick (n : nat) (s : state) : errors (set_tick n s) = errors s.
Proof. destruct s; reflexivity. Qed.

Lemma errors_emit (e : event) (s : state) : errors (emit e s) = errors s.
Proof. destruct s; reflexivity. Qed.

Lemma errors_set_errors (z : Z) (s : state) : errors (set_errors z s) = z.
Proof. destruct s; reflexivity. Qed.

Lemma read_file_text_lines (Hmem : forall n, alloc_ok n = true) :
  forall ls tail ln L s,
    forallb text_line ls = true -> text_line tail = true ->
    0 <= ln -> ln + Z.of_nat (length ls) <= INT_MAX ->
    0 <= errors s -> errors s + Z.of_nat (length ls) <= INT_MAX ->
    fst (read_file (unlines ls ++ tail) ln L s) = L ++ rules_of_lines ln ls /\
    errors (snd (read_file (unlines ls ++ tail) ln L s))
    = errors s + Z.of_nat (count_invalid ls).
Proof.
  induction ls as [|l ls IH]; intros tail ln L s Hls Htail Hln Hlnmax He Hemax.
  - simpl. rewrite app_nil_r. unfold count_invalid. simpl.
    destruct tail as [|b tail].
    + rewrite read_file_eof. simpl. split; [reflexivity|lia].
    + rewrite read_file_unterminated by (auto; discriminate). simpl.
      split; [reflexivity|]. destruct s; simpl; lia.
  - simpl in Hls. apply andb_true_iff in Hls. destruct Hls as [Hl Hls].
    replace (unlines (l :: ls) ++ tail) with (l ++ NL :: (unlines ls ++ tail))
      by (unfold unlines; simpl; rewrite <- !app_assoc; reflexivity).
    simpl length in *. simpl rules_of_lines. rewrite count_invalid_cons.
    unfold valid_line, invalid_line, fits.
    assert (Hincr : int_incr ln = ln + 1) by (apply int_incr_small; lia).
    destruct (Nat.leb_spec (length l + 2) BUF_SIZE) as [Hfit|Hlong]; simpl andb.
    + rewrite read_file_short, Hincr by assumption.
      destruct (candidate l) eqn:Hc; simpl andb.
      * destruct (Z.eqb_spec (ausearch_add_expression (skip_spaces l)) 0)
          as [Hrc|Hrc]; simpl negb; cbv iota.
        -- rewrite parse_line_accepted by auto.
           set (s1 := emit _ _).
           assert (He1 : errors s1 = errors s)
             by (subst s1; rewrite errors_emit, errors_set_tick; reflexivity).
           pose proof (IH tail (ln + 1)
                         (append_rule L (mk_rule (skip_spaces l) (ln + 1))) s1
                         Hls Htail ltac:(lia) ltac:(lia) ltac:(lia) ltac:(lia))
             as [IH1 IH2].
           rewrite IH1, IH2. unfold append_rule. rewrite <- app_assoc.
           split; [reflexivity|]. lia.
        -- rewrite parse_line_rejected by auto.
           set (s1 := set_errors _ _).
           assert (He1 : errors s1 = errors s + 1).
           { subst s1. rewrite errors_set_errors. apply int_incr_small. lia. }
           pose proof (IH tail (ln + 1) L s1 Hls Htail
                      ltac:(lia) ltac:(lia) ltac:(lia) ltac:(lia)) as [IH1 IH2].
           rewrite IH1, IH2. split; [reflexivity|]. lia.
      * rewrite parse_line_skipped by auto.
        set (s1 := set_tick _ _).
        assert (He1 : errors s1 = errors s)
          by (subst s1; apply errors_set_tick).
        pose proof (IH tail (ln + 1) L s1 Hls Htail
                      ltac:(lia) ltac:(lia) ltac:(lia) ltac:(lia)) as [IH1 IH2].
        rewrite IH1, IH2. split; [reflexivity|]. lia.
    + rewrite read_file_long, Hincr by (auto; lia).
      set (s1 := syslog _ _ _).
      assert (He1 : errors s1 = errors s)
        by (subst s1; apply errors_emit).
      pose proof (IH tail (ln + 1) L s1 Hls Htail
                      ltac:(lia) ltac:(lia) ltac:(lia) ltac:(lia)) as [IH1 IH2].
      rewrite IH1, IH2. split; [reflexivity|]. lia.
Qed.

Lemma load_rules_text (ls : list (list byte)) (tail : list byte)
    (st : stat) (s : state) :
  (forall n, alloc_ok n = true) ->
  conf_file s = Opened (Some st) (unlines ls ++ tail) ->
  gate_failed (conf_file s) = false ->
  forallb text_line ls = true -> text_line tail = true ->
  Z.of_nat (length ls) <= INT_MAX ->
  fst (load_rules s) = (Z.of_nat (count_invalid ls), rules_of_lines 0 ls).
Proof.
  intros Hmem Hconf Hgate Hls Htail Hlen. unfold load_rules, fdopen, alloc.
  replace (conf_file (set_errors 0 s)) with (conf_file s) by (destruct s; reflexivity).
  unfold gate_failed in Hgate. rewrite Hconf in Hgate |- *.
  apply orb_false_iff in Hgate. destruct Hgate as [Hgate Hreg].
  apply orb_false_iff in Hgate. destruct Hgate as [Huid Hww].
  rewrite Huid, Hww, Hreg, Hmem. simpl negb. cbv iota.
  set (s1 := set_tick _ _).
  assert (He : errors s1 = 0) by (subst s1; destruct s; reflexivity).
  pose proof (read_file_text_lines Hmem ls tail 0 reset_rules s1 Hls Htail
                ltac:(lia) ltac:(lia) ltac:(lia) ltac:(lia)) as [H1 H2].
  destruct (read_file (unlines ls ++ tail) 0 reset_rules s1) as [l s2].
  simpl fst in *. simpl snd in *. unfold reset_rules in H1. simpl app in H1.
  rewrite H2, He. subst l. reflexivity.
Qed.

(** X7. What [load_rules] computes on a file of text lines, when memory
    is granted: the list holds, in order, one rule for every line that
    fits the buffer, is neither blank nor a comment, and whose expression
    (the line without its leading spaces) the engine accepts, numbered
    by its line; the return value counts the lines the engine refused.
    Bytes behind the last newline are not loaded. *)
Theorem load_rules_on_text_file (ls : list (list byte)) (tail : list byte)
    (st : stat) (s : state) :
  (forall n, alloc_ok n = true) ->
  conf_file s = Opened (Some st) (unlines ls ++ tail) ->
  gate_failed (conf_file s) = false ->
  forallb text_line ls = true -> text_line tail = true ->
  Z.of_nat (length ls) <= INT_MAX ->
  fst (load_rules s) = (Z.of_nat (count_invalid ls), rules_of_lines 0 ls).
Proof. apply load_rules_text. Qed.

(** X3. A last line that no newline ends is not loaded: after the lines
    before it, reading stops with the rules gathered so far and one
    warning for the line. *)
Theorem last_line_without_newline_is_dropped (ls : list (list byte))
    (tail : list byte) (ln : Z) (L : filter_list) (s : state) :
  forallb text_line ls = true -> text_line tail = true -> tail <> [] ->
  exists ln1 L1 s1,
    (forall rest,
       read_file (unlines ls ++ rest) ln L s = read_file rest ln1 L1 s1) /\
    read_file (unlines ls ++ tail) ln L s
    = (L1, syslog LOG_WARNING (Msg_too_long ln1) s1).
Proof.
  intros Hls Htail Hne.
  destruct (read_file_lines ls Hls ln L s) as (ln1 & L1 & s1 & H).
  exists ln1, L1, s1. split; [exact H|].
  rewrite H. apply read_file_unterminated; assumption.
Qed.

End LoaderMore.

(** ** Handling events *)

Lemma io_frame_refl (s : state) : io_frame s s.
Proof. destruct s; reflexivity. Qed.

Lemma io_frame_trans (s1 s2 s3 : state) :
  io_frame s1 s2 -> io_frame s2 s3 -> io_frame s1 s3.
Proof.
  destruct s1, s2, s3. unfold io_frame, set_trace, set_tick, set_pipe. simpl.
  intros H1 H2. injection H1 as <- <- <- <- <- <- <- <- <-.
  injection H2 as <- <- <- <- <- <- <- <- <-. reflexivity.
Qed.

Lemma io_frame_fields (s s' : state) :
  io_frame s s' ->
  stop s' = stop s /\ hup s' = hup s /\ errors s' = errors s /\
  rule_list s' = rule_list s /\ cpid s' = cpid s /\ ppid s' = ppid s /\
  rules_loaded s' = rules_loaded s /\ au_exprs s' = au_exprs s /\
  conf_file s' = conf_file s.
Proof.
  destruct s, s'. unfold io_frame, set_trace, set_tick, set_pipe. simpl.
  intros H. injection H as <- <- <- <- <- <- <- <- <-. repeat split.
Qed.

Section ClassifierMore.
Context {E : Env}.

Lemma write_records_io_frame (recs : list (list byte)) :
  forall s, io_frame s (write_records recs s).
Proof.
  induction recs as [|r recs IH]; intros s; simpl.
  - apply io_frame_refl.
  - unfold write.
    destruct (write_ok (tick s)); simpl negb; cbv iota;
      [|destruct s; reflexivity].
    match goal with |- context [write_ok ?t] => destruct (write_ok t) end;
      simpl negb; cbv iota; [|destruct s; reflexivity].
    eapply io_frame_trans; [|apply IH]. destruct s; reflexivity.
Qed.

Lemma write_records_prefix (recs : list (list byte)) :
  forall s, exists sent rest,
    record_lines recs = sent ++ rest /\
    pipe (write_records recs s) = pipe s ++ sent.
Proof.
  induction recs as [|r recs IH]; intros s; simpl.
  - exists [], []. split; [reflexivity|]. symmetry. apply app_nil_r.
  - unfold write.
    destruct (write_ok (tick s)); simpl negb; cbv iota.
    2:{ exists [], (record_lines (r :: recs)).
        split; [reflexivity|]. destruct s; simpl. rewrite app_nil_r.
        reflexivity. }
    match goal with |- context [write_ok ?t] => destruct (write_ok t) end;
      simpl negb; cbv iota.
    2:{ exists r, ([NL] ++ record_lines recs). split.
        - unfold record_lines. simpl. rewrite <- app_assoc. reflexivity.
        - destruct s; reflexivity. }
    match goal with |- context [write_records recs ?t] =>
      destruct (IH t) as (sent & rest & Hs & Hp); rewrite Hp end.
    exists (r ++ [NL] ++ sent), rest. split.
    + unfold record_lines in *. simpl. rewrite Hs, <- !app_assoc. reflexivity.
    + destruct s; simpl. rewrite <- !app_assoc. reflexivity.
Qed.

Lemma add_rules_fields (l : filter_list) :
  forall s,
    au_exprs (add_rules l s) = au_exprs s ++ map expr (filter accepted l) /\
    rule_list (add_rules l s) = rule_list s /\ hup (add_rules l s) = hup s /\
    rules_loaded (add_rules l s) = rules_loaded s.
Proof.
  induction l as [|r l IH]; intros s; simpl.
  - rewrite app_nil_r. repeat split.
  - unfold accepted at 1.
    destruct (ausearch_add_expression (expr r) =? 0); simpl negb; cbv iota;
      match goal with |- context [add_rules l ?t] =>
        destruct (IH t) as (H1 & H2 & H3 & H4); rewrite H1, H2, H3, H4 end;
      destruct s; simpl; rewrite <- ?app_assoc; repeat split.
Qed.

Lemma reload_config_fields (s : state) :
  au_exprs (reload_config s) = au_exprs s /\
  rules_loaded (reload_config s) = rules_loaded s /\
  hup (reload_config s) = 0 /\
  (forallb accepted (rule_list s) = true ->
   forallb accepted (rule_list (reload_config s)) = true).
Proof.
  unfold reload_config.
  pose proof (load_rules_well_formed (store_hup 0 s)) as WF.
  destruct (load_rules (store_hup 0 s)) as [[rc l] s1] eqn:L.
  apply load_rules_inv in L. destruct L as (F & _).
  apply frame_fields in F.
  destruct F as (_ & Hh & Hl & _ & _ & Hrl & Hau & _).
  replace (au_exprs (store_hup 0 s)) with (au_exprs s) in Hau by (destruct s; reflexivity).
  replace (rules_loaded (store_hup 0 s)) with (rules_loaded s) in Hrl by (destruct s; reflexivity).
  replace (hup (store_hup 0 s)) with 0 in Hh by (destruct s; reflexivity).
  replace (rule_list (store_hup 0 s)) with (rule_list s) in Hl by (destruct s; reflexivity).
  destruct (negb (rc =? 0)).
  - replace (au_exprs (syslog LOG_INFO Msg_not_reloaded s1)) with (au_exprs s1) by (destruct s1; reflexivity).
    replace (rules_loaded (syslog LOG_INFO Msg_not_reloaded s1)) with (rules_loaded s1) by (destruct s1; reflexivity).
    replace (hup (syslog LOG_INFO Msg_not_reloaded s1)) with (hup s1) by (destruct s1; reflexivity).
    replace (rule_list (syslog LOG_INFO Msg_not_reloaded s1)) with (rule_list s1) by (destruct s1; reflexivity).
    rewrite Hau, Hrl, Hh, Hl. repeat split; auto.
  - replace (au_exprs (syslog LOG_INFO Msg_reloaded (set_rule_list l s1))) with (au_exprs s1) by (destruct s1; reflexivity).
    replace (rules_loaded (syslog LOG_INFO Msg_reloaded (set_rule_list l s1))) with (rules_loaded s1) by (destruct s1; reflexivity).
    replace (hup (syslog LOG_INFO Msg_reloaded (set_rule_list l s1))) with (hup s1) by (destruct s1; reflexivity).
    replace (rule_list (syslog LOG_INFO Msg_reloaded (set_rule_list l s1))) with l by (destruct s1; reflexivity).
    rewrite Hau, Hrl, Hh. repeat split; auto. intros _.
    simpl in WF. clear - WF. induction l as [|r l IH]; simpl in *; auto.
    apply andb_true_iff in WF. destruct WF as [Hr Hl].
    rewrite IH by assumption. unfold well_formed_rule in Hr. unfold accepted.
    repeat (apply andb_true_iff in Hr; destruct Hr as [Hr ?]). rewrite Hr. reflexivity.
Qed.

Lemma filter_all {A : Type} (f : A -> bool) (l : list A) :
  forallb f l = true -> filter f l = l.
Proof.
  induction l as [|a l IH]; simpl; intros H; [reflexivity|].
  apply andb_true_iff in H. destruct H as [Ha Hl]. rewrite Ha, IH by assumption.
  reflexivity.
Qed.

Lemma register_rules_flags (s : state) :
  hup (register_rules s) = 0 /\ rules_loaded (register_rules s) <> 0.
Proof.
  unfold register_rules.
  destruct (Z.eqb_spec (rules_loaded s) 0) as [Hrl|Hrl];
    destruct (Z.eqb_spec (hup s) 0) as [Hh|Hh]; simpl orb; simpl negb; cbv iota;
    try (split; assumption).
  - destruct (add_rules_fields (rule_list s) s) as (_ & _ & H3 & _).
    replace (hup (set_rules_loaded 1 (add_rules (rule_list s) s)))
      with (hup (add_rules (rule_list s) s))
      by (destruct (add_rules (rule_list s) s); reflexivity).
    replace (rules_loaded (set_rules_loaded 1 (add_rules (rule_list s) s)))
      with 1 by (destruct (add_rules (rule_list s) s); reflexivity).
    rewrite H3. split; [assumption|discriminate].
  - set (sa := emit Ausearch_clear _).
    destruct (add_rules_fields (rule_list sa) sa) as (_ & _ & H3 & _).
    replace (hup (set_rules_loaded 1 (add_rules (rule_list sa) sa)))
      with (hup (add_rules (rule_list sa) sa))
      by (destruct (add_rules (rule_list sa) sa); reflexivity).
    replace (rules_loaded (set_rules_loaded 1 (add_rules (rule_list sa) sa)))
      with 1 by (destruct (add_rules (rule_list sa) sa); reflexivity).
    rewrite H3. split; [|discriminate].
    subst sa. destruct (reload_config s); reflexivity.
  - set (sa := emit Ausearch_clear _).
    destruct (add_rules_fields (rule_list sa) sa) as (_ & _ & H3 & _).
    replace (hup (set_rules_loaded 1 (add_rules (rule_list sa) sa)))
      with (hup (add_rules (rule_list sa) sa))
      by (destruct (add_rules (rule_list sa) sa); reflexivity).
    replace (rules_loaded (set_rules_loaded 1 (add_rules (rule_list sa) sa)))
      with 1 by (destruct (add_rules (rule_list sa) sa); reflexivity).
    rewrite H3. split; [|discriminate].
    subst sa. destruct (reload_config s); reflexivity.
Qed.

Lemma register_rules_in_sync (s : state) :
  engine_in_sync s ->
  engine_in_sync (register_rules s) /\
  au_exprs (register_rules s) = map expr (rule_list (register_rules s)).
Proof.
  intros [Hacc Hau].
  assert (Step : forall sa,
            forallb accepted (rule_list sa) = true -> au_exprs sa = [] ->
            engine_in_sync (set_rules_loaded 1 (add_rules (rule_list sa) sa)) /\
            au_exprs (set_rules_loaded 1 (add_rules (rule_list sa) sa))
            = map expr (rule_list (set_rules_loaded 1 (add_rules (rule_list sa) sa)))).
  { intros sa Ha He.
    destruct (add_rules_fields (rule_list sa) sa) as (H1 & H2 & _ & _).
    rewrite He, filter_all in H1 by assumption. simpl in H1.
    unfold engine_in_sync.
    replace (rule_list (set_rules_loaded 1 (add_rules (rule_list sa) sa)))
      with (rule_list (add_rules (rule_list sa) sa))
      by (destruct (add_rules (rule_list sa) sa); reflexivity).
    replace (au_exprs (set_rules_loaded 1 (add_rules (rule_list sa) sa)))
      with (au_exprs (add_rules (rule_list sa) sa))
      by (destruct (add_rules (rule_list sa) sa); reflexivity).
    replace (rules_loaded (set_rules_loaded 1 (add_rules (rule_list sa) sa)))
      with 1 by (destruct (add_rules (rule_list sa) sa); reflexivity).
    rewrite H1, H2. simpl. repeat split; assumption. }
  unfold register_rules.
  destruct (Z.eqb_spec (rules_loaded s) 0) as [Hrl|Hrl];
    destruct (Z.eqb_spec (hup s) 0) as [Hh|Hh]; simpl orb; simpl negb; cbv iota.
  - apply Step; assumption.
  - destruct (reload_config_fields s) as (_ & _ & _ & Hacc').
    apply Step.
    + replace (rule_list (emit Ausearch_clear
                 (set_au_exprs [] (store_hup 0 (reload_config s)))))
        with (rule_list (reload_config s)) by (destruct (reload_config s); reflexivity).
      auto.
    + destruct (reload_config s); reflexivity.
  - split; [split; [assumption|]|assumption].
    apply Z.eqb_neq in Hrl. rewrite Hrl. assumption.
  - destruct (reload_config_fields s) as (_ & _ & _ & Hacc').
    apply Step.
    + replace (rule_list (emit Ausearch_clear
                 (set_au_exprs [] (store_hup 0 (reload_config s)))))
        with (rule_list (reload_config s)) by (destruct (reload_config s); reflexivity).
      auto.
    + destruct (reload_config s); reflexivity.
Qed.

Lemma handle_event_io_frame (config : filter_conf) (ev : audit_event) (s : state) :
  io_frame (register_rules s) (handle_event config ev s).
Proof.
  unfold handle_event.
  destruct (forward_event (mode config)
              (ausearch_cur_event (au_exprs (register_rules s)) ev)) as [fwd|].
  - destruct (negb (fwd =? 0)).
    + apply write_records_io_frame.
    + apply io_frame_refl.
  - destruct (register_rules s); reflexivity.
Qed.

(** X8. After any event [hup] is clear and [rules_loaded] is set, so the
    next event neither reloads nor registers the rules again, unless a
    SIGHUP arrives in between. *)
Theorem rules_are_registered_once (config : filter_conf) (ev : audit_event)
    (s : state) :
  let s' := handle_event config ev s in
  hup s' = 0 /\ rules_loaded s' <> 0 /\ register_rules s' = s'.
Proof.
  intros s'.
  destruct (io_frame_fields _ _ (handle_event_io_frame config ev s))
    as (_ & Hh & _ & _ & _ & _ & Hrl & _).
  destruct (register_rules_flags s) as [F1 F2].
  fold s' in Hh, Hrl. rewrite F1 in Hh.
  assert (Hrl' : rules_loaded s' <> 0) by congruence.
  repeat split; auto.
  unfold register_rules. rewrite Hh.
  apply Z.eqb_neq in Hrl'. rewrite Hrl'. reflexivity.
Qed.

(** X9. The expressions registered with the engine are those of the rule
    list: when they were before an event (none before the first one), the
    event is evaluated against exactly the expressions of the current
    rule list, in order, and they still agree after it. *)
Theorem handle_event_keeps_engine_in_sync (config : filter_conf)
    (ev : audit_event) (s : state) :
  engine_in_sync s ->
  au_exprs (register_rules s) = map expr (rule_list (register_rules s)) /\
  engine_in_sync (handle_event config ev s).
Proof.
  intros H. destruct (register_rules_in_sync s H) as [[Hacc Hau] Hmap].
  split; [assumption|].
  destruct (io_frame_fields _ _ (handle_event_io_frame config ev s))
    as (_ & _ & _ & Hl & _ & _ & Hrl & Ha & _).
  unfold engine_in_sync. rewrite Hl, Hrl, Ha. split; assumption.
Qed.

(** X10. Whatever the engine answers and whichever writes fail, an event
    adds to the pipe a prefix of its own records, each followed by a
    newline, and [handle_event] never asks the plugin to stop. *)
Theorem consumer_sees_a_prefix_of_the_event (config : filter_conf)
    (ev : audit_event) (s : state) :
  let s' := handle_event config ev s in
  stop s' = stop s /\
  exists sent rest,
    record_lines (ev_records ev) = sent ++ rest /\ pipe s' = pipe s ++ sent.
Proof.
  intros s'. destruct (register_rules_silent s) as (P1 & S1 & _).
  destruct (io_frame_fields _ _ (handle_event_io_frame config ev s))
    as (Hst & _).
  fold s' in Hst. split; [congruence|].
  unfold s', handle_event.
  destruct (forward_event (mode config)
              (ausearch_cur_event (au_exprs (register_rules s)) ev)) as [fwd|].
  - destruct (negb (fwd =? 0)).
    + destruct (write_records_prefix (ev_records ev) (register_rules s))
        as (sent & rest & Hs & Hp).
      exists sent, rest. rewrite Hp, P1. split; assumption || reflexivity.
    + exists [], (record_lines (ev_records ev)). rewrite app_nil_r.
      split; [reflexivity|assumption].
  - exists [], (record_lines (ev_records ev)). rewrite app_nil_r.
    split; [reflexivity|]. rewrite <- P1. destruct (register_rules s); reflexivity.
Qed.

Lemma reload_config_rule_list (ls : list (list byte)) (tail : list byte)
    (st : stat) (s : state) :
  (forall n, alloc_ok n = true) ->
  conf_file s = Opened (Some st) (unlines ls ++ tail) ->
  gate_failed (conf_file s) = false ->
  forallb text_line ls = true -> text_line tail = true ->
  Z.of_nat (length ls) <= INT_MAX ->
  rule_list (reload_config s)
  = if (count_invalid ls =? 0)%nat then rules_of_lines 0 ls else rule_list s.
Proof.
  intros Hmem Hconf Hgate Hls Htail Hlen. unfold reload_config.
  assert (Hc : conf_file (store_hup 0 s) = conf_file s) by (destruct s; reflexivity).
  pose proof (load_rules_text ls tail st (store_hup 0 s) Hmem
                ltac:(rewrite Hc; exact Hconf) ltac:(rewrite Hc; exact Hgate)
                Hls Htail Hlen) as L.
  destruct (load_rules (store_hup 0 s)) as [[rc l] s1] eqn:R.
  simpl in L. injection L as -> ->.
  apply load_rules_inv in R. destruct R as (F & _).
  apply frame_fields in F. destruct F as (_ & _ & Hl & _).
  replace (rule_list (store_hup 0 s)) with (rule_list s) in Hl by (destruct s; reflexivity).
  destruct (count_invalid ls) as [|n]; simpl.
  - destruct s1; reflexivity.
  - rewrite <- Hl. destruct s1; reflexivity.
Qed.

(** X11. A SIGHUP takes effect at the next event.  The handler passes
    the signal on to the consumer and sets [hup]; the next event reloads
    the file, and is evaluated against the rules now in the list: those
    of the file when the engine refused none of its lines, the rules of
    before otherwise. *)
Theorem sighup_reloads_at_next_event (config : filter_conf) (ev : audit_event)
    (ls : list (list byte)) (tail : list byte) (st : stat) (s : state) :
  (forall n, alloc_ok n = true) ->
  conf_file s = Opened (Some st) (unlines ls ++ tail) ->
  gate_failed (conf_file s) = false ->
  forallb text_line ls = true -> text_line tail = true ->
  Z.of_nat (length ls) <= INT_MAX ->
  engine_in_sync s ->
  let s0 := hup_handler SIGHUP s in
  let s1 := handle_event config ev s0 in
  events_since s s0 = [Kill (cpid s) SIGHUP; Store_hup 1] /\
  hup s1 = 0 /\
  rule_list s1
  = (if (count_invalid ls =? 0)%nat then rules_of_lines 0 ls else rule_list s) /\
  au_exprs s1 = map expr (rule_list s1).
Proof.
  intros Hmem Hconf Hgate Hls Htail Hlen Hsync s0 s1.
  assert (Hh : hup s0 = 1) by (destruct s; reflexivity).
  assert (Hc : conf_file s0 = conf_file s) by (destruct s; reflexivity).
  assert (Hl : rule_list s0 = rule_list s) by (destruct s; reflexivity).
  assert (Hsync0 : engine_in_sync s0).
  { destruct Hsync as [H1 H2]. split.
    - rewrite Hl. exact H1.
    - rewrite Hl. replace (au_exprs s0) with (au_exprs s) by (destruct s; reflexivity).
      replace (rules_loaded s0) with (rules_loaded s) by (destruct s; reflexivity).
      exact H2. }
  destruct (register_rules_in_sync s0 Hsync0) as [_ Hau].
  destruct (io_frame_fields _ _ (handle_event_io_frame config ev s0))
    as (_ & Hhup & _ & Hrl & _ & _ & _ & Ha & _).
  fold s1 in Hhup, Hrl, Ha.
  destruct (register_rules_flags s0) as [F1 _].
  split.
  { apply events_since_app. unfold s0. destruct s; simpl.
    rewrite <- app_assoc. reflexivity. }
  split; [congruence|].
  assert (Hreg : rule_list (register_rules s0) = rule_list (reload_config s0)).
  { unfold register_rules. rewrite Hh.
    rewrite orb_true_r. simpl negb. cbv iota.
    match goal with |- context [add_rules ?l ?t] =>
      destruct (add_rules_fields l t) as (_ & H2 & _) end.
    match goal with |- rule_list (set_rules_loaded 1 ?t) = _ =>
      replace (rule_list (set_rules_loaded 1 t)) with (rule_list t)
        by (destruct t; reflexivity) end.
    rewrite H2. destruct (reload_config s0); reflexivity. }
  split.
  - rewrite Hrl, Hreg, <- Hl.
    apply (reload_config_rule_list ls tail st s0 Hmem); try assumption;
      rewrite Hc; assumption.
  - rewrite Ha, Hrl. exact Hau.
Qed.

(** ** The verdict on an event *)

Lemma register_rules_rule_list (s : state) :
  rule_list (register_rules s)
  = if hup s =? 0 then rule_list s else rule_list (reload_config s).
Proof.
  assert (Step : forall t,
            rule_list (set_rules_loaded 1 (add_rules (rule_list t) t))
            = rule_list t).
  { intros t. destruct (add_rules_fields (rule_list t) t) as (_ & H & _).
    etransitivity; [|exact H].
    destruct (add_rules (rule_list t) t); reflexivity. }
  unfold register_rules.
  destruct (hup s =? 0); simpl negb.
  - rewrite orb_false_r. destruct (rules_loaded s =? 0); [|reflexivity].
    apply Step.
  - rewrite orb_true_r. rewrite Step. destruct (reload_config s); reflexivity.
Qed.

(** C1. The rule set an event is judged by is the rule list as the
    registration block of [handle_event] leaves it: the list of before,
    or the reloaded one after a SIGHUP.  When the engine holds what the
    list says, the verdict is the engine's evaluation of the event against
    the expressions of exactly these rules.  For an event with records to
    send, [handle_event] then forwards in ALLOWLIST mode exactly when the
    engine reports no match and in BLOCKLIST mode exactly when it reports a
    match; forwarding is running the record loop on the event, dropping
    leaves the state as the rule registration left it; and when the
    evaluation fails the call logs the error and returns, with nothing
    written to the pipe. *)
Theorem forward_iff_engine_verdict (config : filter_conf) (ev : audit_event)
    (s : state) :
  ev_records ev <> [] ->
  engine_in_sync s ->
  let s1 := register_rules s in
  let R := if hup s =? 0 then rule_list s else rule_list (reload_config s) in
  let rc := ausearch_cur_event (map expr R) ev in
  let s' := handle_event config ev s in
  (rule_list s1 = R /\ au_exprs s1 = map expr R /\ rule_list s' = R) /\
  (mode config = ALLOWLIST -> (forwarded s s' = true <-> rc = 0)) /\
  (mode config = BLOCKLIST -> (forwarded s s' = true <-> rc > 0)) /\
  (forwarded s s' = true -> s' = write_records (ev_records ev) s1) /\
  (0 <= rc -> forwarded s s' = false -> s' = s1) /\
  (rc < 0 ->
   s' = syslog LOG_ERR (Msg_cur_event rc) s1 /\
   forwarded s s' = false /\ pipe s' = pipe s).
Proof.
  intros Hne Hsync s1 R rc s'.
  assert (HR : rule_list s1 = R) by apply register_rules_rule_list.
  destruct (register_rules_in_sync s Hsync) as [_ Hau].
  fold s1 in Hau. rewrite HR in Hau.
  assert (HR' : rule_list s' = R).
  { destruct (io_frame_fields _ _ (handle_event_io_frame config ev s))
      as (_ & _ & _ & Hl & _).
    fold s' s1 in Hl. congruence. }
  split; [repeat split; assumption|].
  pose proof (handle_event_cases config ev s) as H. cbv zeta in H.
  change (register_rules s) with s1 in H. rewrite Hau in H.
  change (ausearch_cur_event (map expr R) ev) with rc in H.
  change (handle_event config ev s) with s' in H.
  unfold forward_event in H.
  destruct (Z.gtb_spec rc 0) as [Hpos|Hnpos].
  - destruct (Z.eqb_spec (mode config) ALLOWLIST) as [Hm|Hm]; simpl in H.
    + destruct H as (H1 & H2 & H3).
      repeat split; intros; try congruence; try lia.
      unfold BLOCKLIST, ALLOWLIST in *. congruence.
    + destruct H as (H1 & H2). specialize (H2 Hne).
      repeat split; intros; try congruence; try lia.
  - destruct (Z.eqb_spec rc 0) as [Hz|Hnz].
    + destruct (Z.eqb_spec (mode config) ALLOWLIST) as [Hm|Hm]; simpl in H.
      * destruct H as (H1 & H2). specialize (H2 Hne).
        repeat split; intros; try congruence; try lia.
        unfold BLOCKLIST, ALLOWLIST in *. congruence.
      * destruct H as (H1 & H2 & H3).
        repeat split; intros; try congruence; try lia.
    + destruct H as (H1 & H2 & H3).
      repeat split; intros; try congruence; try lia.
Qed.

End ClassifierMore.

(** ** Start-up *)

Lemma byte_val_inj (a b : byte) : byte_val a = byte_val b -> a = b.
Proof.
  unfold byte_val. intros H. apply N2Z.inj in H.
  apply (f_equal Byte.of_N) in H. rewrite !Byte.of_to_N in H. congruence.
Qed.

Lemma byte_val_NUL (a : byte) : byte_val a = 0 <-> a = NUL.
Proof.
  split; [|intros ->; reflexivity].
  intros H. apply byte_val_inj. rewrite H. reflexivity.
Qed.

Lemma tolower_NUL (a : byte) : tolower a = NUL <-> a = NUL.
Proof.
  split; [|intros ->; reflexivity].
  destruct a; vm_compute; intros H; try reflexivity; discriminate H.
Qed.

Lemma strcmp_eq (a : list byte) :
  forall b, strcmp a b = 0 <-> c_str a = c_str b.
Proof.
  induction a as [|x a IH]; intros [|y b]; simpl.
  - tauto.
  - destruct (Byte.eqb y NUL) eqn:Hy.
    + apply byte_eqb_eq in Hy. subst. simpl. tauto.
    + apply byte_eqb_neq in Hy. split; [|discriminate].
      intros H. exfalso. apply Hy, byte_val_NUL. lia.
  - destruct (Byte.eqb x NUL) eqn:Hx.
    + apply byte_eqb_eq in Hx. subst. simpl. tauto.
    + apply byte_eqb_neq in Hx. split; [|discriminate].
      intros H. exfalso. apply Hx, byte_val_NUL. assumption.
  - destruct (Byte.eqb x y) eqn:Hxy.
    + apply byte_eqb_eq in Hxy. subst y.
      destruct (Byte.eqb x NUL); [tauto|]. rewrite IH.
      split; [congruence|]. intros H. injection H. auto.
    + apply byte_eqb_neq in Hxy. split.
      * intros H. exfalso. apply Hxy, byte_val_inj. lia.
      * destruct (Byte.eqb x NUL) eqn:Hx, (Byte.eqb y NUL) eqn:Hy;
          try discriminate.
        -- apply byte_eqb_eq in Hx, Hy. congruence.
        -- intros H. injection H. intros. contradiction.
Qed.

Lemma strcasecmp_eq (a : list byte) :
  forall b, strcasecmp a b = 0 <->
            map tolower (c_str a) = map tolower (c_str b).
Proof.
  induction a as [|x a IH]; intros [|y b]; simpl.
  - tauto.
  - destruct (Byte.eqb y NUL) eqn:Hy.
    + apply byte_eqb_eq in Hy. subst. split; intros; reflexivity.
    + apply byte_eqb_neq in Hy. split; [|discriminate].
      intros H. exfalso. apply Hy, tolower_NUL, byte_val_NUL. lia.
  - destruct (Byte.eqb x NUL) eqn:Hx.
    + apply byte_eqb_eq in Hx. subst. split; intros; reflexivity.
    + apply byte_eqb_neq in Hx. split; [|discriminate].
      intros H. exfalso. apply Hx, tolower_NUL, byte_val_NUL. assumption.
  - destruct (Byte.eqb (tolower x) (tolower y)) eqn:Hxy.
    + apply byte_eqb_eq in Hxy.
      destruct (Byte.eqb (tolower x) NUL) eqn:Hx.
      * apply byte_eqb_eq in Hx. assert (Hy : tolower y = NUL) by congruence.
        apply (proj1 (tolower_NUL _)) in Hx. apply (proj1 (tolower_NUL _)) in Hy.
        subst. split; intros; reflexivity.
      * apply byte_eqb_neq in Hx.
        assert (Hy : tolower y <> NUL) by congruence.
        assert (Hx' : x <> NUL) by (intros ->; apply Hx; reflexivity).
        assert (Hy' : y <> NUL) by (intros ->; apply Hy; reflexivity).
        apply byte_eqb_neq in Hx', Hy'. rewrite Hx', Hy'. simpl.
        rewrite IH. split; [congruence|]. intros H. injection H. auto.
    + apply byte_eqb_neq in Hxy. split.
      * intros H. exfalso. apply Hxy, byte_val_inj. lia.
      * destruct (Byte.eqb x NUL) eqn:Hx, (Byte.eqb y NUL) eqn:Hy; simpl;
          try discriminate.
        -- apply byte_eqb_eq in Hx, Hy. subst. exfalso. apply Hxy. reflexivity.
        -- intros H. injection H. intros. contradiction.
Qed.

Section StartupFacts.
Context {E : Env}.

Lemma bytes_eqb_eq (a : list byte) : forall b, bytes_eqb a b = true <-> a = b.
Proof.
  induction a as [|x a IH]; intros [|y b]; simpl; try (split; congruence).
  rewrite andb_true_iff, byte_eqb_eq, IH. split.
  - intros [-> ->]. reflexivity.
  - intros H. injection H. auto.
Qed.

Lemma strcasecmp_name (w name : list byte) :
  map tolower (c_str name) = name ->
  (strcasecmp w name =? 0) = bytes_eqb (map tolower (c_str w)) name.
Proof.
  intros Hname.
  destruct (bytes_eqb (map tolower (c_str w)) name) eqn:Hb.
  - apply bytes_eqb_eq in Hb. apply Z.eqb_eq, strcasecmp_eq. congruence.
  - apply Z.eqb_neq. intros H. apply strcasecmp_eq in H.
    rewrite Hname in H. apply bytes_eqb_eq in H. congruence.
Qed.

Lemma strcmp_flag (w : list byte) :
  (strcmp flag_check w =? 0) = bytes_eqb (c_str w) flag_check.
Proof.
  destruct (bytes_eqb (c_str w) flag_check) eqn:Hb.
  - apply bytes_eqb_eq in Hb. apply Z.eqb_eq, strcmp_eq. rewrite Hb. reflexivity.
  - apply Z.eqb_neq. intros H. apply strcmp_eq in H.
    change (c_str flag_check) with flag_check in H. symmetry in H.
    apply bytes_eqb_eq in H. congruence.
Qed.

Lemma dup_args_spec (args : list (list byte)) :
  forall s,
    dup_args args s =
      (if allocs_ok (tick s) (length args) then Some args else None,
       snd (dup_args args s)) /\
    (allocs_ok (tick s) (length args) = true ->
     snd (dup_args args s) = set_tick (tick s + length args) s).
Proof.
  induction args as [|a args IH]; intros s.
  - simpl. split; [reflexivity|]. intros _. rewrite Nat.add_0_r.
    destruct s; reflexivity.
  - simpl dup_args. unfold strdup, alloc. unfold allocs_ok. simpl forallb.
    fold (allocs_ok (S (tick s)) (length args)).
    destruct (alloc_ok (tick s)); simpl negb; cbv iota; simpl andb.
    2:{ split; [reflexivity|discriminate]. }
    destruct (IH (set_tick (S (tick s)) s)) as [IH1 IH2].
    replace (tick (set_tick (S (tick s)) s)) with (S (tick s)) in IH1, IH2
      by (destruct s; reflexivity).
    rewrite IH1. simpl. split.
    + destruct (allocs_ok (S (tick s)) (length args)); reflexivity.
    + intros Hok. rewrite IH2 by assumption.
      replace (tick s + S (length args))%nat with (S (tick s) + length args)%nat by lia.
      destruct s; reflexivity.
Qed.

Lemma parse_args_unfold (argv : list (list byte)) (config : filter_conf)
    (s : state) :
  parse_args argv config s =
    if (length argv =? 3)%nat && bytes_eqb (c_str (nth 1 argv [])) flag_check
    then (0, mk_conf (mode config) (binary config) (binary_args config)
               (nth 2 argv []) 1, [], s)
    else if (length argv <=? 3)%nat
    then (1, config, [Startup_syslog LOG_ERR Msg_not_enough_arguments], s)
    else
      match mode_named (nth 1 argv []) with
      | None =>
          (1, config,
           [Startup_syslog LOG_ERR (Msg_invalid_mode (nth 1 argv []))], s)
      | Some m =>
          let config' := mk_conf m (nth 3 argv []) [] (nth 2 argv [])
                           (only_check config) in
          if negb (alloc_ok (tick s))
          then (1, config', [], set_tick (S (tick s)) s)
          else
            match dup_args (skipn 3 argv) (set_tick (S (tick s)) s) with
            | (None, s') => (1, config', [], s')
            | (Some args, s') =>
                (0, mk_conf m (nth 3 argv []) args (nth 2 argv [])
                      (only_check config), [], s')
            end
      end.
Proof.
  unfold parse_args, mode_named, malloc, alloc.
  rewrite strcmp_flag, !strcasecmp_name by reflexivity.
  destruct ((length argv =? 3)%nat && bytes_eqb (c_str (nth 1 argv [])) flag_check);
    [reflexivity|].
  destruct (length argv <=? 3)%nat; [reflexivity|].
  destruct (bytes_eqb (map tolower (c_str (nth 1 argv []))) name_allowlist);
    [reflexivity|].
  destruct (bytes_eqb (map tolower (c_str (nth 1 argv []))) name_blocklist);
    reflexivity.
Qed.

Lemma allocs_ok_S (from n : nat) :
  allocs_ok from (S n) = alloc_ok from && allocs_ok (S from) n.
Proof. reflexivity. Qed.

(** In filter mode with memory available: the mode named, the file, the
    consumer and its arguments, which start with the consumer itself. *)
Lemma parse_args_filter (argv : list (list byte)) (s : state) (m : Z) :
  (3 < length argv)%nat -> mode_named (nth 1 argv []) = Some m ->
  if allocs_ok (tick s) (length argv - 2)
  then parse_args argv config_init s
       = (0, mk_conf m (nth 3 argv []) (skipn 3 argv) (nth 2 argv []) 0, [],
          set_tick (tick s + (length argv - 2)) s)
  else fst (fst (fst (parse_args argv config_init s))) = 1.
Proof.
  intros Hlen Hm. rewrite parse_args_unfold.
  replace ((length argv =? 3)%nat) with false by (symmetry; apply Nat.eqb_neq; lia).
  replace ((length argv <=? 3)%nat) with false by (symmetry; apply Nat.leb_gt; lia).
  simpl andb. cbv iota. rewrite Hm. cbv zeta.
  replace (length argv - 2)%nat with (S (length (skipn 3 argv)))
    by (rewrite length_skipn; lia).
  rewrite allocs_ok_S.
  destruct (alloc_ok (tick s)); simpl negb; cbv iota;
    rewrite ?andb_true_l, ?andb_false_l; cbv iota; [|reflexivity].
  destruct (dup_args_spec (skipn 3 argv) (set_tick (S (tick s)) s)) as [D1 D2].
  replace (tick (set_tick (S (tick s)) s)) with (S (tick s)) in D1, D2
    by (destruct s; reflexivity).
  rewrite D1.
  destruct (allocs_ok (S (tick s)) (length (skipn 3 argv))); cbv iota;
    [|reflexivity].
  rewrite D2 by reflexivity.
  replace (tick s + S (length (skipn 3 argv)))%nat
    with (S (tick s) + length (skipn 3 argv))%nat by lia.
  destruct s; reflexivity.
Qed.

(** X12. [parse_args] returns 0 or 1, and 0 exactly for the command line
    [--check FILE] and for a command line [MODE FILE BINARY ARG...] whose
    mode is allowlist or blocklist in any case of letters, when memory is
    granted for the copies of the consumer's arguments. *)
Theorem parse_args_succeeds_iff (argv : list (list byte)) (s : state) :
  let rc := fst (fst (fst (parse_args argv config_init s))) in
  (rc = 0 \/ rc = 1) /\
  (rc = 0 <->
   (length argv = 3%nat /\ c_str (nth 1 argv []) = flag_check) \/
   ((3 < length argv)%nat /\ mode_named (nth 1 argv []) <> None /\
    allocs_ok (tick s) (length argv - 2) = true)).
Proof.
  intros rc. subst rc.
  destruct (Nat.eqb_spec (length argv) 3) as [H3|H3].
  - rewrite parse_args_unfold.
    replace ((length argv =? 3)%nat) with true by (symmetry; apply Nat.eqb_eq; lia).
    replace ((length argv <=? 3)%nat) with true by (symmetry; apply Nat.leb_le; lia).
    simpl andb.
    destruct (bytes_eqb (c_str (nth 1 argv [])) flag_check) eqn:Hf; simpl.
    + apply bytes_eqb_eq in Hf. split; [auto|]. split; [auto|reflexivity].
    + split; [auto|]. split; [discriminate|].
      intros [[_ H]|[H _]]; [|lia]. apply bytes_eqb_eq in H. congruence.
  - destruct (Nat.leb_spec (length argv) 3) as [Hle|Hgt].
    + rewrite parse_args_unfold.
      replace ((length argv =? 3)%nat) with false by (symmetry; apply Nat.eqb_neq; lia).
      replace ((length argv <=? 3)%nat) with true by (symmetry; apply Nat.leb_le; lia).
      simpl. split; [auto|]. split; [discriminate|].
      intros [[H _]|[H _]]; lia.
    + destruct (mode_named (nth 1 argv [])) as [m|] eqn:Hm.
      * pose proof (parse_args_filter argv s m Hgt Hm) as P.
        destruct (allocs_ok (tick s) (length argv - 2)); rewrite P; simpl.
        -- split; [auto|]. split; [|reflexivity].
           intros _. right. repeat split; [assumption|discriminate].
        -- split; [auto|]. split; [discriminate|].
           intros [[H _]|(_ & _ & H)]; [lia|discriminate].
      * rewrite parse_args_unfold.
        replace ((length argv =? 3)%nat) with false by (symmetry; apply Nat.eqb_neq; lia).
        replace ((length argv <=? 3)%nat) with false by (symmetry; apply Nat.leb_gt; lia).
        rewrite Hm. simpl. split; [auto|]. split; [discriminate|].
        intros [[H _]|(_ & H & _)]; [lia|congruence].
Qed.

Lemma parse_args_command (argv : list (list byte))
    (s : state) (m : Z) :
  (3 < length argv)%nat -> mode_named (nth 1 argv []) = Some m ->
  allocs_ok (tick s) (length argv - 2) = true ->
  parse_args argv config_init s
  = (0, mk_conf m (nth 3 argv []) (skipn 3 argv) (nth 2 argv []) 0, [],
     set_tick (tick s + (length argv - 2)) s) /\
  hd [] (skipn 3 argv) = nth 3 argv [] /\
  (m = ALLOWLIST \/ m = BLOCKLIST).
Proof.
  intros Hlen Hm Hok. pose proof (parse_args_filter argv s m Hlen Hm) as P.
  rewrite Hok in P. split; [exact P|]. split.
  - destruct argv as [|a0 [|a1 [|a2 [|a3 rest]]]]; simpl in Hlen; try lia.
    reflexivity.
  - unfold mode_named in Hm.
    destruct (bytes_eqb (map tolower (c_str (nth 1 argv []))) name_allowlist);
      [left; congruence|].
    destruct (bytes_eqb (map tolower (c_str (nth 1 argv []))) name_blocklist);
      [right; congruence|discriminate].
Qed.

(** X13. On [MODE FILE BINARY ARG...] the configuration [parse_args]
    builds has the mode named, the file and the binary of the command
    line; the consumer's arguments are the command line from BINARY on,
    so its argv[0] is BINARY; one call for memory is made for the array
    and one for each argument. *)
Theorem parse_args_builds_consumer_command (argv : list (list byte))
    (s : state) (m : Z) :
  (3 < length argv)%nat -> mode_named (nth 1 argv []) = Some m ->
  allocs_ok (tick s) (length argv - 2) = true ->
  parse_args argv config_init s
  = (0, mk_conf m (nth 3 argv []) (skipn 3 argv) (nth 2 argv []) 0, [],
     set_tick (tick s + (length argv - 2)) s) /\
  hd [] (skipn 3 argv) = nth 3 argv [] /\
  (m = ALLOWLIST \/ m = BLOCKLIST).
Proof. apply parse_args_command. Qed.

Lemma parse_args_facts (argv : list (list byte)) (s : state) rc config log s0 :
  parse_args argv config_init s = (rc, config, log, s0) ->
  forallb is_startup_syslog log = true /\
  (rc = 0 -> log = []) /\
  (rc = 0 -> only_check config = 0 ->
   (mode config = ALLOWLIST \/ mode config = BLOCKLIST) /\
   hd [] (binary_args config) = binary config /\
   binary_args config <> []) /\
  (rc = 0 -> only_check config <> 0 ->
   config = mk_conf (-1) [] [] (nth 2 argv []) 1 /\ s0 = s).
Proof.
  intros P.
  destruct (Nat.eqb_spec (length argv) 3) as [H3|H3].
  - rewrite parse_args_unfold in P.
    replace ((length argv =? 3)%nat) with true in P by (symmetry; apply Nat.eqb_eq; lia).
    replace ((length argv <=? 3)%nat) with true in P by (symmetry; apply Nat.leb_le; lia).
    simpl andb in P.
    destruct (bytes_eqb (c_str (nth 1 argv [])) flag_check);
      injection P as <- <- <- <-; simpl; repeat split; auto; try discriminate.
  - destruct (Nat.leb_spec (length argv) 3) as [Hle|Hgt].
    + rewrite parse_args_unfold in P.
      replace ((length argv =? 3)%nat) with false in P by (symmetry; apply Nat.eqb_neq; lia).
      replace ((length argv <=? 3)%nat) with true in P by (symmetry; apply Nat.leb_le; lia).
      simpl in P. injection P as <- <- <- <-. simpl.
      repeat split; auto; try discriminate.
    + destruct (mode_named (nth 1 argv [])) as [m|] eqn:Hm.
      * pose proof (parse_args_filter argv s m Hgt Hm) as Q.
        destruct (allocs_ok (tick s) (length argv - 2)) eqn:Hok.
        -- rewrite Q in P. injection P as <- <- <- <-. simpl.
           destruct (parse_args_command argv s m Hgt Hm Hok)
             as (_ & Hhd & Hmode).
           split; [reflexivity|]. split; [reflexivity|]. split.
           ++ intros _ _. split; [assumption|]. split; [assumption|].
              destruct argv as [|a0 [|a1 [|a2 [|a3 rest]]]]; simpl in Hgt; try lia.
              discriminate.
           ++ intros _ H. exfalso. apply H. reflexivity.
        -- rewrite P in Q. simpl in Q. subst rc.
           assert (Hlog : log = []).
           { rewrite parse_args_unfold in P.
             replace ((length argv =? 3)%nat) with false in P by (symmetry; apply Nat.eqb_neq; lia).
             replace ((length argv <=? 3)%nat) with false in P by (symmetry; apply Nat.leb_gt; lia).
             rewrite Hm in P. simpl andb in P. cbv iota zeta in P.
             destruct (negb (alloc_ok (tick s))); [congruence|].
             destruct (dup_args (skipn 3 argv) (set_tick (S (tick s)) s)) as [[args|] s1];
               congruence. }
           subst log. repeat split; auto; try discriminate.
      * rewrite parse_args_unfold in P.
        replace ((length argv =? 3)%nat) with false in P by (symmetry; apply Nat.eqb_neq; lia).
        replace ((length argv <=? 3)%nat) with false in P by (symmetry; apply Nat.leb_gt; lia).
        rewrite Hm in P. simpl in P. injection P as <- <- <- <-. simpl.
        repeat split; auto; try discriminate.
Qed.

(** X14. With [--check FILE], [main] only loads the rules of FILE: it
    installs no handler, opens no pipe and starts no consumer, and its
    exit status is 0 when the load returned 0 and 1 otherwise. *)
Theorem check_mode_only_validates (o : os) (argv : list (list byte))
    (s : state) :
  length argv = 3%nat -> c_str (nth 1 argv []) = flag_check ->
  main o argv s =
    let '(rc, l, s1) := load_rules (set_conf_file (fs o (nth 2 argv [])) s) in
    (Exit (if rc =? 0 then 0 else 1), mk_conf (-1) [] [] (nth 2 argv []) 1, [],
     set_rule_list l s1).
Proof.
  intros Hlen Hflag. unfold main. rewrite parse_args_unfold.
  rewrite Hlen, Hflag.
  replace (bytes_eqb flag_check flag_check) with true by reflexivity.
  simpl andb. cbv iota. simpl negb. cbv iota. simpl config_file.
  destruct (load_rules (set_conf_file (fs o (nth 2 argv [])) s)) as [[rc l] s1].
  destruct (rc =? 0); reflexivity.
Qed.

Lemma no_fork_in_syslog (log : list startup_event) :
  forallb is_startup_syslog log = true ->
  existsb is_fork log = false /\ existsb is_feed log = false /\
  existsb is_failed_init log = false.
Proof.
  induction log as [|e log IH]; simpl; [auto|].
  intros H. apply andb_true_iff in H. destruct H as [He Hl].
  destruct e; try discriminate. simpl. auto.
Qed.

(** The ways through [main], by what the startup log holds. *)
Lemma main_cases (o : os) (argv : list (list byte)) (s : state)
    out config log s' :
  main o argv s = (out, config, log, s') ->
  let '(prc, pconfig, plog, s0) := parse_args argv config_init s in
  let sf := set_conf_file (fs o (config_file pconfig)) s0 in
  let lrc := fst (fst (load_rules sf)) in
  config = pconfig /\
  ((existsb is_fork log = false /\ existsb is_feed log = false /\
    existsb is_failed_init log = false /\
    (out = Exit 0 ->
     prc = 0 /\ lrc = 0 /\ only_check config <> 0 /\ log = []))
   \/
   (prc = 0 /\ lrc = 0 /\ only_check config = 0 /\
    existsb is_fork log = true /\
    (existsb is_failed_init log = true ->
     out = Exit (-1) /\ exists s1, s' = kill (fork_rc o) SIGTERM s1) /\
    (out = Exit 0 <-> existsb is_feed log = true))).
Proof.
  unfold main.
  destruct (parse_args argv config_init s) as [[[prc pconfig] plog] s0] eqn:P.
  destruct (parse_args_facts _ _ _ _ _ _ P) as (Hsys & Hnil & _ & _).
  destruct (no_fork_in_syslog plog Hsys) as (NF & NE & NI).
  destruct (Z.eqb_spec prc 0) as [Hprc|Hprc]; simpl negb; cbv iota.
  2:{ intros H. injection H as <- <- <- <-. split; [reflexivity|]. left.
      repeat split; auto; intros; discriminate. }
  rewrite (Hnil Hprc) in *. clear Hnil Hsys NF NE NI.
  destruct (load_rules (set_conf_file (fs o (config_file pconfig)) s0))
    as [[lrc l] s1] eqn:L. simpl fst.
  destruct (Z.eqb_spec lrc 0) as [Hlrc|Hlrc]; simpl negb; cbv iota.
  2:{ intros H. injection H as <- <- <- <-. split; [reflexivity|]. left.
      repeat split; auto; intros; discriminate. }
  destruct (Z.eqb_spec (only_check pconfig) 0) as [Hoc|Hoc]; simpl negb; cbv iota.
  2:{ intros H. injection H as <- <- <- <-. split; [reflexivity|]. left.
      repeat split; auto. }
  set (log1 := match capng_apply o with
               | Some rc =>
                   ([] ++ [Sigaction SIGHUP Hup_handler;
                           Sigaction SIGCHLD Child_handler;
                           Sigaction SIGTERM Term_handler]) ++
                   Capng_clear ::
                   (if negb (rc =? 0)
                    then [Startup_syslog LOG_WARNING Msg_capng_failed]
                    else [])
               | None =>
                   [] ++ [Sigaction SIGHUP Hup_handler;
                          Sigaction SIGCHLD Child_handler;
                          Sigaction SIGTERM Term_handler]
               end).
  assert (H1 : existsb is_fork log1 = false /\ existsb is_feed log1 = false /\
               existsb is_failed_init log1 = false).
  { subst log1. destruct (capng_apply o) as [rc|]; [|auto].
    destruct (negb (rc =? 0)); auto. }
  destruct H1 as (F1 & E1 & I1).
  destruct (Z.eqb_spec (pipe_rc o) (-1)) as [Hp|Hp].
  { intros H. injection H as <- <- <- <-. split; [reflexivity|]. left.
    rewrite !existsb_app, F1, E1, I1. simpl. repeat split; auto; intros; discriminate. }
  destruct (Z.eqb_spec (fork_rc o) (-1)) as [Hf|Hf].
  { intros H. injection H as <- <- <- <-. split; [reflexivity|]. right.
    rewrite !existsb_app, F1, E1, I1. simpl.
    repeat split; auto; intros; try discriminate. }
  destruct (Z.eqb_spec (fork_rc o) 0) as [Hc|Hc].
  { destruct (execve_fails o); intros H; injection H as <- <- <- <-;
      (split; [reflexivity|]); right;
      rewrite !existsb_app, F1, E1, I1; simpl;
      repeat split; auto; intros; try discriminate. }
  destruct (Z.eqb_spec (auplugin_init_rc o) 0) as [Hi|Hi]; simpl negb; cbv iota.
  - intros H. injection H as <- <- <- <-. split; [reflexivity|]. right.
    rewrite !existsb_app, F1, E1, I1. simpl. rewrite Hi. simpl.
    repeat split; auto; intros; try discriminate.
  - intros H. injection H as <- <- <- <-. split; [reflexivity|]. right.
    rewrite !existsb_app, F1, E1, I1. simpl.
    apply Z.eqb_neq in Hi. rewrite Hi. simpl.
    repeat split; auto; intros; try discriminate.
    eexists. replace (cpid (set_cpid (fork_rc o) (set_rule_list l s1)))
      with (fork_rc o) by (destruct s1; reflexivity).
    reflexivity.
Qed.

(** X15. [main] forks only after a clean start: the command line named a
    mode and a consumer, whose argv[0] is its binary, and the rules of
    the configured file were loaded with return value 0. *)
Theorem fork_only_after_clean_start (o : os) (argv : list (list byte))
    (s : state) out config log s' :
  main o argv s = (out, config, log, s') ->
  existsb is_fork log = true ->
  (mode config = ALLOWLIST \/ mode config = BLOCKLIST) /\
  only_check config = 0 /\
  binary_args config <> [] /\ hd [] (binary_args config) = binary config /\
  exists s0,
    conf_file s0 = fs o (config_file config) /\ fst (fst (load_rules s0)) = 0.
Proof.
  intros M Hfork. apply main_cases in M.
  destruct (parse_args argv config_init s) as [[[prc pconfig] plog] s0] eqn:P.
  destruct M as [-> [(NF & _)|(Hprc & Hlrc & Hoc & _)]]; [congruence|].
  destruct (parse_args_facts _ _ _ _ _ _ P) as (_ & _ & Hf & _).
  destruct (Hf Hprc Hoc) as (Hm & Hhd & Hne).
  repeat split; auto.
  exists (set_conf_file (fs o (config_file pconfig)) s0).
  split; [destruct s0; reflexivity|assumption].
Qed.

(** X16. [main] returns 0 only when the rules were loaded with return
    value 0 and either it was asked to check the file only, and then did
    nothing else, or the event feed ran and came back. *)
Theorem exit_status_zero (o : os) (argv : list (list byte)) (s : state)
    out config log s' :
  main o argv s = (out, config, log, s') ->
  out = Exit 0 ->
  (exists s0,
     conf_file s0 = fs o (config_file config) /\
     fst (fst (load_rules s0)) = 0) /\
  ((only_check config <> 0 /\ log = []) \/
   (only_check config = 0 /\ existsb is_feed log = true)).
Proof.
  intros M Hout. apply main_cases in M.
  destruct (parse_args argv config_init s) as [[[prc pconfig] plog] s0] eqn:P.
  destruct M as [-> [(_ & _ & _ & H)|(Hprc & Hlrc & Hoc & _ & _ & H)]].
  - destruct (H Hout) as (Hprc & Hlrc & Hoc & Hlog). split.
    + exists (set_conf_file (fs o (config_file pconfig)) s0).
      split; [destruct s0; reflexivity|assumption].
    + left. split; assumption.
  - split.
    + exists (set_conf_file (fs o (config_file pconfig)) s0).
      split; [destruct s0; reflexivity|assumption].
    + right. split; [assumption|]. apply H. assumption.
Qed.

(** X17. When [auplugin_init] fails, the consumer is already running:
    [main] sends it SIGTERM as its last action, feeds no event and
    returns -1. *)
Theorem failed_init_terminates_consumer (o : os) (argv : list (list byte))
    (s : state) out config log s' :
  main o argv s = (out, config, log, s') ->
  existsb is_failed_init log = true ->
  out = Exit (-1) /\ existsb is_feed log = false /\
  exists s1, s' = kill (fork_rc o) SIGTERM s1.
Proof.
  intros M Hinit. apply main_cases in M.
  destruct (parse_args argv config_init s) as [[[prc pconfig] plog] s0] eqn:P.
  destruct M as [-> [(_ & _ & NI & _)|(_ & _ & _ & _ & H & Hz)]]; [congruence|].
  destruct (H Hinit) as [Hout Hk]. repeat split; auto.
  destruct (existsb is_feed log) eqn:Hfeed; [|reflexivity].
  assert (out = Exit 0) by (apply Hz; reflexivity). congruence.
Qed.

(** X21. A clean start hands the events to [handle_event] with the
    configuration of the command line and the rules of the file: when
    the arguments name a mode and a consumer, the rules load with return
    value 0 and pipe, fork and [auplugin_init] succeed, the parent runs
    the event feed on a state whose rule list is the loaded one, all of
    it accepted by the engine and none of it registered yet, and returns
    0 when the feed comes back. *)
Theorem main_feeds_events_to_loaded_rules (o : os) (argv : list (list byte))
    (s : state) (m : Z) (l : filter_list) (s1 : state) :
  (3 < length argv)%nat -> mode_named (nth 1 argv []) = Some m ->
  allocs_ok (tick s) (length argv - 2) = true ->
  rules_loaded s = 0 -> au_exprs s = [] ->
  load_rules (set_conf_file (fs o (nth 2 argv []))
                (set_tick (tick s + (length argv - 2)) s)) = (0, l, s1) ->
  pipe_rc o <> -1 -> fork_rc o <> -1 -> fork_rc o <> 0 ->
  auplugin_init_rc o = 0 ->
  let config := mk_conf m (nth 3 argv []) (skipn 3 argv) (nth 2 argv []) 0 in
  let s2 := set_cpid (fork_rc o) (set_rule_list l s1) in
  engine_in_sync s2 /\ hup s2 = hup s /\ stop s2 = stop s /\
  exists log,
    main o argv s
    = (Exit 0, config, log, auplugin_event_feed o (handle_event config) s2).
Proof.
  intros Hlen Hm Hok Hrl Hau L Hp Hf Hc Hi config s2.
  pose proof (load_rules_well_formed
                (set_conf_file (fs o (nth 2 argv []))
                   (set_tick (tick s + (length argv - 2)) s))) as WF.
  rewrite L in WF. simpl in WF.
  pose proof L as L'. apply load_rules_inv in L'. destruct L' as (F & _).
  apply frame_fields in F.
  destruct F as (Hst & Hh & _ & _ & _ & Hrl1 & Hau1 & _).
  split; [|split; [|split]].
  - split.
    + replace (rule_list s2) with l by (destruct s1; reflexivity).
      clear - WF. induction l as [|r l IH]; [reflexivity|].
      simpl in *. apply andb_true_iff in WF. destruct WF as [Hr Hl].
      rewrite IH by assumption. unfold well_formed_rule in Hr. unfold accepted.
      repeat (apply andb_true_iff in Hr; destruct Hr as [Hr ?]).
      rewrite Hr. reflexivity.
    + replace (rules_loaded s2) with (rules_loaded s1) by (destruct s1; reflexivity).
      replace (au_exprs s2) with (au_exprs s1) by (destruct s1; reflexivity).
      rewrite Hrl1, Hau1.
      replace (rules_loaded _) with (rules_loaded s) by (destruct s; reflexivity).
      replace (au_exprs _) with (au_exprs s) by (destruct s; reflexivity).
      rewrite Hrl, Hau. reflexivity.
  - replace (hup s2) with (hup s1) by (destruct s1; reflexivity).
    rewrite Hh. destruct s; reflexivity.
  - replace (stop s2) with (stop s1) by (destruct s1; reflexivity).
    rewrite Hst. destruct s; reflexivity.
  - unfold main.
    rewrite (proj1 (parse_args_command argv s m Hlen Hm Hok)).
    simpl negb. cbv iota. simpl config_file. rewrite L.
    simpl negb. cbv iota. simpl only_check. simpl negb. cbv iota.
    apply Z.eqb_neq in Hp, Hf, Hc. rewrite Hp, Hf, Hc, Hi.
    simpl negb. cbv iota. eexists. reflexivity.
Qed.

End StartupFacts.

Example main_block_run :
  let '(out, config, log, s') := @main toy (toy_os file_ok 0 4242 0) argv_block start0 in
  out = Exit 0 /\ mode config = BLOCKLIST /\ pipe s' = line_b64 ++ [NL] ++ line_path ++ [NL] /\ cpid s' = 4242.
Proof. vm_compute. repeat split. Qed.

(** ** The rule list in memory *)

Section HeapFacts.
Import Heap.

Lemma store_same (h : heap) (a : nat) (b : option block) : store h a b a = b.
Proof. unfold store. rewrite Nat.eqb_refl. reflexivity. Qed.

Lemma store_other (h : heap) (a x : nat) (b : option block) :
  x <> a -> store h a b x = h x.
Proof. intros H. unfold store. apply Nat.eqb_neq in H. rewrite H. reflexivity. Qed.

Lemma chain_store (h : heap) (a : nat) (b : option block) :
  forall cells p,
    chain h p cells -> ~ In a (footprint cells) -> chain (store h a b) p cells.
Proof.
  induction cells as [|[[x ex] r] cells IH]; intros p H Hn; simpl in *.
  - assumption.
  - destruct H as (-> & nx & Hx & Hex & Hc). split; [reflexivity|].
    exists nx. rewrite !store_other by (intros ->; apply Hn; auto).
    repeat split; auto. apply IH; [assumption|]. intros H; apply Hn; auto.
Qed.

Lemma last_rule_in (cells : list (nat * nat * filter_rule)) (t : nat) :
  last_rule cells = Some t -> In t (footprint cells).
Proof.
  induction cells as [|[[x ex] r] cells IH]; simpl; [discriminate|].
  destruct cells as [|c cells].
  - intros H. injection H as <-. auto.
  - intros H. right. right. apply IH. assumption.
Qed.

Lemma last_rule_snoc (cells : list (nat * nat * filter_rule))
    (c : nat * nat * filter_rule) :
  last_rule (cells ++ [c]) = Some (fst (fst c)).
Proof.
  induction cells as [|x cells IH]; [reflexivity|].
  simpl app. simpl last_rule. rewrite IH.
  destruct (cells ++ [c]) eqn:Hc; [|reflexivity].
  destruct cells; discriminate.
Qed.

Lemma chain_snoc (h : heap) (t a ea : nat) (r : filter_rule) :
  forall cells p,
    chain h p cells -> NoDup (footprint cells) ->
    last_rule cells = Some t ->
    h a = Some (Rule (Some ea) (lineno r) None) ->
    h ea = Some (Chars (expr r)) ->
    ~ In a (footprint cells) -> ~ In ea (footprint cells) ->
    exists e ln,
      h t = Some (Rule e ln None) /\
      chain (store h t (Some (Rule e ln (Some a)))) p (cells ++ [(a, ea, r)]).
Proof.
  induction cells as [|[[x ex] rx] cells IH]; intros p Hc Hnd Hlast Ha Hea Hna Hnea.
  - discriminate.
  - simpl in Hc. destruct Hc as (-> & nx & Hx & Hex & Hc).
    simpl in Hnd. inversion Hnd as [|? ? Hx1 Hnd1]; subst.
    inversion Hnd1 as [|? ? Hx2 Hnd2]; subst.
    destruct cells as [|c cells].
    + simpl in Hlast. injection Hlast as <-. simpl in Hc. subst nx.
      exists (Some ex), (lineno rx). split; [assumption|].
      simpl. split; [reflexivity|].
      exists (Some a). rewrite store_same.
      rewrite !store_other by (intros ->; simpl in *; tauto).
      repeat split; auto.
      exists None. repeat split; auto.
    + assert (Hl : last_rule (c :: cells) = Some t) by exact Hlast.
      assert (Ht : In t (footprint (c :: cells))) by (apply last_rule_in; assumption).
      destruct (IH nx Hc Hnd2 Hl Ha Hea) as (e & ln & Hte & Hch).
      { intros H. apply Hna. simpl. right. right. exact H. }
      { intros H. apply Hnea. simpl. right. right. exact H. }
      exists e, ln. split; [assumption|].
      simpl app. simpl chain. split; [reflexivity|].
      exists nx. rewrite !store_other.
      * repeat split; auto.
      * intros ->. apply Hx2. exact Ht.
      * intros ->. apply Hx1. right. exact Ht.
Qed.

Lemma holds_reset (h : heap) (l : filter_list) : holds h (reset_rules l) [].
Proof. split; [reflexivity|split; [constructor|congruence]]. Qed.

(** X18. [append_rule] puts a fresh rule at the end of the list and
    keeps the rules already there in their order; [tail] then points to
    the new rule, and no block but the rule that was last is written. *)
Theorem append_rule_adds_at_the_end (h : heap) (l : filter_list)
    (cells : list (nat * nat * filter_rule)) (a ea : nat) (r : filter_rule) :
  holds h l cells ->
  h a = Some (Rule (Some ea) (lineno r) None) ->
  h ea = Some (Chars (expr r)) ->
  ~ In a (footprint cells) -> ~ In ea (footprint cells) ->
  exists h' l',
    append_rule h l a = Some (h', l') /\
    holds h' l' (cells ++ [(a, ea, r)]) /\
    head l' = hd_error (map (fun c => fst (fst c)) (cells ++ [(a, ea, r)])) /\
    tail l' = Some a /\
    forall x, Some x <> tail l -> h' x = h x.
Proof.
  intros (Hc & Hnd & Ht) Ha Hea Hna Hnea.
  assert (Hne : a <> ea) by (intros ->; rewrite Ha in Hea; discriminate).
  assert (Hnd' : NoDup (footprint (cells ++ [(a, ea, r)]))).
  { unfold footprint in *. rewrite flat_map_app. simpl.
    apply NoDup_app; [assumption| |].
    - repeat constructor; simpl; intuition congruence.
    - intros x Hx [<-|[<-|[]]]; tauto. }
  destruct cells as [|c cells].
  - simpl in Hc. unfold append_rule. rewrite Hc.
    exists h, (mk_list (Some a) (Some a)).
    repeat split; auto.
    + simpl. exists None. repeat split; auto.
  - destruct (last_rule (c :: cells)) as [t|] eqn:Hl.
    2:{ exfalso. clear -Hl. revert c Hl.
        induction cells as [|d cells IH]; intros c Hl; [discriminate|].
        apply (IH d). exact Hl. }
    assert (Htl : tail l = Some t) by (apply Ht; discriminate).
    destruct (chain_snoc h t a ea r (c :: cells) (head l) Hc Hnd Hl Ha Hea Hna Hnea)
      as (e & ln & Hte & Hch).
    unfold append_rule. destruct c as [[x ex] rx].
    destruct Hc as (Hh & _). rewrite Hh, Htl, Hte.
    eexists _, _. split; [reflexivity|].
    split; [split; [|split]|split; [|split]].
    + simpl head. rewrite Hh in Hch. exact Hch.
    + exact Hnd'.
    + intros _. rewrite last_rule_snoc. reflexivity.
    + reflexivity.
    + reflexivity.
    + intros y Hy. apply store_other. intros ->. apply Hy. reflexivity.
Qed.

(** X19. The walk over the list that [handle_event] makes to register
    the rules ends and visits the expressions of the rules in the order
    of the list. *)
Theorem walk_visits_rules_in_order (h : heap) (l : filter_list)
    (cells : list (nat * nat * filter_rule)) (fuel : nat) :
  holds h l cells -> (length cells <= fuel)%nat ->
  exprs_from fuel h (head l) = Some (map expr (rules cells)).
Proof.
  intros (Hc & _ & _). generalize (head l) Hc. clear Hc. revert fuel.
  induction cells as [|[[x ex] rx] cells IH]; intros fuel p Hc Hf.
  - simpl in Hc. subst p. destruct fuel; reflexivity.
  - destruct Hc as (-> & nx & Hx & Hex & Hc).
    destruct fuel as [|fuel]; [simpl in Hf; lia|].
    simpl. rewrite Hx, Hex. rewrite (IH fuel nx Hc) by (simpl in Hf; lia).
    reflexivity.
Qed.

Lemma free_rules_from_spec :
  forall cells fuel h p,
    chain h p cells -> NoDup (footprint cells) -> (length cells <= fuel)%nat ->
    exists h',
      free_rules_from fuel h p = Some h' /\
      (forall x, In x (footprint cells) -> h' x = None) /\
      (forall x, ~ In x (footprint cells) -> h' x = h x).
Proof.
  induction cells as [|[[a ea] r] cells IH]; intros fuel h p Hc Hnd Hf.
  - simpl in Hc. subst p. exists h. destruct fuel; simpl; repeat split; auto; contradiction.
  - destruct Hc as (-> & nx & Ha & Hea & Hc).
    destruct fuel as [|fuel]; [simpl in Hf; lia|].
    simpl in Hnd. inversion Hnd as [|? ? H1 Hnd1]; subst.
    inversion Hnd1 as [|? ? H2 Hnd2]; subst.
    assert (Hne : a <> ea) by (intros ->; apply H1; left; reflexivity).
    set (h1 := store h ea None). set (h2 := store h1 a None).
    assert (Hc2 : chain h2 nx cells).
    { apply chain_store; [apply chain_store; assumption|].
      intros H; apply H1; right; exact H. }
    destruct (IH fuel h2 nx Hc2 Hnd2 ltac:(simpl in Hf; lia)) as (h' & Hfr & Hin & Hout).
    exists h'. split; [|split].
    + simpl. rewrite Ha. unfold free_rule. rewrite Ha. simpl. rewrite Hea.
      fold h1. rewrite (store_other h ea a None Hne : h1 a = h a), Ha.
      fold h2. exact Hfr.
    + intros x [<-|[<-|Hx]].
      * rewrite Hout by (intros H; apply H1; right; exact H).
        apply store_same.
      * rewrite Hout by assumption. unfold h2.
        rewrite store_other by auto. apply store_same.
      * apply Hin. exact Hx.
    + intros x Hx. simpl in Hx. rewrite Hout by tauto.
      unfold h2, h1. rewrite !store_other; auto.
Qed.

(** X20. [free_rules] is defined on every well-formed list: it frees
    the rule and the expression of each rule once, reads no block it has
    freed, and leaves every other block as it is. *)
Theorem free_rules_frees_the_list_only (h : heap) (l : filter_list)
    (cells : list (nat * nat * filter_rule)) (fuel : nat) :
  holds h l cells -> (length cells <= fuel)%nat ->
  exists h',
    free_rules fuel h l = Some h' /\
    (forall x, In x (footprint cells) -> h' x = None) /\
    (forall x, ~ In x (footprint cells) -> h' x = h x).
Proof.
  intros (Hc & Hnd & _) Hf. apply free_rules_from_spec; assumption.
Qed.

Lemma chain_agree (h h' : heap) :
  forall cells p,
    chain h p cells ->
    (forall x, In x (footprint cells) -> h' x = h x) ->
    chain h' p cells.
Proof.
  induction cells as [|[[a ea] r] cells IH]; intros p H Hx; simpl in *.
  - assumption.
  - destruct H as (-> & nx & Ha & Hea & Hc). split; [reflexivity|].
    exists nx. rewrite !Hx by auto. repeat split; auto.
Qed.

(** X22. The two lists of a reload do not disturb each other: freeing
    one list (the previous rules after a reload that succeeded, the new
    ones after one that failed) leaves a list that shares no block with
    it as it was, with all its rules in place. *)
Theorem freeing_one_list_keeps_the_other (h : heap) (l1 l2 : filter_list)
    (cells1 cells2 : list (nat * nat * filter_rule)) (fuel : nat) :
  holds h l1 cells1 -> holds h l2 cells2 ->
  (forall x, In x (footprint cells1) -> ~ In x (footprint cells2)) ->
  (length cells1 <= fuel)%nat ->
  exists h',
    free_rules fuel h l1 = Some h' /\
    holds h' l2 cells2 /\
    exprs_from (length cells2) h' (head l2) = Some (map expr (rules cells2)) /\
    forall x, In x (footprint cells1) -> h' x = None.
Proof.
  intros (Hc1 & Hnd1 & _) (Hc2 & Hnd2 & Ht2) Hdis Hf.
  destruct (free_rules_from_spec cells1 fuel h (head l1) Hc1 Hnd1 Hf)
    as (h' & Hfr & Hin & Hout).
  exists h'. split; [exact Hfr|].
  assert (Hc2' : chain h' (head l2) cells2).
  { apply (chain_agree h); [assumption|]. intros x Hx. apply Hout.
    intros H1. exact (Hdis x H1 Hx). }
  split; [repeat split; assumption|]. split; [|exact Hin].
  clear - Hc2'. generalize (head l2) Hc2'. clear Hc2'.
  induction cells2 as [|[[a ea] r] cells IH]; intros p Hc.
  - simpl in Hc. subst p. reflexivity.
  - destruct Hc as (-> & nx & Ha & Hea & Hc). simpl.
    rewrite Ha, Hea, (IH nx Hc). reflexivity.
Qed.

End HeapFacts.

(** ** The further properties on sample inputs *)

Lemma toy_grants_memory (n : nat) : @alloc_ok toy n = true.
Proof. reflexivity. Qed.

(** X1 on the first line of [file_ok]. *)
Lemma get_line_returns_a_line_of_the_file_witness :
  let s := start [] (root_file file_ok) in
  get_line file_ok BUF_SIZE 0 s = (Some line_b64, line_uid ++ [NL], 0, s) /\
  text_line line_b64 = true /\ (length line_b64 + 2 <= BUF_SIZE)%nat /\
  exists pre, file_ok = pre ++ line_b64 ++ NL :: line_uid ++ [NL].
Proof.
  intros s.
  assert (H : get_line file_ok BUF_SIZE 0 s
              = (Some line_b64, line_uid ++ [NL], 0, s))
    by (vm_compute; reflexivity).
  split; [exact H|].
  exact (get_line_returns_a_line_of_the_file file_ok BUF_SIZE 0 s
           line_b64 (line_uid ++ [NL]) 0 s H).
Defined.

(** X2 on the first line of [file_ok]. *)
Lemma get_line_reads_forward_witness :
  let s := start [] (root_file file_ok) in
  (2 <= BUF_SIZE)%nat /\
  get_line file_ok BUF_SIZE 0 s = (Some line_b64, line_uid ++ [NL], 0, s) /\
  exists pre, file_ok = pre ++ line_uid ++ [NL] /\ pre <> [].
Proof.
  intros s.
  assert (H0 : (2 <= BUF_SIZE)%nat) by (apply Nat.leb_le; vm_compute; reflexivity).
  assert (H : get_line file_ok BUF_SIZE 0 s
              = (Some line_b64, line_uid ++ [NL], 0, s))
    by (vm_compute; reflexivity).
  split; [exact H0|]. split; [exact H|].
  exact (get_line_reads_forward file_ok BUF_SIZE 0 s
           (Some line_b64) (line_uid ++ [NL]) 0 s H0 H).
Defined.

(** X3 on a file of one line followed by [uid=0] without a newline. *)
Lemma last_line_without_newline_is_dropped_witness :
  let s := start [] (root_file (unlines [line_b64] ++ line_uid)) in
  forallb text_line [line_b64] = true /\ text_line line_uid = true /\
  line_uid <> [] /\
  exists ln1 L1 s1,
    (forall rest,
       @read_file toy (unlines [line_b64] ++ rest) 0 [] s
       = @read_file toy rest ln1 L1 s1) /\
    @read_file toy (unlines [line_b64] ++ line_uid) 0 [] s
    = (L1, syslog LOG_WARNING (Msg_too_long ln1) s1).
Proof.
  intros s.
  assert (H1 : forallb text_line [line_b64] = true) by (vm_compute; reflexivity).
  assert (H2 : text_line line_uid = true) by (vm_compute; reflexivity).
  assert (H3 : line_uid <> []) by discriminate.
  split; [exact H1|]. split; [exact H2|]. split; [exact H3|].
  exact (@last_line_without_newline_is_dropped toy [line_b64] line_uid 0 [] s
           H1 H2 H3).
Defined.

(** X5 on [file_bad]. *)
Lemma loaded_rules_line_numbers_increase_witness :
  let s := start [] (root_file file_bad) in
  Z.of_nat (file_size (conf_file s)) <= INT_MAX /\
  snd (fst (@load_rules toy s)) = [mk_rule line_b64 1; mk_rule line_uid 3] /\
  StronglySorted lineno_lt (snd (fst (@load_rules toy s))) /\
  Forall (fun r => 1 <= lineno r <= Z.of_nat (file_size (conf_file s)))
    (snd (fst (@load_rules toy s))).
Proof.
  intros s.
  assert (H : Z.of_nat (file_size (conf_file s)) <= INT_MAX)
    by (vm_compute; discriminate).
  split; [exact H|]. split; [vm_compute; reflexivity|].
  exact (@loaded_rules_line_numbers_increase toy s H).
Defined.

(** X6 on [file_bad]: one expression is refused. *)
Lemma load_rules_returns_number_of_rejections_witness :
  let s := start [] (root_file file_bad) in
  gate_failed (conf_file s) = false /\ @alloc_ok toy (tick s) = true /\
  Z.of_nat (file_size (conf_file s)) <= INT_MAX /\
  fst (fst (@load_rules toy s)) = 1 /\
  let '(rc, l, s') := @load_rules toy s in
  rc = Z.of_nat (rejections (events_since s s')) /\ errors s' = rc.
Proof.
  intros s.
  assert (H1 : gate_failed (conf_file s) = false) by (vm_compute; reflexivity).
  assert (H2 : @alloc_ok toy (tick s) = true) by reflexivity.
  assert (H3 : Z.of_nat (file_size (conf_file s)) <= INT_MAX)
    by (vm_compute; discriminate).
  split; [exact H1|]. split; [exact H2|]. split; [exact H3|].
  split; [vm_compute; reflexivity|].
  exact (@load_rules_returns_number_of_rejections toy s H1 H2 H3).
Defined.

(** X7 on a file of a valid line, a comment, an invalid line, and a last
    line without a newline. *)
Lemma load_rules_on_text_file_witness :
  let ls := [line_b64; [SP; HASH; x78]; line_bogus] in
  let s := start [] (root_file (unlines ls ++ line_uid)) in
  (forall n, @alloc_ok toy n = true) /\
  conf_file s = Opened (Some (mk_stat 0 33184)) (unlines ls ++ line_uid) /\
  gate_failed (conf_file s) = false /\
  forallb text_line ls = true /\ text_line line_uid = true /\
  Z.of_nat (length ls) <= INT_MAX /\
  Z.of_nat (@count_invalid toy ls) = 1 /\
  @rules_of_lines toy 0 ls = [mk_rule line_b64 1] /\
  fst (@load_rules toy s)
  = (Z.of_nat (@count_invalid toy ls), @rules_of_lines toy 0 ls).
Proof.
  intros ls s.
  assert (H2 : conf_file s = Opened (Some (mk_stat 0 33184)) (unlines ls ++ line_uid))
    by reflexivity.
  assert (H3 : gate_failed (conf_file s) = false) by (vm_compute; reflexivity).
  assert (H4 : forallb text_line ls = true) by (vm_compute; reflexivity).
  assert (H5 : text_line line_uid = true) by (vm_compute; reflexivity).
  assert (H6 : Z.of_nat (length ls) <= INT_MAX) by (vm_compute; discriminate).
  split; [exact toy_grants_memory|]. split; [exact H2|]. split; [exact H3|].
  split; [exact H4|]. split; [exact H5|]. split; [exact H6|].
  split; [vm_compute; reflexivity|]. split; [vm_compute; reflexivity|].
  exact (@load_rules_on_text_file toy ls line_uid (mk_stat 0 33184) s
           toy_grants_memory H2 H3 H4 H5 H6).
Defined.

(** X9 on the first event after start-up. *)
Lemma handle_event_keeps_engine_in_sync_witness :
  let s := start [rule_b64] (root_file file_ok) in
  @engine_in_sync toy s /\
  au_exprs (@register_rules toy s) = map expr (rule_list (@register_rules toy s)) /\
  @engine_in_sync toy (@handle_event toy conf_block ev_b64 s).
Proof.
  intros s.
  assert (H : @engine_in_sync toy s) by (split; reflexivity).
  split; [exact H|].
  exact (@handle_event_keeps_engine_in_sync toy conf_block ev_b64 s H).
Defined.

(** X11 on a SIGHUP that brings in [file_ok] in place of the rule loaded
    at start-up. *)
Lemma sighup_reloads_at_next_event_witness :
  let ls := [line_b64; line_uid] in
  let s := start [mk_rule line_path 1] (root_file (unlines ls ++ [])) in
  let s0 := hup_handler SIGHUP s in
  let s1 := @handle_event toy conf_block ev_b64 s0 in
  (forall n, @alloc_ok toy n = true) /\
  conf_file s = Opened (Some (mk_stat 0 33184)) (unlines ls ++ []) /\
  gate_failed (conf_file s) = false /\
  forallb text_line ls = true /\ text_line [] = true /\
  Z.of_nat (length ls) <= INT_MAX /\
  @engine_in_sync toy s /\
  @rules_of_lines toy 0 ls = [mk_rule line_b64 1; mk_rule line_uid 2] /\
  events_since s s0 = [Kill (cpid s) SIGHUP; Store_hup 1] /\
  hup s1 = 0 /\
  rule_list s1
  = (if (@count_invalid toy ls =? 0)%nat then @rules_of_lines toy 0 ls
     else rule_list s) /\
  au_exprs s1 = map expr (rule_list s1).
Proof.
  intros ls s s0 s1.
  assert (H2 : conf_file s = Opened (Some (mk_stat 0 33184)) (unlines ls ++ []))
    by reflexivity.
  assert (H3 : gate_failed (conf_file s) = false) by (vm_compute; reflexivity).
  assert (H4 : forallb text_line ls = true) by (vm_compute; reflexivity).
  assert (H5 : text_line [] = true) by reflexivity.
  assert (H6 : Z.of_nat (length ls) <= INT_MAX) by (vm_compute; discriminate).
  assert (H7 : @engine_in_sync toy s) by (split; reflexivity).
  split; [exact toy_grants_memory|]. split; [exact H2|]. split; [exact H3|].
  split; [exact H4|]. split; [exact H5|]. split; [exact H6|].
  split; [exact H7|]. split; [vm_compute; reflexivity|].
  exact (@sighup_reloads_at_next_event toy conf_block ev_b64 ls []
           (mk_stat 0 33184) s toy_grants_memory H2 H3 H4 H5 H6 H7).
Defined.

(** X13 on the command line [f BLOCKlist c /bin/cat -u]. *)
Lemma parse_args_builds_consumer_command_witness :
  (3 < length argv_block)%nat /\
  mode_named (nth 1 argv_block []) = Some BLOCKLIST /\
  @allocs_ok toy (tick start0) (length argv_block - 2) = true /\
  @parse_args toy argv_block config_init start0
  = (0, mk_conf BLOCKLIST (nth 3 argv_block []) (skipn 3 argv_block)
          (nth 2 argv_block []) 0, [],
     set_tick (tick start0 + (length argv_block - 2)) start0) /\
  hd [] (skipn 3 argv_block) = nth 3 argv_block [] /\
  (BLOCKLIST = ALLOWLIST \/ BLOCKLIST = BLOCKLIST).
Proof.
  assert (H1 : (3 < length argv_block)%nat) by (simpl; lia).
  assert (H2 : mode_named (nth 1 argv_block []) = Some BLOCKLIST)
    by (vm_compute; reflexivity).
  assert (H3 : @allocs_ok toy (tick start0) (length argv_block - 2) = true)
    by reflexivity.
  split; [exact H1|]. split; [exact H2|]. split; [exact H3|].
  exact (@parse_args_builds_consumer_command toy argv_block start0 BLOCKLIST
           H1 H2 H3).
Defined.

(** X14 on [f --check /etc/rules] when the file holds [file_bad]. *)
Lemma check_mode_only_validates_witness :
  let o := toy_os file_bad 0 4242 0 in
  length argv_check = 3%nat /\ c_str (nth 1 argv_check []) = flag_check /\
  fst (fst (fst (@main toy o argv_check start0))) = Exit 1 /\
  @main toy o argv_check start0 =
    let '(rc, l, s1) :=
      @load_rules toy (set_conf_file (fs o (nth 2 argv_check [])) start0) in
    (Exit (if rc =? 0 then 0 else 1),
     mk_conf (-1) [] [] (nth 2 argv_check []) 1, [], set_rule_list l s1).
Proof.
  intros o. split; [reflexivity|]. split; [reflexivity|].
  split; [vm_compute; reflexivity|].
  exact (@check_mode_only_validates toy o argv_check start0 eq_refl eq_refl).
Defined.

(** X15 on a run in blocklist mode that starts the consumer. *)
Lemma fork_only_after_clean_start_witness :
  let o := toy_os file_ok 0 4242 0 in
  let r := @main toy o argv_block start0 in
  let config := snd (fst (fst r)) in
  let log := snd (fst r) in
  r = (fst (fst (fst r)), config, log, snd r) /\
  existsb is_fork log = true /\
  (mode config = ALLOWLIST \/ mode config = BLOCKLIST) /\
  only_check config = 0 /\
  binary_args config <> [] /\ hd [] (binary_args config) = binary config /\
  exists s0,
    conf_file s0 = fs o (config_file config) /\
    fst (fst (@load_rules toy s0)) = 0.
Proof.
  intros o r config log.
  assert (H1 : r = (fst (fst (fst r)), config, log, snd r))
    by (vm_compute; reflexivity).
  assert (H2 : existsb is_fork log = true) by (vm_compute; reflexivity).
  split; [exact H1|]. split; [exact H2|].
  exact (@fork_only_after_clean_start toy o argv_block start0
           (fst (fst (fst r))) config log (snd r) H1 H2).
Defined.

(** X16 on the same run: the feed hands over one event and comes back. *)
Lemma exit_status_zero_witness :
  let o := toy_os file_ok 0 4242 0 in
  let r := @main toy o argv_block start0 in
  let config := snd (fst (fst r)) in
  let log := snd (fst r) in
  r = (Exit 0, config, log, snd r) /\
  (exists s0,
     conf_file s0 = fs o (config_file config) /\
     fst (fst (@load_rules toy s0)) = 0) /\
  ((only_check config <> 0 /\ log = []) \/
   (only_check config = 0 /\ existsb is_feed log = true)).
Proof.
  intros o r config log.
  assert (H1 : r = (Exit 0, config, log, snd r)) by (vm_compute; reflexivity).
  split; [exact H1|].
  exact (@exit_status_zero toy o argv_block start0 (Exit 0) config log (snd r)
           H1 eq_refl).
Defined.

(** X17 on a run where [auplugin_init] returns -1. *)
Lemma failed_init_terminates_consumer_witness :
  let o := toy_os file_ok 0 4242 (-1) in
  let r := @main toy o argv_block start0 in
  let log := snd (fst r) in
  r = (fst (fst (fst r)), snd (fst (fst r)), log, snd r) /\
  existsb is_failed_init log = true /\
  fst (fst (fst r)) = Exit (-1) /\ existsb is_feed log = false /\
  exists s1, snd r = kill (fork_rc o) SIGTERM s1.
Proof.
  intros o r log.
  assert (H1 : r = (fst (fst (fst r)), snd (fst (fst r)), log, snd r))
    by (vm_compute; reflexivity).
  assert (H2 : existsb is_failed_init log = true) by (vm_compute; reflexivity).
  split; [exact H1|]. split; [exact H2|].
  exact (@failed_init_terminates_consumer toy o argv_block start0
           (fst (fst (fst r))) (snd (fst (fst r))) log (snd r) H1 H2).
Defined.

Lemma holds_sample : Heap.holds heap_sample list_sample cells_sample.
Proof.
  split; [|split].
  - split; [reflexivity|]. exists None. repeat split.
  - repeat constructor; simpl; intuition discriminate.
  - reflexivity.
Qed.

(** X18 on the sample heap: the rule of blocks 2 and 3 is appended to the
    list of one rule. *)
Lemma append_rule_adds_at_the_end_witness :
  Heap.holds heap_sample list_sample cells_sample /\
  heap_sample 2%nat = Some (Heap.Rule (Some 3%nat) (lineno rule_uid) None) /\
  heap_sample 3%nat = Some (Heap.Chars (expr rule_uid)) /\
  ~ In 2%nat (Heap.footprint cells_sample) /\
  ~ In 3%nat (Heap.footprint cells_sample) /\
  exists h' l',
    Heap.append_rule heap_sample list_sample 2 = Some (h', l') /\
    Heap.holds h' l' (cells_sample ++ [(2%nat, 3%nat, rule_uid)]) /\
    Heap.head l'
    = hd_error (map (fun c => fst (fst c))
                  (cells_sample ++ [(2%nat, 3%nat, rule_uid)])) /\
    Heap.tail l' = Some 2%nat /\
    forall x, Some x <> Heap.tail list_sample -> h' x = heap_sample x.
Proof.
  assert (H4 : ~ In 2%nat (Heap.footprint cells_sample))
    by (simpl; intuition discriminate).
  assert (H5 : ~ In 3%nat (Heap.footprint cells_sample))
    by (simpl; intuition discriminate).
  split; [exact holds_sample|]. split; [reflexivity|]. split; [reflexivity|].
  split; [exact H4|]. split; [exact H5|].
  exact (append_rule_adds_at_the_end heap_sample list_sample cells_sample
           2 3 rule_uid holds_sample eq_refl eq_refl H4 H5).
Defined.

(** X19 on the sample heap. *)
Lemma walk_visits_rules_in_order_witness :
  Heap.holds heap_sample list_sample cells_sample /\
  (length cells_sample <= 1)%nat /\
  Heap.exprs_from 1 heap_sample (Heap.head list_sample) = Some [line_b64].
Proof.
  split; [exact holds_sample|]. split; [simpl; lia|].
  exact (walk_visits_rules_in_order heap_sample list_sample cells_sample 1
           holds_sample (le_n 1)).
Defined.

(** X20 on the sample heap: blocks 0 and 1 are freed, blocks 2 and 3
    stay. *)
Lemma free_rules_frees_the_list_only_witness :
  Heap.holds heap_sample list_sample cells_sample /\
  (length cells_sample <= 1)%nat /\
  exists h',
    Heap.free_rules 1 heap_sample list_sample = Some h' /\
    (forall x, In x (Heap.footprint cells_sample) -> h' x = None) /\
    (forall x, ~ In x (Heap.footprint cells_sample) -> h' x = heap_sample x).
Proof.
  split; [exact holds_sample|]. split; [simpl; lia|].
  exact (free_rules_frees_the_list_only heap_sample list_sample cells_sample 1
           holds_sample (le_n 1)).
Defined.

(** X21 on the run in blocklist mode with [file_ok]. *)
Lemma main_feeds_events_to_loaded_rules_witness :
  let o := toy_os file_ok 0 4242 0 in
  let r := @load_rules toy
             (set_conf_file (fs o (nth 2 argv_block []))
                (set_tick (tick start0 + (length argv_block - 2)) start0)) in
  let l := snd (fst r) in
  let config :=
    mk_conf BLOCKLIST (nth 3 argv_block []) (skipn 3 argv_block)
      (nth 2 argv_block []) 0 in
  let s2 := set_cpid (fork_rc o) (set_rule_list l (snd r)) in
  (3 < length argv_block)%nat /\
  mode_named (nth 1 argv_block []) = Some BLOCKLIST /\
  @allocs_ok toy (tick start0) (length argv_block - 2) = true /\
  rules_loaded start0 = 0 /\ au_exprs start0 = [] /\
  r = (0, l, snd r) /\
  l = [mk_rule line_b64 1; mk_rule line_uid 2] /\
  pipe_rc o <> -1 /\ fork_rc o <> -1 /\ fork_rc o <> 0 /\
  auplugin_init_rc o = 0 /\
  @engine_in_sync toy s2 /\ hup s2 = hup start0 /\ stop s2 = stop start0 /\
  exists log,
    @main toy o argv_block start0
    = (Exit 0, config, log,
       auplugin_event_feed o (@handle_event toy config) s2).
Proof.
  intros o r l config s2.
  assert (H1 : (3 < length argv_block)%nat) by (simpl; lia).
  assert (H2 : mode_named (nth 1 argv_block []) = Some BLOCKLIST)
    by (vm_compute; reflexivity).
  assert (H3 : @allocs_ok toy (tick start0) (length argv_block - 2) = true)
    by reflexivity.
  assert (H4 : r = (0, l, snd r)) by (vm_compute; reflexivity).
  assert (H5 : pipe_rc o <> -1) by discriminate.
  assert (H6 : fork_rc o <> -1) by discriminate.
  assert (H7 : fork_rc o <> 0) by discriminate.
  split; [exact H1|]. split; [exact H2|]. split; [exact H3|].
  split; [reflexivity|]. split; [reflexivity|]. split; [exact H4|].
  split; [vm_compute; reflexivity|].
  split; [exact H5|]. split; [exact H6|]. split; [exact H7|].
  split; [reflexivity|].
  exact (@main_feeds_events_to_loaded_rules toy o argv_block start0 BLOCKLIST
           l (snd r) H1 H2 H3 eq_refl eq_refl H4 H5 H6 H7 eq_refl).
Defined.

(** X22 on the sample heap: the list of blocks 0 and 1 is freed, the
    list of blocks 2 and 3 stays. *)
Lemma freeing_one_list_keeps_the_other_witness :
  let l2 := Heap.mk_list (Some 2%nat) (Some 2%nat) in
  let cells2 := [(2%nat, 3%nat, rule_uid)] in
  Heap.holds heap_sample list_sample cells_sample /\
  Heap.holds heap_sample l2 cells2 /\
  (forall x, In x (Heap.footprint cells_sample) ->
             ~ In x (Heap.footprint cells2)) /\
  (length cells_sample <= 1)%nat /\
  exists h',
    Heap.free_rules 1 heap_sample list_sample = Some h' /\
    Heap.holds h' l2 cells2 /\
    Heap.exprs_from (length cells2) h' (Heap.head l2)
    = Some (map expr (Heap.rules cells2)) /\
    forall x, In x (Heap.footprint cells_sample) -> h' x = None.
Proof.
  intros l2 cells2.
  assert (H2 : Heap.holds heap_sample l2 cells2).
  { split; [|split].
    - split; [reflexivity|]. exists None. repeat split.
    - repeat constructor; simpl; intuition discriminate.
    - reflexivity. }
  assert (H3 : forall x, In x (Heap.footprint cells_sample) ->
                         ~ In x (Heap.footprint cells2))
    by (simpl; intuition congruence).
  split; [exact holds_sample|]. split; [exact H2|]. split; [exact H3|].
  split; [simpl; lia|].
  exact (freeing_one_list_keeps_the_other heap_sample list_sample l2
           cells_sample cells2 1 holds_sample H2 H3 (le_n 1)).
Defined.

(** C1 on an event the loaded rule matches, in ALLOWLIST mode, at the
    first event after start-up: the rule is registered, the engine
    reports a match against it, and the event is dropped. *)
Lemma forward_iff_engine_verdict_witness :
  let s := start [rule_b64] (root_file file_ok) in
  let s1 := @register_rules toy s in
  let R := if hup s =? 0 then rule_list s
           else rule_list (@reload_config toy s) in
  let rc := toy_cur_event (map expr R) ev_b64 in
  let s' := @handle_event toy conf_allow ev_b64 s in
  ev_records ev_b64 <> [] /\ @engine_in_sync toy s /\
  R = [rule_b64] /\ rc = 1 /\ forwarded s s' = false /\
  (rule_list s1 = R /\ au_exprs s1 = map expr R /\ rule_list s' = R) /\
  (mode conf_allow = ALLOWLIST -> (forwarded s s' = true <-> rc = 0)) /\
  (mode conf_allow = BLOCKLIST -> (forwarded s s' = true <-> rc > 0)) /\
  (forwarded s s' = true -> s' = @write_records toy (ev_records ev_b64) s1) /\
  (0 <= rc -> forwarded s s' = false -> s' = s1) /\
  (rc < 0 ->
   s' = syslog LOG_ERR (Msg_cur_event rc) s1 /\
   forwarded s s' = false /\ pipe s' = pipe s).
Proof.
  intros s s1 R rc s'.
  assert (H1 : ev_records ev_b64 <> []) by discriminate.
  assert (H2 : @engine_in_sync toy s) by (split; reflexivity).
  split; [exact H1|]. split; [exact H2|].
  split; [reflexivity|]. split; [reflexivity|].
  split; [vm_compute; reflexivity|].
  exact (@forward_iff_engine_verdict toy conf_allow ev_b64 s H1 H2).
Defined.
